(** * Sector simulation core: tick engine, route planner, structure
      lifecycle and drone swarm.

    A shallow embedding of [services/sector-sim/sim/capabilities.js], the
    tick engine ([tick], [createRng]) and [controllers.js]
    ([PlannerController], [StructureController], [SwarmController]),
    followed by the properties the specification states about them.

    Conventions of the embedding.
    - A JavaScript method that may throw is a computation in the monad
      [M S A := S -> Completion A * S]: the state reached when the exception
      is raised is kept, so a mutation made before a [throw] is visible.
    - A JavaScript [Map] is an association list in insertion order
      ([JsMap]); [set] on a present key replaces the value in place.
    - ECMAScript numbers are IEEE-754 binary64 values ([F64], on the
      Standard Library's [SpecFloat]).  The tick engine and the swarm are
      written over the interface [Arith] of the operations they use, of
      which [F64] is the instance JavaScript executes; the structure
      lifecycle is written on [F64] directly.  Integers of magnitude
      below 2^53 are computed with exactly ([IntegerFacts]); the
      properties that need exact sums are stated for such integers. *)

From Stdlib Require Import ZArith List String Ascii Bool Lia Permutation.
From Stdlib Require Import DecimalString.
From Stdlib Require Floats.SpecFloat.
Import ListNotations.

Set Implicit Arguments.
Local Open Scope string_scope.
Local Open Scope Z_scope.

(* ================================================================== *)
(** * Exceptions and the state-and-exception monad *)
(* ================================================================== *)

(** The two classes of exception the code can raise: [new Error(msg)],
    written in the source, and the [TypeError] the runtime raises when a
    property of [undefined] is read or a non-function is called. *)
Inductive JsError : Type :=
| Error (message : string)
| TypeError (message : string).

Inductive Completion (A : Type) : Type :=
| Return (a : A)
| Throw (e : JsError).

Arguments Return {A} a.
Arguments Throw {A} e.

Definition M (S A : Type) : Type := S -> Completion A * S.

Definition ret {S A} (a : A) : M S A := fun s => (Return a, s).

Definition throw {S A} (e : JsError) : M S A := fun s => (Throw e, s).

Definition bind {S A B} (c : M S A) (k : A -> M S B) : M S B :=
  fun s =>
    match c s with
    | (Return a, s') => k a s'
    | (Throw e, s') => (Throw e, s')
    end.

Definition get {S} : M S S := fun s => (Return s, s).

Definition modify {S} (f : S -> S) : M S unit := fun s => (Return tt, f s).

Declare Scope js_scope.
Delimit Scope js_scope with js.
Notation "x <- c1 ;; c2" := (bind c1 (fun x => c2))
  (at level 61, c1 at next level, right associativity) : js_scope.
Notation "c1 ;; c2" := (bind c1 (fun _ => c2))
  (at level 61, right associativity) : js_scope.

(** [for (const x of xs) body(x)]: the loop stops at the first exception. *)
Fixpoint for_of {S X} (xs : list X) (body : X -> M S unit) : M S unit :=
  match xs with
  | [] => ret tt
  | x :: rest => bind (body x) (fun _ => for_of rest body)
  end.

Definition completion {S A} (r : Completion A * S) : Completion A := fst r.
Definition final {S A} (r : Completion A * S) : S := snd r.

(* ================================================================== *)
(** * JavaScript [Map] with string keys, in insertion order *)
(* ================================================================== *)

Module JsMap.
Section JsMap.
Variable V : Type.

Definition t := list (string * V).

Definition empty : t := [].

Fixpoint get (k : string) (m : t) : option V :=
  match m with
  | [] => None
  | (k', v) :: rest => if String.eqb k' k then Some v else get k rest
  end.

Definition has (k : string) (m : t) : bool :=
  match get k m with Some _ => true | None => false end.

(** [Map.prototype.set]: a present key keeps its position. *)
Fixpoint set (k : string) (v : V) (m : t) : t :=
  match m with
  | [] => [(k, v)]
  | (k', v') :: rest =>
      if String.eqb k' k then (k', v) :: rest else (k', v') :: set k v rest
  end.

(** Mutation of the object stored under [k], through the alias that
    [get] returned. *)
Fixpoint update (k : string) (f : V -> V) (m : t) : t :=
  match m with
  | [] => []
  | (k', v) :: rest =>
      if String.eqb k' k then (k', f v) :: rest else (k', v) :: update k f rest
  end.

Definition values (m : t) : list V := map snd m.

Definition size (m : t) : Z := Z.of_nat (List.length m).

(** One pass of [for (const [, v] of m) { ...mutate v... }]. *)
Definition map_values (f : V -> V) (m : t) : t :=
  map (fun kv => (fst kv, f (snd kv))) m.
End JsMap.
End JsMap.

(* ================================================================== *)
(** * ECMAScript numbers *)
(* ================================================================== *)

(** The operations on numbers that the engine and the swarm use.  [ltb a b]
    is [a < b] and [leb a b] is [a <= b], so the source's [x > 0] is
    [ltb zero x] and [x >= y] is [leb y x]. *)
Class Arith : Type := {
  num : Type;
  zero : num;            (* the literals 0 and 0.0 *)
  one : num;             (* the literals 1 and 1.0 *)
  tenth : num;           (* the literal 0.1 *)
  of_Z : Z -> num;       (* an integer literal or counter as a number *)
  add : num -> num -> num;
  sub : num -> num -> num;
  mul : num -> num -> num;
  div : num -> num -> num;
  ltb : num -> num -> bool;
  leb : num -> num -> bool;
  min : num -> num -> num   (* Math.min *)
}.

(** ** IEEE-754 binary64, the numbers of JavaScript *)

Module F64.
Import Floats.SpecFloat.

Definition prec : Z := 53.
Definition emax : Z := 1024.

Definition number : Type := spec_float.

Definition NaN : number := S754_nan.
Definition Infinity : number := S754_infinity false.
Definition pos_zero : number := S754_zero false.

(** The number nearest to [m * 2^e] (ties to even). *)
Definition ldexp (m e : Z) : number := binary_normalize prec emax m e false.

(** The number nearest to the integer [z]. *)
Definition of_int (z : Z) : number := ldexp z 0.

Definition fadd : number -> number -> number := SFadd prec emax.
Definition fsub : number -> number -> number := SFsub prec emax.
Definition fmul : number -> number -> number := SFmul prec emax.
Definition fdiv : number -> number -> number := SFdiv prec emax.
Definition flt : number -> number -> bool := SFltb.
Definition fle : number -> number -> bool := SFleb.

(** The literal [0.1]: the binary64 number nearest to one tenth,
    0x1.999999999999ap-4. *)
Definition lit_0_1 : number := S754_finite false 7205759403792794 (-56).

Definition is_neg_zero (x : number) : bool :=
  match x with S754_zero true => true | _ => false end.

(** [Math.min(a, b)]: NaN if either argument is NaN, and -0 below +0. *)
Definition Math_min (a b : number) : number :=
  match SFcompare a b with
  | None => NaN
  | Some Lt => a
  | Some Gt => b
  | Some Eq => if is_neg_zero a then a else b
  end.

(** [Math.max(a, b)]: NaN if either argument is NaN, and +0 above -0. *)
Definition Math_max (a b : number) : number :=
  match SFcompare a b with
  | None => NaN
  | Some Lt => b
  | Some Gt => a
  | Some Eq => if is_neg_zero a then b else a
  end.

(** [a === b] on numbers: NaN equals nothing, and +0 equals -0. *)
Definition strict_equal (a b : number) : bool := SFeqb a b.

(** [ToNumber] of a property that may be absent: [undefined] is NaN. *)
Definition to_number (x : option number) : number :=
  match x with Some v => v | None => NaN end.

#[export] Instance arith : Arith := {|
  num := number;
  zero := pos_zero;
  one := of_int 1;
  tenth := lit_0_1;
  of_Z := of_int;
  add := fadd;
  sub := fsub;
  mul := fmul;
  div := fdiv;
  ltb := flt;
  leb := fle;
  min := Math_min
|}.
End F64.

(* ================================================================== *)
(** * 32-bit integer operators *)
(* ================================================================== *)

Module Int32.
Definition two32 : Z := 4294967296.

(** [x >>> 0]: the value modulo 2^32. *)
Definition to_uint32 (x : Z) : Z := x mod two32.

(** [x | 0]: the value modulo 2^32, read as a signed 32-bit integer. *)
Definition to_int32 (x : Z) : Z :=
  let u := to_uint32 x in
  if u <? 2147483648 then u else u - two32.

Definition xor (a b : Z) : Z := to_int32 (Z.lxor a b).
Definition or (a b : Z) : Z := to_int32 (Z.lor a b).

(** [a >>> n] for [0 <= n < 32]. *)
Definition shru (a n : Z) : Z := Z.shiftr (to_uint32 a) n.

(** [Math.imul(a, b)]. *)
Definition imul (a b : Z) : Z := to_int32 (a * b).
End Int32.

(* ================================================================== *)
(** * Tick engine and capability registry *)
(* ================================================================== *)

Module Engine.
Section Engine.
Context {A : Arith}.

Record Sim : Type := {
  power_generation : num;
  power_consumption : num;
  visibility_score : num
}.

(** A catalog entry, as far as the engine reads it. *)
Record Primitive : Type := {
  id : string;
  capabilities : list string;
  sim : Sim
}.

Record SectorState : Type := {
  power : num;
  visibility : num
}.

Record TickOutput : Type := {
  power_delta : num;
  power_consumed : num;
  light_level_delta : num;
  morale_delta : num;
  visibility_score_delta : num
}.

(** ** [createRng]: mulberry32 *)

(** The variable [s] captured by the closure that [createRng] returns. *)
Definition RngState : Type := Z.

Definition createRng (seed : Z) : RngState := Int32.to_int32 seed.

(** One call of the closure: the 32-bit draw, before the division by
    4294967296, and the new value of [s]. *)
Definition rng_draw (s : RngState) : Z * RngState :=
  let s := Int32.to_int32 (s + 1831565813) in
  let t := Int32.imul (Int32.xor s (Int32.shru s 15)) (Int32.or 1 s) in
  let t := Int32.xor (t + Int32.imul (Int32.xor t (Int32.shru t 7))
                                     (Int32.or 61 t)) t in
  (Int32.to_uint32 (Int32.xor t (Int32.shru t 14)), s).

Definition rng (s : RngState) : num * RngState :=
  let (u, s') := rng_draw s in (div (of_Z u) (of_Z Int32.two32), s').

(** ** [CAPABILITIES] *)

(** What a capability hook returns: the entries of an object literal,
    in [Object.entries] order. *)
Definition CapResult : Type := list (string * num).

(** A hook receives the generator and may draw from it, so it returns the
    generator state it leaves behind. *)
Record Capability : Type := {
  description : string;
  cap_tick : Primitive -> SectorState -> RngState -> CapResult * RngState
}.

Definition POWER_GENERATION : Capability := {|
  description := "Generates power for the sector grid.";
  cap_tick := fun primitive _ r =>
    ([("power_delta", power_generation (sim primitive))], r)
|}.

Definition HABITATION : Capability := {|
  description := "Provides habitable space for crew.";
  cap_tick := fun _ _ r => ([], r)
|}.

Definition LIGHTING : Capability := {|
  description := "Emits light within the local area.";
  cap_tick := fun primitive _ r =>
    ([("light_level_delta",
       if ltb zero (power_consumption (sim primitive)) then one else zero)],
     r)
|}.

Definition AESTHETIC : Capability := {|
  description := "Provides a decorative or morale benefit.";
  cap_tick := fun _ _ r => ([("morale_delta", tenth)], r)
|}.

Definition WAYFINDING : Capability := {|
  description :=
    "Contributes to local visibility score used by drone traffic heuristics.";
  cap_tick := fun primitive _ r =>
    ([("visibility_score_delta", visibility_score (sim primitive))], r)
|}.

Definition STORAGE : Capability := {|
  description := "Provides inventory storage capacity.";
  cap_tick := fun _ _ r => ([], r)
|}.

Definition TRANSPORT : Capability := {|
  description := "Enables movement of entities between sectors.";
  cap_tick := fun _ _ r => ([], r)
|}.

(** The outcome of the property read [CAPABILITIES[capName]] on the
    object literal: an own property, a member inherited from
    [Object.prototype] (truthy, and without a [tick] method), or
    [undefined]. *)
Inductive Lookup : Type :=
| Own (cap : Capability)
| Inherited
| Undefined.

Definition object_prototype_keys : list string :=
  [ "constructor"; "hasOwnProperty"; "isPrototypeOf";
    "propertyIsEnumerable"; "toLocaleString"; "toString"; "valueOf";
    "__proto__"; "__defineGetter__"; "__defineSetter__";
    "__lookupGetter__"; "__lookupSetter__" ].

Definition in_object_prototype (name : string) : bool :=
  existsb (String.eqb name) object_prototype_keys.

Definition CAPABILITIES (capName : string) : Lookup :=
  if String.eqb capName "POWER_GENERATION" then Own POWER_GENERATION
  else if String.eqb capName "HABITATION" then Own HABITATION
  else if String.eqb capName "LIGHTING" then Own LIGHTING
  else if String.eqb capName "AESTHETIC" then Own AESTHETIC
  else if String.eqb capName "WAYFINDING" then Own WAYFINDING
  else if String.eqb capName "STORAGE" then Own STORAGE
  else if String.eqb capName "TRANSPORT" then Own TRANSPORT
  else if in_object_prototype capName then Inherited
  else Undefined.

(** The closed set of capability names. *)
Definition registry_names : list string :=
  [ "POWER_GENERATION"; "HABITATION"; "LIGHTING"; "AESTHETIC";
    "WAYFINDING"; "STORAGE"; "TRANSPORT" ].

Definition registered (capName : string) : bool :=
  existsb (String.eqb capName) registry_names.

(** ** [tick] *)

(** The variables local to one call of [tick]. *)
Record Locals : Type := {
  rng_state : RngState;
  output : TickOutput
}.

Definition zero_output : TickOutput := {|
  power_delta := zero;
  power_consumed := zero;
  light_level_delta := zero;
  morale_delta := zero;
  visibility_score_delta := zero
|}.

Definition consume (c : num) (o : TickOutput) : TickOutput := {|
  power_delta := power_delta o;
  power_consumed := add (power_consumed o) c;
  light_level_delta := light_level_delta o;
  morale_delta := morale_delta o;
  visibility_score_delta := visibility_score_delta o
|}.

(** [if (key in output) output[key] += value].  A key that names none of
    the five fields is skipped; the hooks of the registry produce no key
    but these. *)
Definition merge_entry (o : TickOutput) (entry : string * num) : TickOutput :=
  let (key, value) := entry in
  if String.eqb key "power_delta" then
    {| power_delta := add (power_delta o) value;
       power_consumed := power_consumed o;
       light_level_delta := light_level_delta o;
       morale_delta := morale_delta o;
       visibility_score_delta := visibility_score_delta o |}
  else if String.eqb key "power_consumed" then
    {| power_delta := power_delta o;
       power_consumed := add (power_consumed o) value;
       light_level_delta := light_level_delta o;
       morale_delta := morale_delta o;
       visibility_score_delta := visibility_score_delta o |}
  else if String.eqb key "light_level_delta" then
    {| power_delta := power_delta o;
       power_consumed := power_consumed o;
       light_level_delta := add (light_level_delta o) value;
       morale_delta := morale_delta o;
       visibility_score_delta := visibility_score_delta o |}
  else if String.eqb key "morale_delta" then
    {| power_delta := power_delta o;
       power_consumed := power_consumed o;
       light_level_delta := light_level_delta o;
       morale_delta := add (morale_delta o) value;
       visibility_score_delta := visibility_score_delta o |}
  else if String.eqb key "visibility_score_delta" then
    {| power_delta := power_delta o;
       power_consumed := power_consumed o;
       light_level_delta := light_level_delta o;
       morale_delta := morale_delta o;
       visibility_score_delta := add (visibility_score_delta o) value |}
  else o.

Definition merge (result : CapResult) (o : TickOutput) : TickOutput :=
  fold_left merge_entry result o.

Local Open Scope js_scope.

(** The body of the inner loop, for one declared capability name. *)
Definition run_capability (primitive : Primitive) (sectorState : SectorState)
           (capName : string) : M Locals unit :=
  match CAPABILITIES capName with
  | Undefined => throw (Error ("Unknown capability: " ++ capName))
  | Inherited => throw (TypeError "cap.tick is not a function")
  | Own cap =>
      l <- get ;;
      let (result, r) := cap_tick cap primitive sectorState (rng_state l) in
      modify (fun _ => {| rng_state := r; output := merge result (output l) |})
  end.

(** The body of the outer loop, for one placed primitive. *)
Definition run_primitive (sectorState : SectorState) (primitive : Primitive)
  : M Locals unit :=
  modify (fun l => {| rng_state := rng_state l;
                      output := consume (power_consumption (sim primitive))
                                        (output l) |}) ;;
  for_of (capabilities primitive) (run_capability primitive sectorState).

Definition tick_loop (placedPrimitives : list Primitive)
           (sectorState : SectorState) : M Locals unit :=
  for_of placedPrimitives (run_primitive sectorState).

Definition tick (placedPrimitives : list Primitive)
           (sectorState : SectorState) (seed : Z) : Completion TickOutput :=
  match tick_loop placedPrimitives sectorState
          {| rng_state := createRng seed; output := zero_output |} with
  | (Return _, l) => Return (output l)
  | (Throw e, _) => Throw e
  end.

(** ** The accumulation in closed form *)

(** The entries the hook registered under [capName] returns. *)
Definition cap_entries (capName : string) (primitive : Primitive)
           (sectorState : SectorState) : CapResult :=
  match CAPABILITIES capName with
  | Own cap => fst (cap_tick cap primitive sectorState 0)
  | _ => []
  end.

(** All entries one placed primitive contributes, in merge order. *)
Definition contributions (primitive : Primitive) (sectorState : SectorState)
  : CapResult :=
  flat_map (fun capName => cap_entries capName primitive sectorState)
           (capabilities primitive).

Definition apply_primitive (sectorState : SectorState) (o : TickOutput)
           (primitive : Primitive) : TickOutput :=
  merge (contributions primitive sectorState)
        (consume (power_consumption (sim primitive)) o).

(** The first declared capability name, in the order the loops visit
    them, that is not in the registry. *)
Definition first_unregistered (placedPrimitives : list Primitive)
  : option string :=
  find (fun capName => negb (registered capName))
       (flat_map capabilities placedPrimitives).

(** The exception raised when that name is reached. *)
Definition unknown_capability_failure (capName : string) : JsError :=
  if in_object_prototype capName
  then TypeError "cap.tick is not a function"
  else Error ("Unknown capability: " ++ capName).
End Engine.
End Engine.

(* ================================================================== *)
(** * PlannerController *)
(* ================================================================== *)

Module Planner.
Import F64.

(** A structure of the blueprint.  Every property but [id] and [type]
    is present on some kinds of structure only; an absent one reads as
    [undefined]. *)
Record Structure : Type := {
  id : string;
  type : string;
  throughput : option number;
  rate : option number;
  from : option string;
  inputTypes : option (list string);
  outputTypes : option (list string);
  storedType : option string
}.

Record Zone : Type := {
  zone_id : string;
  structures : list Structure
}.

Record Connection : Type := {
  conn_from : string;
  conn_to : string;
  bandwidth : option number
}.

(** [bp.layout]. *)
Record Blueprint : Type := {
  layout_zones : list Zone;
  layout_connections : list Connection
}.

Record PlannerController : Type := {
  zones : JsMap.t (JsMap.t Structure);   (* zone id to its structuresById *)
  connections : list Connection
}.

Definition index_zone (zone : Zone) : JsMap.t Structure :=
  fold_left (fun m s => JsMap.set (id s) s m) (structures zone)
            (JsMap.empty Structure).

Definition _index (bp : Blueprint) : PlannerController := {|
  zones := fold_left (fun zs zone => JsMap.set (zone_id zone) (index_zone zone) zs)
                     (layout_zones bp) (JsMap.empty (JsMap.t Structure));
  connections := layout_connections bp
|}.

Module Result.
Record t : Type := { route : list string; throughput : number }.
End Result.

(** [zone ? [...zone.structuresById.values()].find(pred) : null]. *)
Definition find_in (zone : option (JsMap.t Structure))
           (pred : Structure -> bool) : option Structure :=
  match zone with
  | Some z => find pred (JsMap.values z)
  | None => None
  end.

(** [a === b] on values that are a string or [undefined]. *)
Definition strict_eq (a b : option string) : bool :=
  match a, b with
  | Some x, Some y => String.eqb x y
  | None, None => true
  | _, _ => false
  end.

Definition includes (xs : list string) (x : string) : bool :=
  existsb (String.eqb x) xs.

(** [xs.indexOf(x)]. *)
Fixpoint indexOf (xs : list string) (x : string) : Z :=
  match xs with
  | [] => -1
  | y :: rest =>
      if String.eqb y x then 0
      else let i := indexOf rest x in if i <? 0 then -1 else i + 1
  end.

Definition is_dock (s : Structure) : bool := String.eqb (type s) "dock".

Definition is_conveyor_from (dock : Structure) (s : Structure) : bool :=
  String.eqb (type s) "conveyor" && strict_eq (from s) (Some (id dock)).

Definition is_refinery_for (resourceType : string) (s : Structure) : bool :=
  String.eqb (type s) "refinery" &&
  match inputTypes s with
  | Some ins => includes ins resourceType
  | None => false
  end.

Definition is_store_of (outputType : option string) (s : Structure) : bool :=
  (String.eqb (type s) "silo" || String.eqb (type s) "vault") &&
  strict_eq (storedType s) outputType.

(** Step 4's output type for a refinery that was found; reading
    [.length] or [[0]] of an absent [outputTypes] raises a TypeError. *)
Definition refinery_output (refinery : Structure) (resourceType : string)
  : Completion (option string) :=
  match inputTypes refinery with
  | None =>
      Throw (TypeError "Cannot read properties of undefined (reading 'indexOf')")
  | Some ins =>
      let inputIdx := indexOf ins resourceType in
      if 0 <=? inputIdx then
        match outputTypes refinery with
        | None =>
            Throw (TypeError "Cannot read properties of undefined (reading 'length')")
        | Some outs =>
            if inputIdx <? Z.of_nat (List.length outs)
            then Return (nth_error outs (Z.to_nat inputIdx))
            else Return (nth_error outs 0)
        end
      else
        match outputTypes refinery with
        | None =>
            Throw (TypeError "Cannot read properties of undefined (reading '0')")
        | Some outs => Return (nth_error outs 0)
        end
  end.

Definition planRoute (this : PlannerController) (resourceType : string)
  : Completion Result.t :=
  let route : list string := [] in
  let throughput0 := Infinity in
(* 1. Find an intake dock *)
let intakeZone := JsMap.get "intake-zone" (zones this) in
match find_in intakeZone is_dock with
| None => Return {| Result.route := []; Result.throughput := pos_zero |}
| Some dock =>
    let route := (route ++ [id dock])%list in
    let throughput1 := Math_min throughput0 (to_number (throughput dock)) in
    (* 2. Find a conveyor from this dock *)
    let conveyor := find_in intakeZone (is_conveyor_from dock) in
    let route :=
      match conveyor with Some c => (route ++ [id c])%list | None => route end in
    let throughput2 :=
      match conveyor with
      | Some c => Math_min throughput1 (to_number (rate c))
      | None => throughput1
      end in
    (* 3. Find a refinery that accepts resourceType *)
    let processingZone := JsMap.get "processing-zone" (zones this) in
    let refinery := find_in processingZone (is_refinery_for resourceType) in
    let route :=
      match refinery with Some r => (route ++ [id r])%list | None => route end in
    (* 4. Find appropriate storage silo *)
    let storageZone := JsMap.get "storage-zone" (zones this) in
    let stored : Completion (list string) :=
      match storageZone with
      | None => Return route
      | Some sz =>
          let outputType :=
            match refinery with
            | Some r => refinery_output r resourceType
            | None => Return (Some resourceType)
            end in
          match outputType with
          | Throw e => Throw e
          | Return ot =>
              match find (is_store_of ot) (JsMap.values sz) with
              | Some silo => Return ((route ++ [id silo])%list)
              | None => Return route
              end
          end
      end in
    match stored with
    | Throw e => Throw e
    | Return route =>
        (* 5. Find an outbound dock *)
        let distZone := JsMap.get "distribution-zone" (zones this) in
        let outDock := find_in distZone is_dock in
        let route :=
          match outDock with Some d => (route ++ [id d])%list | None => route end in
        let throughput3 :=
          match outDock with
          | Some d => Math_min throughput2 (to_number (throughput d))
          | None => throughput2
          end in
        (* Clamp throughput by pipeline connections *)
        let throughput4 :=
          fold_left (fun t conn => Math_min t (to_number (bandwidth conn)))
                    (connections this) throughput3 in
        Return {| Result.route := route; Result.throughput := throughput4 |}
    end
end.

(** ** The clamping stages, named *)

Definition intake_dock (this : PlannerController) : option Structure :=
  find_in (JsMap.get "intake-zone" (zones this)) is_dock.

Definition intake_conveyor (this : PlannerController) (dock : Structure)
  : option Structure :=
  find_in (JsMap.get "intake-zone" (zones this)) (is_conveyor_from dock).

Definition outbound_dock (this : PlannerController) : option Structure :=
  find_in (JsMap.get "distribution-zone" (zones this)) is_dock.

(** [Math.min] of a start value and a list of clamps, left to right. *)
Definition clamp_all (start : number) (clamps : list number) : number :=
  fold_left Math_min clamps start.

Definition conveyor_clamp (this : PlannerController) (dock : Structure)
  : list number :=
  match intake_conveyor this dock with
  | Some c => [to_number (rate c)]
  | None => []
  end.

Definition outbound_clamp (this : PlannerController) : list number :=
  match outbound_dock this with
  | Some d => [to_number (throughput d)]
  | None => []
  end.

Definition bandwidth_clamps (this : PlannerController) : list number :=
  map (fun conn => to_number (bandwidth conn)) (connections this).

(** The throughput as the specification words it: from +infinity, the
    conveyor's rate, the distribution dock's throughput and every
    connection's bandwidth. *)
Definition stated_throughput (this : PlannerController) (dock : Structure)
  : number :=
  clamp_all Infinity
            (conveyor_clamp this dock ++ outbound_clamp this
               ++ bandwidth_clamps this)%list.

(** The same with the intake dock's own throughput as the first clamp. *)
Definition clamped_throughput (this : PlannerController) (dock : Structure)
  : number :=
  clamp_all Infinity
            (to_number (throughput dock) :: conveyor_clamp this dock
               ++ outbound_clamp this ++ bandwidth_clamps this)%list.

(** Every refinery of the processing zone declares its output types. *)
Definition refineries_declare_outputs (this : PlannerController) : bool :=
  match JsMap.get "processing-zone" (zones this) with
  | None => true
  | Some z =>
      forallb (fun s => negb (String.eqb (type s) "refinery") ||
                        match outputTypes s with Some _ => true | None => false end)
              (JsMap.values z)
  end.
End Planner.

(* ================================================================== *)
(** * StructureController *)
(* ================================================================== *)

Module Structures.
Inductive StructureState : Type :=
| PLANNED | BUILDING | OPERATIONAL | UPGRADING | DECOMMISSIONED.

(** The string each member of the frozen [StructureState] object holds. *)
Definition state_string (s : StructureState) : string :=
  match s with
  | PLANNED => "planned"
  | BUILDING => "building"
  | OPERATIONAL => "operational"
  | UPGRADING => "upgrading"
  | DECOMMISSIONED => "decommissioned"
  end.

Definition state_eqb (a b : StructureState) : bool :=
  String.eqb (state_string a) (state_string b).

(** A registered structure.  [tier] and [ticksRemaining] are JavaScript
    numbers. *)
Record Structure : Type := {
  state : StructureState;
  tier : F64.number;
  ticksRemaining : F64.number
}.

Record StructureController : Type := {
  structures : JsMap.t Structure
}.

(** [new StructureController()]. *)
Definition new : StructureController := {| structures := JsMap.empty Structure |}.

Definition set_state (v : StructureState) (s : Structure) : Structure :=
  {| state := v; tier := tier s; ticksRemaining := ticksRemaining s |}.

Definition set_tier (v : F64.number) (s : Structure) : Structure :=
  {| state := state s; tier := v; ticksRemaining := ticksRemaining s |}.

Definition set_ticksRemaining (v : F64.number) (s : Structure) : Structure :=
  {| state := state s; tier := tier s; ticksRemaining := v |}.

(** An assignment to a property of the object stored under [id]. *)
Definition assign (id : string) (f : Structure -> Structure)
  : M StructureController unit :=
  modify (fun this => {| structures := JsMap.update id f (structures this) |}).

Local Open Scope js_scope.

Definition _get (id : string) : M StructureController Structure :=
  this <- get ;;
  match JsMap.get id (structures this) with
  | Some s => ret s
  | None => throw (Error ("Unknown structure: " ++ id))
  end.

(** [register(id, tier = 1)]: an omitted tier is [None]. *)
Definition register (id : string) (tier : option F64.number)
  : M StructureController unit :=
  let tier := match tier with Some t => t | None => F64.of_int 1 end in
  this <- get ;;
  if JsMap.has id (structures this)
  then throw (Error ("Structure " ++ id ++ " already registered"))
  else modify (fun this =>
         {| structures :=
              JsMap.set id {| state := PLANNED; tier := tier;
                              ticksRemaining := F64.pos_zero |}
                        (structures this) |}).

Definition startBuild (id : string) (ticks : F64.number) : M StructureController unit :=
  s <- _get id ;;
  if negb (state_eqb (state s) PLANNED)
  then throw (Error ("Cannot build " ++ id ++ ": current state is "
                       ++ state_string (state s)))
  else assign id (set_state BUILDING) ;;
       assign id (set_ticksRemaining ticks).

Definition startUpgrade (id : string) (ticks : F64.number) : M StructureController unit :=
  s <- _get id ;;
  if negb (state_eqb (state s) OPERATIONAL)
  then throw (Error ("Cannot upgrade " ++ id ++ ": current state is "
                       ++ state_string (state s)))
  else assign id (set_state UPGRADING) ;;
       assign id (set_ticksRemaining ticks).

Definition decommission (id : string) : M StructureController unit :=
  _ <- _get id ;;
  assign id (set_state DECOMMISSIONED) ;;
  assign id (set_ticksRemaining F64.pos_zero).

(** The body of the loop of [tick], on one structure:
    [s.ticksRemaining = Math.max(0, s.ticksRemaining - 1)], then the
    test [s.ticksRemaining === 0] and, for an upgrade, [s.tier += 1]. *)
Definition tick_structure (s : Structure) : Structure :=
  if state_eqb (state s) BUILDING || state_eqb (state s) UPGRADING then
    let s := set_ticksRemaining
               (F64.Math_max F64.pos_zero
                             (F64.fsub (ticksRemaining s) (F64.of_int 1))) s in
    if F64.strict_equal (ticksRemaining s) F64.pos_zero then
      let s := if state_eqb (state s) UPGRADING
               then set_tier (F64.fadd (tier s) (F64.of_int 1)) s else s in
      set_state OPERATIONAL s
    else s
  else s.

Definition tick : M StructureController unit :=
  modify (fun this =>
    {| structures := JsMap.map_values tick_structure (structures this) |}).

Definition getState (id : string) : M StructureController Structure :=
  _get id.

(** ** Calls in sequence *)

Inductive Call : Type :=
| CallRegister (id : string) (tier : option F64.number)
| CallStartBuild (id : string) (ticks : F64.number)
| CallStartUpgrade (id : string) (ticks : F64.number)
| CallDecommission (id : string)
| CallTick
| CallGetState (id : string).

Definition call (c : Call) : M StructureController unit :=
  match c with
  | CallRegister id tier => register id tier
  | CallStartBuild id ticks => startBuild id ticks
  | CallStartUpgrade id ticks => startUpgrade id ticks
  | CallDecommission id => decommission id
  | CallTick => tick
  | CallGetState id => _ <- getState id ;; ret tt
  end.

(** The controller after a caller made the calls in order, catching
    whatever each one threw. *)
Definition run (calls : list Call) (this : StructureController)
  : StructureController :=
  fold_left (fun this c => final (call c this)) calls this.

(** [n] calls of [tick()]. *)
Definition ticks (n : nat) (this : StructureController) : StructureController :=
  Nat.iter n (fun this => final (tick this)) this.

Definition lookup (id : string) (this : StructureController) : option Structure :=
  JsMap.get id (structures this).

(** Unfolding of a method down to the map operations. *)
Ltac unfold_method :=
  unfold register, startBuild, startUpgrade, decommission, getState, _get,
    assign, bind, get, throw, ret, modify, final, completion, JsMap.has;
  cbv beta iota.
End Structures.

(* ================================================================== *)
(** * SwarmController *)
(* ================================================================== *)

Module Swarm.
Section Swarm.
Context {A : Arith}.

Record Vec3 : Type := { x : num; y : num; z : num }.

(** A drone's position: an object with the three coordinates, or the
    empty object that [{ ...wp }] is when the route has no waypoint. *)
Inductive Position : Type :=
| At (v : Vec3)
| NoCoordinates.

Definition origin : Position := At {| x := zero; y := zero; z := zero |}.

Inductive DroneState : Type := idle | collecting | returning.

Definition state_string (s : DroneState) : string :=
  match s with
  | idle => "idle"
  | collecting => "collecting"
  | returning => "returning"
  end.

Definition state_eqb (a b : DroneState) : bool :=
  String.eqb (state_string a) (state_string b).

Record Drone : Type := {
  cargo : num;
  position : Position;
  state : DroneState;
  routeId : option string
}.

Record PatrolRoute : Type := {
  id : string;
  waypoints : list Vec3
}.

Record DroneSpec : Type := {
  cargoCapacity : num;
  returnThreshold : num
}.

(** The [swarm] section of the blueprint. *)
Record SwarmConfig : Type := {
  maxDrones : Z;
  droneSpec : DroneSpec;
  patrolRoutes : list PatrolRoute
}.

Record SwarmController : Type := {
  config : SwarmConfig;
  drones : JsMap.t Drone;
  _nextDroneId : nat
}.

(** [this.spec], an alias of [this.config.droneSpec]. *)
Definition spec (this : SwarmController) : DroneSpec := droneSpec (config this).

(** [new SwarmController(swarmConfig)]. *)
Definition new (swarmConfig : SwarmConfig) : SwarmController := {|
  config := swarmConfig;
  drones := JsMap.empty Drone;
  _nextDroneId := 0
|}.

Definition set_cargo (v : num) (d : Drone) : Drone :=
  {| cargo := v; position := position d; state := state d; routeId := routeId d |}.

Definition set_position (v : Position) (d : Drone) : Drone :=
  {| cargo := cargo d; position := v; state := state d; routeId := routeId d |}.

Definition set_state (v : DroneState) (d : Drone) : Drone :=
  {| cargo := cargo d; position := position d; state := v; routeId := routeId d |}.

Definition set_routeId (v : option string) (d : Drone) : Drone :=
  {| cargo := cargo d; position := position d; state := state d; routeId := v |}.

(** An assignment to a property of the drone stored under [droneId]. *)
Definition assign (droneId : string) (f : Drone -> Drone)
  : M SwarmController unit :=
  modify (fun this =>
    {| config := config this;
       drones := JsMap.update droneId f (drones this);
       _nextDroneId := _nextDroneId this |}).

(** The decimal digits of a counter, as a template literal prints it. *)
Definition decimal (n : nat) : string :=
  NilEmpty.string_of_uint (Nat.to_uint n).

Local Open Scope js_scope.

Definition _getDrone (id : string) : M SwarmController Drone :=
  this <- get ;;
  match JsMap.get id (drones this) with
  | Some d => ret d
  | None => throw (Error ("Unknown drone: " ++ id))
  end.

Definition spawnDrone : M SwarmController string :=
  this <- get ;;
  if maxDrones (config this) <=? JsMap.size (drones this)
  then throw (Error "Drone pool at capacity")
  else
    let id := "drone-" ++ decimal (_nextDroneId this) in
    modify (fun this =>
      {| config := config this;
         drones := drones this;
         _nextDroneId := S (_nextDroneId this) |}) ;;
    modify (fun this =>
      {| config := config this;
         drones := JsMap.set id {| cargo := zero; position := origin;
                                   state := idle; routeId := None |}
                             (drones this);
         _nextDroneId := _nextDroneId this |}) ;;
    ret id.

Definition dispatch (droneId routeId : string) : M SwarmController unit :=
  drone <- _getDrone droneId ;;
  this <- get ;;
  match find (fun r => String.eqb (id r) routeId) (patrolRoutes (config this)) with
  | None => throw (Error ("Unknown route: " ++ routeId))
  | Some route =>
      if negb (state_eqb (state drone) idle)
      then throw (Error ("Drone " ++ droneId ++ " is not idle (state: "
                           ++ state_string (state drone) ++ ")"))
      else
        assign droneId (set_state collecting) ;;
        assign droneId (set_routeId (Some routeId)) ;;
        (* Move to first waypoint *)
        let wp := nth_error (waypoints route) 0 in
        assign droneId (set_position
                          match wp with Some v => At v | None => NoCoordinates end)
  end.

Definition collect (droneId : string) (amount : num) : M SwarmController num :=
  drone <- _getDrone droneId ;;
  if negb (state_eqb (state drone) collecting)
  then throw (Error ("Drone " ++ droneId ++ " is not collecting"))
  else
    this <- get ;;
    let space := sub (cargoCapacity (spec this)) (cargo drone) in
    let actual := min amount space in
    let cargo' := add (cargo drone) actual in
    assign droneId (set_cargo cargo') ;;
    (if leb (sub one (returnThreshold (spec this)))
            (div cargo' (cargoCapacity (spec this)))
     then assign droneId (set_state returning)
     else ret tt) ;;
    ret actual.

Definition returnToHub (droneId : string) : M SwarmController num :=
  drone <- _getDrone droneId ;;
  if negb (state_eqb (state drone) returning) &&
     negb (state_eqb (state drone) collecting)
  then throw (Error ("Drone " ++ droneId ++ " cannot return (state: "
                       ++ state_string (state drone) ++ ")"))
  else
    let offloaded := cargo drone in
    assign droneId (set_cargo zero) ;;
    assign droneId (set_position origin) ;;
    assign droneId (set_state idle) ;;
    assign droneId (set_routeId None) ;;
    ret offloaded.

Definition getDroneStatus (droneId : string) : M SwarmController Drone :=
  _getDrone droneId.

Definition idleCount : M SwarmController Z :=
  this <- get ;;
  ret (Z.of_nat (List.length
         (filter (fun d => state_eqb (state d) idle) (JsMap.values (drones this))))).

(** ** Calls in sequence *)

Inductive Call : Type :=
| SpawnDrone
| Dispatch (droneId routeId : string)
| Collect (droneId : string) (amount : num)
| ReturnToHub (droneId : string).

(** What a call hands back to its caller. *)
Inductive Value : Type :=
| VString (s : string)
| VNumber (n : num)
| VUndefined.

Definition call (c : Call) : M SwarmController Value :=
  match c with
  | SpawnDrone => id <- spawnDrone ;; ret (VString id)
  | Dispatch droneId routeId => dispatch droneId routeId ;; ret VUndefined
  | Collect droneId amount => n <- collect droneId amount ;; ret (VNumber n)
  | ReturnToHub droneId => n <- returnToHub droneId ;; ret (VNumber n)
  end.

(** The controller after the calls, made in order by a caller that
    catches whatever each one throws, and the completion of each call. *)
Fixpoint run (calls : list Call) (this : SwarmController)
  : list (Completion Value) * SwarmController :=
  match calls with
  | [] => ([], this)
  | c :: rest =>
      let (r, this') := call c this in
      let (rs, this'') := run rest this' in
      (r :: rs, this'')
  end.

(** [0 <= cargo <= cargoCapacity] for every drone of the fleet. *)
Definition cargo_within (this : SwarmController) : Prop :=
  forall droneId d,
    JsMap.get droneId (drones this) = Some d ->
    leb zero (cargo d) = true /\ leb (cargo d) (cargoCapacity (spec this)) = true.

(** A number handed back by a call that completed is not negative. *)
Definition non_negative_result (r : Completion Value) : Prop :=
  match r with
  | Return (VNumber n) => leb zero n = true
  | _ => True
  end.

(** Every [collect] of the sequence is given an amount that is not
    negative. *)
Definition amounts_non_negative (calls : list Call) : Prop :=
  Forall (fun c => match c with
                   | Collect _ amount => leb zero amount = true
                   | _ => True
                   end) calls.
End Swarm.

(** Unfolding of a method down to the map operations. *)
Ltac unfold_method :=
  unfold spawnDrone, dispatch, collect, returnToHub, getDroneStatus, idleCount,
    _getDrone, assign, bind, get, throw, ret, modify, final, completion;
  cbv beta iota.
End Swarm.

(* ================================================================== *)
(** * Integers in binary64 *)
(* ================================================================== *)

(** A JavaScript number that holds an integer of magnitude below 2^53
    holds it exactly.  [IZ z] is that number, written out as sign,
    mantissa and exponent. *)
Module Integers.
Import Floats.SpecFloat F64.

(** [m] with [k] zero bits appended. *)
Definition shift (k : nat) (m : positive) : positive := Nat.iter k xO m.

(** The number of bits of [m]. *)
Definition bits (m : positive) : Z := Zpos (digits2_pos m).

(** The binary64 number of sign [s] and magnitude [m], for [m] of at
    most 53 bits: the mantissa is [m] shifted to 53 bits. *)
Definition normal (s : bool) (m : positive) : number :=
  S754_finite s (shift (Z.to_nat (53 - bits m)) m) (bits m - 53).

(** The binary64 number that is the integer [z], for [|z| < 2^53]. *)
Definition IZ (z : Z) : number :=
  match z with
  | Z0 => S754_zero false
  | Zpos m => normal false m
  | Zneg m => normal true m
  end.

Definition small (z : Z) : Prop := Z.abs z < 2 ^ 53.

(** The integer a number holds, if it holds one: [m * 2^e] for a
    mantissa [m] and an exponent [e], when that is whole. *)
Definition integer_value (x : number) : option Z :=
  match x with
  | S754_zero _ => Some 0
  | S754_finite s m e =>
      if 0 <=? e then Some (cond_Zopp s (Zpos m * 2 ^ e))
      else if Zpos m mod 2 ^ (- e) =? 0
           then Some (cond_Zopp s (Zpos m / 2 ^ (- e)))
           else None
  | _ => None
  end.


(** The value of [IZ z] is [z]: sign and magnitude. *)
Definition signed (s : bool) (m : positive) : Z := cond_Zopp s (Zpos m).
End Integers.

From Stdlib Require DecimalNat.

(* ================================================================== *)
(** * Structure lifecycle: the state machine *)
(* ================================================================== *)

Module Lifecycle.
Import Structures.

(** A countdown is running on the structure. *)
Definition in_progress (s : Structure) : bool :=
  state_eqb (state s) BUILDING || state_eqb (state s) UPGRADING.

(** The countdown after one more tick: [Math.max(0, t - 1)]. *)
Definition countdown (t : F64.number) : F64.number :=
  F64.Math_max F64.pos_zero (F64.fsub t (F64.of_int 1)).

(** The ids of the controller, in registration order. *)
Definition ids (this : StructureController) : list string :=
  map fst (structures this).

(** The id a call names; [tick()] names none. *)
Definition target (c : Call) : option string :=
  match c with
  | CallRegister id _ => Some id
  | CallStartBuild id _ => Some id
  | CallStartUpgrade id _ => Some id
  | CallDecommission id => Some id
  | CallTick => None
  | CallGetState id => Some id
  end.

(** The moves of one structure: the arrows of the lifecycle. *)
Inductive move : StructureState -> StructureState -> Prop :=
| move_build : move PLANNED BUILDING
| move_built : move BUILDING OPERATIONAL
| move_upgrade : move OPERATIONAL UPGRADING
| move_upgraded : move UPGRADING OPERATIONAL
| move_retire : forall s, move s DECOMMISSIONED.

(** Structures at rest have no ticks remaining. *)
Definition settled (this : StructureController) : Prop :=
  forall id s,
    lookup id this = Some s -> in_progress s = false ->
    ticksRemaining s = F64.pos_zero.

(** No structure has a negative countdown. *)
Definition countdowns_non_negative (this : StructureController) : Prop :=
  forall id s,
    lookup id this = Some s -> F64.fle F64.pos_zero (ticksRemaining s) = true.

(** Every countdown the calls start is given a duration that is not
    negative. *)
Definition durations_non_negative (calls : list Call) : Prop :=
  Forall (fun c => match c with
                   | CallStartBuild _ ticks => F64.fle F64.pos_zero ticks = true
                   | CallStartUpgrade _ ticks => F64.fle F64.pos_zero ticks = true
                   | _ => True
                   end) calls.

(** What one call does to the entry of one id. *)
Definition after (c : Call) (id : string) (old : option Structure)
  : option Structure :=
  match c with
  | CallRegister id' t =>
      if String.eqb id' id then
        match old with
        | Some s => Some s
        | None => Some {| state := PLANNED;
                          tier := match t with
                                  | Some t => t
                                  | None => F64.of_int 1
                                  end;
                          ticksRemaining := F64.pos_zero |}
        end
      else old
  | CallStartBuild id' n =>
      if String.eqb id' id then
        option_map (fun s => if state_eqb (state s) PLANNED
                             then {| state := BUILDING; tier := tier s;
                                     ticksRemaining := n |}
                             else s) old
      else old
  | CallStartUpgrade id' n =>
      if String.eqb id' id then
        option_map (fun s => if state_eqb (state s) OPERATIONAL
                             then {| state := UPGRADING; tier := tier s;
                                     ticksRemaining := n |}
                             else s) old
      else old
  | CallDecommission id' =>
      if String.eqb id' id then
        option_map (fun s => {| state := DECOMMISSIONED; tier := tier s;
                                ticksRemaining := F64.pos_zero |}) old
      else old
  | CallTick => option_map tick_structure old
  | CallGetState _ => old
  end.

(** The calls of [startBuild] on [id] that return, when [calls] are made
    in order on [this]. *)
Fixpoint accepted_builds (id : string) (calls : list Call)
         (this : StructureController) : nat :=
  match calls with
  | [] => 0%nat
  | c :: rest =>
      ((match c, completion (call c this) with
        | CallStartBuild id' _, Return _ => if String.eqb id' id then 1 else 0
        | _, _ => 0
        end) + accepted_builds id rest (final (call c this)))%nat
  end.
End Lifecycle.

(* ================================================================== *)
(** * The fleet of a swarm controller *)
(* ================================================================== *)

Module Fleet.
Import Swarm.
Section Fleet.
Context {A : Arith}.

(** The id that [spawnDrone] gives to drone number [n]. *)
Definition drone_name (n : nat) : string := "drone-" ++ decimal n.

(** The drone object as [spawnDrone] creates it and [returnToHub] leaves
    it. *)
Definition docked : Drone :=
  {| cargo := zero; position := origin; state := idle; routeId := None |}.

(** Where [dispatch] puts a drone sent along [route]. *)
Definition first_waypoint (route : PatrolRoute) : Position :=
  match nth_error (waypoints route) 0 with
  | Some v => At v
  | None => NoCoordinates
  end.

(** The ids of the fleet, in the order the drones were spawned. *)
Definition ids (this : SwarmController) : list string :=
  map fst (drones this).

(** The controller that [calls] lead to, from a new one on [cfg]. *)
Definition reach (cfg : SwarmConfig) (calls : list Call) : SwarmController :=
  snd (run calls (new cfg)).

(** The drone a call names; [spawnDrone()] names none. *)
Definition target (c : Call) : option string :=
  match c with
  | SpawnDrone => None
  | Dispatch droneId _ => Some droneId
  | Collect droneId _ => Some droneId
  | ReturnToHub droneId => Some droneId
  end.

(** A drone is where its state says: an idle drone is docked and empty;
    a drone that is out carries the id of a configured route and is at
    the first waypoint of that route. *)
Definition placed (cfg : SwarmConfig) (d : Drone) : Prop :=
  match state d with
  | idle => d = docked
  | _ =>
      exists route,
        routeId d = Some (id route) /\
        find (fun r => String.eqb (id r) (id route)) (patrolRoutes cfg)
          = Some route /\
        position d = first_waypoint route
  end.


(** The amounts that the calls of [collect] on [droneId] returned, when
    [calls] are made in order on [this]. *)
Fixpoint collected (droneId : string) (calls : list Call)
         (this : SwarmController) : list num :=
  match calls with
  | [] => []
  | c :: rest =>
      (match c, completion (call c this) with
       | Collect k _, Return (VNumber n) =>
           if String.eqb k droneId then [n] else []
       | _, _ => []
       end ++ collected droneId rest (final (call c this)))%list
  end.

(** The drones carry the names of the counter values used so far, in
    order. *)
Definition numbered (this : SwarmController) : Prop :=
  ids this = map drone_name (seq 0 (_nextDroneId this)).

(** The invariant of a controller built on [cfg]. *)
Definition well_formed (cfg : SwarmConfig) (this : SwarmController) : Prop :=
  config this = cfg /\
  numbered this /\
  forall droneId d, JsMap.get droneId (drones this) = Some d -> placed cfg d.
End Fleet.
End Fleet.

(* ================================================================== *)
(** * The tick engine: what each output field is made of *)
(* ================================================================== *)

Module Ledger.
Import Engine.
Section Ledger.
Context {A : Arith}.

(** The capabilities whose hook returns the empty object. *)
Definition inert (capName : string) : bool :=
  String.eqb capName "HABITATION" || String.eqb capName "STORAGE"
  || String.eqb capName "TRANSPORT".

(** The primitive without its declarations of inert capabilities. *)
Definition without_inert (p : Primitive) : Primitive :=
  {| id := id p;
     capabilities := filter (fun n => negb (inert n)) (capabilities p);
     sim := sim p |}.

(** The placed primitives that declare [capName], in visiting order,
    once for every time they declare it. *)
Definition declarations (capName : string) (placedPrimitives : list Primitive)
  : list Primitive :=
  flat_map (fun p => map (fun _ => p)
                         (filter (fun n => String.eqb n capName)
                                 (capabilities p)))
           placedPrimitives.

(** The values a hook result holds under [key]. *)
Definition entries_of (key : string) (result : CapResult) : list num :=
  map snd (filter (fun e => String.eqb (fst e) key) result).

(** The terms added, from zero and in order, into one output field. *)
Definition total (terms : list num) : num := fold_left add terms zero.

(** The generator state after [n] calls of the closure. *)
Fixpoint advance (n : nat) (s : RngState) : RngState :=
  match n with
  | O => s
  | S n => advance n (snd (rng_draw s))
  end.
End Ledger.
End Ledger.

(* ================================================================== *)
(** * The planner: the blueprint behind the index *)
(* ================================================================== *)

Module Route.
Import Floats.SpecFloat F64 Planner.

(** The id a stage adds to the route, when the stage was found. *)
Definition stage (s : option Structure) : list string :=
  match s with
  | Some s => [id s]
  | None => []
  end.

(** [i] is the id of a structure of the blueprint. *)
Definition in_blueprint (bp : Blueprint) (i : string) : Prop :=
  exists z s, In z (layout_zones bp) /\ In s (structures z) /\ id s = i.

(** The last zone of the blueprint that carries the id [zid]. *)
Definition last_zone (bp : Blueprint) (zid : string) : option Zone :=
  find (fun z => String.eqb (zone_id z) zid) (rev (layout_zones bp)).

(** The last structure of the zone that carries the id [sid]. *)
Definition last_structure (z : Zone) (sid : string) : option Structure :=
  find (fun s => String.eqb (id s) sid) (rev (structures z)).

(** All the clamps of [planRoute], in the order it applies them. *)
Definition clamps (this : PlannerController) (dock : Structure) : list number :=
  (to_number (throughput dock) :: conveyor_clamp this dock
     ++ outbound_clamp this ++ bandwidth_clamps this)%list.

(** The exception of step 4 for a refinery without [outputTypes]. *)
Definition missing_outputTypes : JsError :=
  TypeError "Cannot read properties of undefined (reading 'length')".

(** The place of a number in the order of [<=]: its class (the
    infinities outermost, the zeros in the middle), then exponent and
    mantissa, both counted downwards for a negative number. *)
Definition key (x : number) : Z * Z * Z :=
  match x with
  | S754_zero _ => (0, 0, 0)
  | S754_infinity false => (2, 0, 0)
  | S754_infinity true => (-2, 0, 0)
  | S754_nan => (0, 0, 0)
  | S754_finite false m e => (1, e, Z.pos m)
  | S754_finite true m e => (-1, - e, Z.neg m)
  end.

Definition key_compare (k1 k2 : Z * Z * Z) : comparison :=
  let '(a1, b1, c1) := k1 in
  let '(a2, b2, c2) := k2 in
  match a1 ?= a2 with
  | Eq => match b1 ?= b2 with
          | Eq => c1 ?= c2
          | r => r
          end
  | r => r
  end.
End Route.

(* ================================================================== *)
(** * PlannerController: storage capacity *)
(* ================================================================== *)

Module Storage.
Import Floats.SpecFloat F64.

(** A structure of the blueprint, as far as [totalStorageCapacity] reads
    it: [maxUnits] is a number or absent. *)
Record Structure : Type := {
  id : string;
  maxUnits : option number
}.

Record Zone : Type := {
  zone_id : string;
  structures : list Structure
}.

Record PlannerController : Type := {
  zones : JsMap.t (JsMap.t Structure)   (* zone id to its structuresById *)
}.

Definition index_zone (zone : Zone) : JsMap.t Structure :=
  fold_left (fun m s => JsMap.set (id s) s m) (structures zone)
            (JsMap.empty Structure).

(** [_index], on the zones of [bp.layout]. *)
Definition _index (layout_zones : list Zone) : PlannerController := {|
  zones := fold_left (fun zs zone => JsMap.set (zone_id zone) (index_zone zone) zs)
                     layout_zones (JsMap.empty (JsMap.t Structure))
|}.

(** [if (x)] on a number or [undefined]: zero of either sign, NaN and
    [undefined] are falsy. *)
Definition truthy (x : option number) : bool :=
  match x with
  | Some (S754_zero _) => false
  | Some S754_nan => false
  | Some _ => true
  | None => false
  end.

Definition totalStorageCapacity (this : PlannerController) : number :=
  match JsMap.get "storage-zone" (zones this) with
  | None => pos_zero
  | Some storageZone =>
      fold_left (fun total s =>
                   if truthy (maxUnits s)
                   then fadd total (to_number (maxUnits s))
                   else total)
                (JsMap.values storageZone) pos_zero
  end.

(** The last zone of the layout that carries the id [zid]. *)
Definition last_zone (layout_zones : list Zone) (zid : string) : option Zone :=
  find (fun z => String.eqb (zone_id z) zid) (rev layout_zones).

(** The capacities that count: the numbers other than zero and NaN. *)
Definition capacities (ss : list Structure) : list number :=
  map (fun s => to_number (maxUnits s))
      (filter (fun s => truthy (maxUnits s)) ss).
End Storage.

(* ================================================================== *)
(** * The tick engine on whole-number readings *)
(* ================================================================== *)

(** Catalog entries whose [sim] block holds integers, as the numbers
    JavaScript computes with: every addition the engine makes on them is
    exact as long as the running totals stay below 2^53. *)
Module Whole.
Import Engine Ledger.

Record Entry : Type := {
  name : string;
  declared : list string;
  generation : Z;
  consumption : Z;
  score : Z
}.

(** The entry as the engine receives it. *)
Definition primitive (e : Entry) : Primitive (A := F64.arith) := {|
  id := name e;
  capabilities := declared e;
  sim := {| power_generation := (F64.of_int (generation e) : @num F64.arith);
            power_consumption := F64.of_int (consumption e);
            visibility_score := F64.of_int (score e) |}
|}.

(** How many times the entry declares [capName]. *)
Definition count (capName : string) (e : Entry) : nat :=
  List.length (filter (fun n => String.eqb n capName) (declared e)).

Definition sum (f : Entry -> Z) (es : list Entry) : Z :=
  fold_right (fun e acc => f e + acc) 0 es.

(** The totals of the five fields, as integers; [decorations] counts
    the contributions of 0.1 to the morale. *)
Definition generated (es : list Entry) : Z :=
  sum (fun e => Z.of_nat (count "POWER_GENERATION" e) * generation e) es.

Definition consumed (es : list Entry) : Z := sum consumption es.

Definition lit (es : list Entry) : Z :=
  sum (fun e => Z.of_nat (count "LIGHTING" e)
                * (if 0 <? consumption e then 1 else 0)) es.

Definition decorations (es : list Entry) : nat :=
  Z.to_nat (sum (fun e => Z.of_nat (count "AESTHETIC" e)) es).

Definition seen (es : list Entry) : Z :=
  sum (fun e => Z.of_nat (count "WAYFINDING" e) * score e) es.

(** A bound on what one entry can add to the magnitude of any field:
    each of its declarations, and the entry itself, adds at most one of
    its readings. *)
Definition reading (e : Entry) : Z :=
  1 + Z.abs (generation e) + Z.abs (consumption e) + Z.abs (score e).

Definition weight (e : Entry) : Z :=
  (1 + Z.of_nat (List.length (declared e))) * reading e.

Definition magnitude (es : list Entry) : Z := sum weight es.

(** The terms the declarations of [capName] add to a field, in placing
    order, when each adds [f] of its entry. *)
Definition terms (capName : string) (f : Entry -> Z) (es : list Entry) : list Z :=
  flat_map (fun e => repeat (f e) (count capName e)) es.

Definition plain_sum (zs : list Z) : Z := fold_right Z.add 0 zs.

Definition abs_sum (zs : list Z) : Z :=
  fold_right (fun z acc => Z.abs z + acc) 0 zs.

(** The output of the engine on entries whose magnitude stays below
    2^53: integer totals, and the morale as a run of additions of 0.1. *)
Definition output (es : list Entry) : TickOutput (A := F64.arith) := {|
  power_delta := (F64.of_int (generated es) : @num F64.arith);
  power_consumed := F64.of_int (consumed es);
  light_level_delta := F64.of_int (lit es);
  morale_delta := total (repeat (@tenth F64.arith) (decorations es));
  visibility_score_delta := F64.of_int (seen es)
|}.
End Whole.

(* ================================================================== *)
(** * The swarm on whole-number loads *)
(* ================================================================== *)

(** Runs of the swarm controller in which the capacity of a hold and
    every amount offered to [collect] are integers, as the numbers
    JavaScript computes with. *)
Module Holds.
Import Swarm.

(** Every [collect] of the sequence is given a whole amount [a] with
    [0 <= a < 2^53]. *)
Definition whole_amounts (calls : list (Call (A := F64.arith))) : Prop :=
  Forall (fun c : Call (A := F64.arith) => match c with
                   | Collect _ amount =>
                       exists a : Z, 0 <= a < 2 ^ 53 /\ amount = F64.of_int a
                   | _ => True
                   end) calls.

(** Every drone holds a whole number of units between 0 and [cap]. *)
Definition whole_cargo (cap : Z) (this : SwarmController (A := F64.arith)) : Prop :=
  forall droneId d,
    JsMap.get droneId (drones this) = Some d ->
    exists g : Z, 0 <= g <= cap /\ cargo d = F64.of_int g.

(** The invariant of such a run: the controller is built on [cfg] and
    every hold is a whole number within the capacity [cap]. *)
Definition whole (cfg : SwarmConfig (A := F64.arith)) (cap : Z)
           (this : SwarmController (A := F64.arith)) : Prop :=
  config this = cfg /\ whole_cargo cap this.
End Holds.

(* ================================================================== *)
(** * Successive calls of [tick] in one process *)
(* ================================================================== *)

(** What one call of [tick] could leave behind for the next.  The
    arguments are read only, the [output] object is created by the call,
    and the registry is a constant of the module that no code assigns
    to; the generator is a closure over a variable [s] that every draw
    updates, and closures live on the heap of the process.  Here the
    heap is explicit: [createRng] allocates a closure on it, a hook is
    handed a reference to that closure, and a call of [tick] starts on
    whatever heap the calls before it have left. *)
Module Process.
Import Engine.
Section Process.
Context {A : Arith}.

(** The closures [createRng] has returned so far, each by the variable
    [s] it captured, oldest first. *)
Record Heap : Type := { closures : list RngState }.

(** A generator: the reference to its closure. *)
Definition Rng : Type := nat.

(** [createRng(seed)]: a new closure, with [s = seed | 0]. *)
Definition createRng_in (seed : Z) : M Heap Rng :=
  fun h => (Return (List.length (closures h)),
            {| closures := (closures h ++ [createRng seed])%list |}).

(** The variable a closure captured, read and assigned. *)
Definition read (rng : Rng) (h : Heap) : RngState := nth rng (closures h) 0.

Fixpoint write_nth (n : nat) (s : RngState) (l : list RngState)
  : list RngState :=
  match l, n with
  | [], _ => []
  | _ :: rest, O => s :: rest
  | x :: rest, S n => x :: write_nth n s rest
  end.

Definition write (rng : Rng) (s : RngState) (h : Heap) : Heap :=
  {| closures := write_nth rng s (closures h) |}.

(** The property read [CAPABILITIES[capName]] of the registry the module
    was loaded with; in the module as written it is
    [Engine.CAPABILITIES].  The loops of [tick] are the same whatever
    hooks the registry holds. *)
Variable registry : string -> Lookup.

(** The state of a call of [tick]: the heap, and its local [output]. *)
Record Frame : Type := { heap : Heap; out : TickOutput }.

Local Open Scope js_scope.

(** The body of the inner loop: the hook is called with the generator
    [rng], and whatever it draws is assigned to the captured
    variable. *)
Definition run_capability_in (rng : Rng) (primitive : Primitive)
           (sectorState : SectorState) (capName : string) : M Frame unit :=
  match registry capName with
  | Undefined => throw (Error ("Unknown capability: " ++ capName))
  | Inherited => throw (TypeError "cap.tick is not a function")
  | Own cap =>
      f <- get ;;
      let (result, s) :=
        cap_tick cap primitive sectorState (read rng (heap f)) in
      modify (fun _ => {| heap := write rng s (heap f);
                          out := merge result (out f) |})
  end.

Definition run_primitive_in (rng : Rng) (sectorState : SectorState)
           (primitive : Primitive) : M Frame unit :=
  modify (fun f => {| heap := heap f;
                      out := consume (power_consumption (sim primitive))
                                     (out f) |}) ;;
  for_of (capabilities primitive) (run_capability_in rng primitive sectorState).

(** [tick(placedPrimitives, sectorState, seed)], on the heap it finds. *)
Definition tick_in (placedPrimitives : list Primitive)
           (sectorState : SectorState) (seed : Z) : M Heap TickOutput :=
  fun h =>
    match createRng_in seed h with
    | (Return rng, h) =>
        match for_of placedPrimitives (run_primitive_in rng sectorState)
                {| heap := h; out := zero_output |} with
        | (Return _, f) => (Return (out f), heap f)
        | (Throw e, f) => (Throw e, heap f)
        end
    | (Throw e, h) => (Throw e, h)
    end.

(** The arguments of one call. *)
Record Args : Type := {
  placedPrimitives : list Primitive;
  sectorState : SectorState;
  seed : Z
}.

(** Calls made one after the other, by a caller that catches what each
    throws. *)
Fixpoint ticks_in (calls : list Args) (h : Heap)
  : list (Completion TickOutput) * Heap :=
  match calls with
  | [] => ([], h)
  | a :: rest =>
      let (r, h) := tick_in (placedPrimitives a) (sectorState a) (seed a) h in
      let (rs, h) := ticks_in rest h in
      (r :: rs, h)
  end.

(** The heap before any call. *)
Definition fresh : Heap := {| closures := [] |}.

(** The frame of a call that runs after others, and the frame of the
    same call alone: the closures [pre] of the others come first in the
    one, the closure of the call is the only one in the other, and the
    outputs agree. *)
Definition framed (pre : list RngState) (f1 f2 : Frame) : Prop :=
  closures (heap f1) = (pre ++ closures (heap f2))%list /\
  List.length (closures (heap f2)) = 1%nat /\
  out f1 = out f2.

(** The frame of a call on the empty heap and the local variables of
    [tick]: the one closure is the generator, and the outputs agree. *)
Definition alone (f : Frame) (l : Locals) : Prop :=
  closures (heap f) = [rng_state l] /\ out f = output l.
End Process.
End Process.

(* ================================================================== *)
(** * Concrete data *)
(* ================================================================== *)

(** The inputs on which the properties below are evaluated: numbers are
    binary64 throughout. *)
Module Fixtures.
Import F64.

Definition sectorState : Engine.SectorState :=
  {| Engine.power := of_int 100; Engine.visibility := of_int 0 |}.

(** A light strip in the shape of the catalog's [neon_light_strip_v2]:
    no generation, consumption 5, visibility 2. *)
Definition neon : Engine.Primitive := {|
  Engine.id := "neon_light_strip_v2";
  Engine.capabilities := ["AESTHETIC"; "LIGHTING"; "WAYFINDING"];
  Engine.sim := {| Engine.power_generation := of_int 0;
                   Engine.power_consumption := of_int 5;
                   Engine.visibility_score := of_int 2 |}
|}.

(** The same light strip, by its integer readings. *)
Definition strip : Whole.Entry := {|
  Whole.name := "neon_light_strip_v2";
  Whole.declared := ["AESTHETIC"; "LIGHTING"; "WAYFINDING"];
  Whole.generation := 0;
  Whole.consumption := 5;
  Whole.score := 2
|}.

(** A purely decorative primitive. *)
Definition statue : Engine.Primitive := {|
  Engine.id := "statue";
  Engine.capabilities := ["AESTHETIC"];
  Engine.sim := {| Engine.power_generation := of_int 0;
                   Engine.power_consumption := of_int 0;
                   Engine.visibility_score := of_int 0 |}
|}.

(** A heater that consumes a tenth of a unit and declares nothing. *)
Definition heater : Engine.Primitive := {|
  Engine.id := "heater";
  Engine.capabilities := [];
  Engine.sim := {| Engine.power_generation := of_int 0;
                   Engine.power_consumption := lit_0_1;
                   Engine.visibility_score := of_int 0 |}
|}.

(** A primitive of a catalog that does not match the registry. *)
Definition corrupt : Engine.Primitive := {|
  Engine.id := "corrupt";
  Engine.capabilities := ["LIGHTING"; "TELEPORT"];
  Engine.sim := {| Engine.power_generation := of_int 0;
                   Engine.power_consumption := of_int 5;
                   Engine.visibility_score := of_int 0 |}
|}.

(** A primitive whose one capability is named after a member of
    [Object.prototype]. *)
Definition relay : Engine.Primitive := {|
  Engine.id := "relay";
  Engine.capabilities := ["toString"];
  Engine.sim := {| Engine.power_generation := of_int 0;
                   Engine.power_consumption := of_int 1;
                   Engine.visibility_score := of_int 0 |}
|}.

(** A refinery hub: docks, a conveyor, a refinery, two stores and three
    pipeline connections.  The intake dock is the narrowest stage. *)
Definition intake_dock_1 : Planner.Structure := {|
  Planner.id := "intake-dock-1"; Planner.type := "dock";
  Planner.throughput := Some (of_int 60); Planner.rate := None;
  Planner.from := None; Planner.inputTypes := None;
  Planner.outputTypes := None; Planner.storedType := None
|}.

Definition conveyor_1 : Planner.Structure := {|
  Planner.id := "conveyor-1"; Planner.type := "conveyor";
  Planner.throughput := None; Planner.rate := Some (of_int 80);
  Planner.from := Some "intake-dock-1"; Planner.inputTypes := None;
  Planner.outputTypes := None; Planner.storedType := None
|}.

Definition refinery_primary : Planner.Structure := {|
  Planner.id := "refinery-primary"; Planner.type := "refinery";
  Planner.throughput := None; Planner.rate := None; Planner.from := None;
  Planner.inputTypes := Some ["raw-ore"; "crystal-shard"];
  Planner.outputTypes := Some ["refined-ore"; "crystal-dust"];
  Planner.storedType := None
|}.

Definition silo_refined : Planner.Structure := {|
  Planner.id := "silo-refined"; Planner.type := "silo";
  Planner.throughput := None; Planner.rate := None; Planner.from := None;
  Planner.inputTypes := None; Planner.outputTypes := None;
  Planner.storedType := Some "refined-ore"
|}.

Definition vault_crystal : Planner.Structure := {|
  Planner.id := "vault-crystal"; Planner.type := "vault";
  Planner.throughput := None; Planner.rate := None; Planner.from := None;
  Planner.inputTypes := None; Planner.outputTypes := None;
  Planner.storedType := Some "crystal-dust"
|}.

Definition outbound_dock_1 : Planner.Structure := {|
  Planner.id := "outbound-dock-1"; Planner.type := "dock";
  Planner.throughput := Some (of_int 90); Planner.rate := None;
  Planner.from := None; Planner.inputTypes := None;
  Planner.outputTypes := None; Planner.storedType := None
|}.

Definition connection (a b : string) (bw : Z) : Planner.Connection :=
  {| Planner.conn_from := a; Planner.conn_to := b;
     Planner.bandwidth := Some (of_int bw) |}.

Definition blueprint : Planner.Blueprint := {|
  Planner.layout_zones :=
    [ {| Planner.zone_id := "intake-zone";
         Planner.structures := [intake_dock_1; conveyor_1] |};
      {| Planner.zone_id := "processing-zone";
         Planner.structures := [refinery_primary] |};
      {| Planner.zone_id := "storage-zone";
         Planner.structures := [silo_refined; vault_crystal] |};
      {| Planner.zone_id := "distribution-zone";
         Planner.structures := [outbound_dock_1] |} ];
  Planner.layout_connections :=
    [ connection "intake-zone" "processing-zone" 100;
      connection "processing-zone" "storage-zone" 120;
      connection "storage-zone" "distribution-zone" 100 ]
|}.

(** The swarm section of the hub's blueprint: twelve drones of capacity
    50 that turn back with a tenth of the hold left, and two patrol
    routes. *)
Definition swarm : Swarm.SwarmConfig (A := F64.arith) := {|
  Swarm.maxDrones := 12;
  Swarm.droneSpec := {| Swarm.cargoCapacity := (of_int 50 : @num F64.arith);
                        Swarm.returnThreshold := lit_0_1 |};
  Swarm.patrolRoutes :=
    [ {| Swarm.id := "route-intake-sweep";
         Swarm.waypoints :=
           [ {| Swarm.x := (of_int (-50) : @num F64.arith);
                Swarm.y := of_int 0; Swarm.z := of_int 0 |};
             {| Swarm.x := (of_int (-50) : @num F64.arith);
                Swarm.y := of_int 40; Swarm.z := of_int 0 |} ] |};
      {| Swarm.id := "route-perimeter";
         Swarm.waypoints :=
           [ {| Swarm.x := (of_int 100 : @num F64.arith);
                Swarm.y := of_int 100; Swarm.z := of_int 0 |} ] |} ]
|}.

(** A swarm of small drones, of capacity 0.3. *)
Definition small_swarm : Swarm.SwarmConfig (A := F64.arith) := {|
  Swarm.maxDrones := 12;
  Swarm.droneSpec := {| Swarm.cargoCapacity :=
                          (fdiv (of_int 3) (of_int 10) : @num F64.arith);
                        Swarm.returnThreshold := lit_0_1 |};
  Swarm.patrolRoutes := Swarm.patrolRoutes swarm
|}.

(** The test [cargo / cargoCapacity >= 1 - returnThreshold] of [collect]
    for these drones, on a hold of [c] units. *)
Definition turns_back (c : Z) : bool :=
  leb (Arith := F64.arith)
      (sub one (Swarm.returnThreshold (Swarm.droneSpec swarm)))
      (div (of_Z c) (Swarm.cargoCapacity (Swarm.droneSpec swarm))).

(** A structure controller on which the primary refinery is planned. *)
Definition hub : Structures.StructureController :=
  final (Structures.register "refinery-primary" (Some (of_int 2)) Structures.new).
End Fixtures.

(* ================================================================== *)
(** * Concrete data, continued *)
(* ================================================================== *)

Module Samples.
Import F64.

(** A day at the hub: two structures registered, one built and upgraded,
    one retired. *)
Definition hub_calls : list Structures.Call :=
  [ Structures.CallRegister "refinery-primary" (Some (of_int 2));
    Structures.CallRegister "silo-refined" None;
    Structures.CallStartBuild "refinery-primary" (of_int 2);
    Structures.CallTick;
    Structures.CallDecommission "silo-refined";
    Structures.CallTick;
    Structures.CallStartUpgrade "refinery-primary" (of_int 1);
    Structures.CallStartBuild "silo-refined" (of_int 4) ].

(** An outpost without an intake zone, whose refinery declares no
    output types. *)
Definition outpost : Planner.Blueprint := {|
  Planner.layout_zones :=
    [ {| Planner.zone_id := "processing-zone";
         Planner.structures :=
           [ {| Planner.id := "refinery-field"; Planner.type := "refinery";
                Planner.throughput := None; Planner.rate := None;
                Planner.from := None;
                Planner.inputTypes := Some ["raw-ore"];
                Planner.outputTypes := None;
                Planner.storedType := None |} ] |};
      {| Planner.zone_id := "storage-zone";
         Planner.structures := [Fixtures.silo_refined] |} ];
  Planner.layout_connections := []
|}.

(** The hub with one more pipeline connection, of no stated
    bandwidth. *)
Definition unmetered : Planner.Blueprint := {|
  Planner.layout_zones := Planner.layout_zones Fixtures.blueprint;
  Planner.layout_connections :=
    (Planner.layout_connections Fixtures.blueprint
       ++ [ {| Planner.conn_from := "storage-zone";
               Planner.conn_to := "intake-zone";
               Planner.bandwidth := None |} ])%list
|}.

(** A generator, by its integer readings. *)
Definition reactor : Whole.Entry := {|
  Whole.name := "reactor";
  Whole.declared := ["POWER_GENERATION"; "WAYFINDING"];
  Whole.generation := 40;
  Whole.consumption := 1;
  Whole.score := 3
|}.

(** The storage zone of the hub, with the capacities of its stores and a
    rack that states none. *)
Definition stores : list Storage.Zone :=
  [ {| Storage.zone_id := "intake-zone";
       Storage.structures :=
         [ {| Storage.id := "intake-dock-1";
              Storage.maxUnits := Some (of_int 10) |} ] |};
    {| Storage.zone_id := "storage-zone";
       Storage.structures :=
         [ {| Storage.id := "silo-refined";
              Storage.maxUnits := Some (of_int 5000) |};
           {| Storage.id := "rack"; Storage.maxUnits := None |};
           {| Storage.id := "vault-crystal";
              Storage.maxUnits := Some (of_int 2000) |} ] |} ].

Definition storage_zone : Storage.Zone :=
  {| Storage.zone_id := "storage-zone";
     Storage.structures :=
       [ {| Storage.id := "silo-refined";
            Storage.maxUnits := Some (of_int 5000) |};
         {| Storage.id := "rack"; Storage.maxUnits := None |};
         {| Storage.id := "vault-crystal";
            Storage.maxUnits := Some (of_int 2000) |} ] |}.
End Samples.
(* ================================================================== *)
(** * Properties *)
(* ================================================================== *)

(** ** Binary64 rounds *)

Module F64Facts.
Import F64.

(** The literal [0.1] is the quotient of 1 by 10, correctly rounded. *)
Lemma lit_0_1_quotient : lit_0_1 = fdiv (of_int 1) (of_int 10).
Proof. reflexivity. Qed.

(** [1 - 0.1 === 0.9]. *)
Lemma one_minus_tenth : fsub (of_int 1) lit_0_1 = fdiv (of_int 9) (of_int 10).
Proof. reflexivity. Qed.

(** [0.1 + 0.2 === 0.30000000000000004], above the literal [0.3]. *)
Lemma tenth_plus_fifth :
  fadd lit_0_1 (fdiv (of_int 2) (of_int 10)) = ldexp 5404319552844596 (-54) /\
  fdiv (of_int 3) (of_int 10) = ldexp 5404319552844595 (-54).
Proof. split; reflexivity. Qed.

(** Addition in binary64 is not associative. *)
Lemma fadd_not_associative :
  fadd lit_0_1 (fadd lit_0_1 (fdiv (of_int 4) (of_int 10))) <>
  fadd (fadd lit_0_1 lit_0_1) (fdiv (of_int 4) (of_int 10)).
Proof. vm_compute. discriminate. Qed.

(** In binary64, adding a number above zero to +0 gives that number. *)
Lemma add_zero_positive (c : number) :
  flt pos_zero c = true -> fadd pos_zero c = c.
Proof.
  destruct c as [[|] | [|] | | [|] m e]; simpl; intros H;
    try discriminate H; reflexivity.
Qed.
End F64Facts.

(* ================================================================== *)
(** * Arithmetic on integers in binary64 is exact below 2^53 *)
(* ================================================================== *)

Module IntegerFacts.
Import Floats.SpecFloat F64 Integers.
Local Unset Implicit Arguments.

(** ** Shifts *)

Lemma shift_add (a b : nat) (m : positive) :
  shift (a + b) m = shift a (shift b m).
Proof. unfold shift. apply Nat.iter_add. Qed.

Lemma shift_value (k : nat) (m : positive) :
  Zpos (shift k m) = Zpos m * 2 ^ Z.of_nat k.
Proof.
  induction k as [| k IH].
  - cbn. lia.
  - change (shift (S k) m) with (xO (shift k m)).
    rewrite Pos2Z.inj_xO, IH, Nat2Z.inj_succ, Z.pow_succ_r by lia. lia.
Qed.

Lemma bits_shift (k : nat) (m : positive) :
  bits (shift k m) = bits m + Z.of_nat k.
Proof.
  unfold bits. induction k as [| k IH].
  - change (shift 0 m) with m. lia.
  - change (shift (S k) m) with (xO (shift k m)).
    cbn [digits2_pos]. rewrite Pos2Z.inj_succ, IH. lia.
Qed.

Lemma bits_pos (m : positive) : 1 <= bits m.
Proof. unfold bits. lia. Qed.

Lemma pos_iter_shift (d : positive) (m : positive) :
  Pos.iter xO m d = shift (Pos.to_nat d) m.
Proof. unfold shift. apply Pos2Nat.inj_iter. Qed.

(** ** The size of a number *)

Lemma bits_size (m : positive) : digits2_pos m = Pos.size m.
Proof. induction m; cbn; congruence. Qed.

Lemma bits_upper (m : positive) : Zpos m < 2 ^ bits m.
Proof.
  unfold bits. rewrite bits_size.
  pose proof (Pos.size_gt m) as H.
  apply Pos2Z.pos_lt_pos in H. rewrite Pos2Z.inj_pow in H. exact H.
Qed.

Lemma bits_lower (m : positive) : 2 ^ (bits m - 1) <= Zpos m.
Proof.
  unfold bits. rewrite bits_size.
  pose proof (Pos.size_le m) as H.
  apply Pos2Z.pos_le_pos in H. rewrite Pos2Z.inj_pow, (Pos2Z.inj_xO m) in H.
  replace (Zpos (Pos.size m)) with (Z.succ (Zpos (Pos.size m) - 1)) in H by lia.
  rewrite Z.pow_succ_r in H by lia. lia.
Qed.

Lemma bits_small (m : positive) : Zpos m < 2 ^ 53 <-> bits m <= 53.
Proof.
  split; intros H.
  - destruct (Z_le_gt_dec (bits m) 53) as [Hle | Hgt]; [exact Hle |].
    pose proof (bits_lower m) as Hl.
    assert (2 ^ 53 <= 2 ^ (bits m - 1)) by (apply Z.pow_le_mono_r; lia).
    lia.
  - pose proof (bits_upper m) as Hu.
    assert (2 ^ bits m <= 2 ^ 53) by (apply Z.pow_le_mono_r; lia).
    lia.
Qed.

Lemma bits_mono (a b : positive) : (a <= b)%positive -> bits a <= bits b.
Proof.
  intros Hab.
  destruct (Z_le_gt_dec (bits a) (bits b)) as [H | H]; [exact H |].
  pose proof (bits_lower a) as Hl. pose proof (bits_upper b) as Hu.
  assert (2 ^ bits b <= 2 ^ (bits a - 1))
    by (apply Z.pow_le_mono_r; pose proof (bits_pos b); lia).
  assert (Zpos a <= Zpos b) by exact Hab.
  lia.
Qed.

(** ** Rounding what needs no rounding *)

Lemma iter_pos_nat {T : Type} (f : T -> T) (p : positive) :
  forall x, iter_pos f p x = Nat.iter (Pos.to_nat p) f x.
Proof.
  induction p as [p IH | p IH |]; intros x; cbn [iter_pos].
  - rewrite !IH, Pos2Nat.inj_xI.
    change (S (2 * Pos.to_nat p))%nat with (S (Pos.to_nat p + (Pos.to_nat p + 0)))%nat.
    rewrite Nat.add_0_r, Nat.iter_succ_r, Nat.iter_add. reflexivity.
  - rewrite !IH, Pos2Nat.inj_xO.
    change (2 * Pos.to_nat p)%nat with (Pos.to_nat p + (Pos.to_nat p + 0))%nat.
    rewrite Nat.add_0_r, Nat.iter_add. reflexivity.
  - reflexivity.
Qed.

Lemma shr_1_shift (k : nat) (m : positive) :
  Nat.iter k shr_1
           {| shr_m := Zpos (shift k m); shr_r := false; shr_s := false |} =
  {| shr_m := Zpos m; shr_r := false; shr_s := false |}.
Proof.
  induction k as [| k IH]; [reflexivity |].
  rewrite Nat.iter_succ_r.
  change (shift (S k) m) with (xO (shift k m)). cbn [shr_1 orb]. exact IH.
Qed.

Lemma fexp_53 (e : Z) : -1074 <= e - 53 -> fexp prec emax e = e - 53.
Proof. unfold fexp, emin, prec, emax. lia. Qed.

Lemma shr_fexp_shift (m0 : positive) (t : nat) (E : Z) :
  bits m0 = 53 -> -1074 <= E + Z.of_nat t ->
  shr_fexp prec emax (Zpos (shift t m0)) E loc_Exact =
  ({| shr_m := Zpos m0; shr_r := false; shr_s := false |}, E + Z.of_nat t).
Proof.
  intros Hb HE. unfold shr_fexp.
  change (Zdigits2 (Zpos (shift t m0))) with (bits (shift t m0)).
  rewrite bits_shift, Hb, fexp_53 by lia.
  replace (53 + Z.of_nat t + E - 53 - E) with (Z.of_nat t) by lia.
  cbn [shr_record_of_loc]. unfold shr.
  destruct t as [| t].
  - change (shift 0 m0) with m0. cbn [Z.of_nat]. f_equal. lia.
  - cbn [Z.of_nat]. rewrite iter_pos_nat, SuccNat2Pos.id_succ, shr_1_shift.
    reflexivity.
Qed.

(** A mantissa of 53 bits followed by [t] zero bits rounds to itself. *)
Lemma round_aux_shift (s : bool) (m0 : positive) (t : nat) (E : Z) :
  bits m0 = 53 -> -1074 <= E + Z.of_nat t <= 971 ->
  binary_round_aux prec emax s (Zpos (shift t m0)) E loc_Exact =
  S754_finite s m0 (E + Z.of_nat t).
Proof.
  intros Hb HE. unfold binary_round_aux.
  rewrite (shr_fexp_shift m0 t E Hb) by lia.
  cbn [shr_m loc_of_shr_record round_nearest_even].
  assert (H0 := shr_fexp_shift m0 0 (E + Z.of_nat t) Hb).
  change (shift 0 m0) with m0 in H0. rewrite H0 by (cbn; lia).
  cbn [shr_m Z.of_nat]. rewrite Z.add_0_r.
  unfold emax, prec. destruct (Z.leb_spec (E + Z.of_nat t) (1024 - 53));
    [reflexivity | lia].
Qed.

(** An integer of at most 53 bits followed by [j] zero bits, scaled
    back by [2^-j], rounds to the integer. *)
Lemma binary_round_shift (s : bool) (m : positive) (j : nat) :
  bits m <= 53 ->
  binary_round prec emax s (shift j m) (- Z.of_nat j) = normal s m.
Proof.
  intros Hm. pose proof (bits_pos m) as Hp.
  unfold binary_round, normal.
  change (Zpos (digits2_pos (shift j m))) with (bits (shift j m)).
  rewrite bits_shift, fexp_53 by lia.
  replace (bits m + Z.of_nat j + - Z.of_nat j - 53) with (bits m - 53) by lia.
  set (k := Z.to_nat (53 - bits m)).
  assert (Hk : Z.of_nat k = 53 - bits m) by (unfold k; lia).
  assert (Hbk : bits (shift k m) = 53) by (rewrite bits_shift; lia).
  unfold shl_align.
  destruct (bits m - 53 - - Z.of_nat j) as [| q | q] eqn:Hq.
  - assert (j = k) by lia. subst j.
    assert (R := round_aux_shift s (shift k m) 0 (- Z.of_nat k) Hbk).
    change (shift 0 (shift k m)) with (shift k m) in R.
    rewrite R by lia. f_equal. lia.
  - assert (Hj : j = (Pos.to_nat q + k)%nat) by lia.
    rewrite Hj, shift_add.
    rewrite (round_aux_shift s (shift k m) (Pos.to_nat q) _ Hbk) by lia.
    f_equal. lia.
  - rewrite pos_iter_shift, <- shift_add.
    assert (Hj : (Pos.to_nat q + j)%nat = k) by lia.
    rewrite Hj.
    assert (R := round_aux_shift s (shift k m) 0 (bits m - 53) Hbk).
    change (shift 0 (shift k m)) with (shift k m) in R.
    rewrite R by lia. f_equal. lia.
Qed.

(** A small integer times [2^j], scaled back, normalizes to the
    integer. *)
Lemma normalize_shift (z : Z) (j : nat) :
  small z ->
  binary_normalize prec emax (z * 2 ^ Z.of_nat j) (- Z.of_nat j) false = IZ z.
Proof.
  unfold small. intros Hz. destruct z as [| m | m]; cbn [IZ].
  - reflexivity.
  - rewrite <- shift_value. cbn [binary_normalize].
    apply binary_round_shift, bits_small. lia.
  - change (Z.neg m) with (- Z.pos m).
    rewrite Z.mul_opp_l, <- shift_value. cbn [Z.opp binary_normalize].
    apply binary_round_shift, bits_small. lia.
Qed.

Lemma of_int_IZ (z : Z) : small z -> of_int z = IZ z.
Proof.
  intros Hz. unfold of_int, ldexp.
  rewrite <- (normalize_shift z 0 Hz). cbn [Z.of_nat Z.opp].
  rewrite Z.pow_0_r, Z.mul_1_r. reflexivity.
Qed.

(** ** Addition and subtraction *)

Lemma shl_align_fst (m : positive) (e ez : Z) :
  ez <= e -> fst (shl_align m e ez) = shift (Z.to_nat (e - ez)) m.
Proof.
  intros H. unfold shl_align.
  destruct (ez - e) as [| q | q] eqn:Hq; cbn [fst].
  - replace (e - ez) with 0 by lia. reflexivity.
  - lia.
  - rewrite pos_iter_shift. f_equal. lia.
Qed.

(** The aligned mantissa of [normal s m], as a signed integer. *)
Lemma aligned_value (s : bool) (m : positive) (ez : Z) :
  bits m <= 53 -> ez <= bits m - 53 ->
  cond_Zopp s (Zpos (fst (shl_align (shift (Z.to_nat (53 - bits m)) m)
                                    (bits m - 53) ez))) =
  signed s m * 2 ^ Z.of_nat (Z.to_nat (- ez)).
Proof.
  intros Hm Hez. rewrite shl_align_fst by lia.
  rewrite <- shift_add.
  replace (Z.to_nat (bits m - 53 - ez) + Z.to_nat (53 - bits m))%nat
    with (Z.to_nat (- ez)) by (pose proof (bits_pos m); lia).
  rewrite shift_value. unfold signed. destruct s; cbn [cond_Zopp]; lia.
Qed.

Lemma IZ_signed (s : bool) (m : positive) : IZ (signed s m) = normal s m.
Proof. destruct s; reflexivity. Qed.

Lemma fadd_IZ (a b : Z) :
  small a -> small b -> small (a + b) -> fadd (IZ a) (IZ b) = IZ (a + b).
Proof.
  intros Ha Hb Hab.
  assert (H0 : forall z, fadd (S754_zero false) (IZ z) = IZ z)
    by (intros [| m | m]; reflexivity).
  assert (H1 : forall z, fadd (IZ z) (S754_zero false) = IZ z)
    by (intros [| m | m]; reflexivity).
  assert (Hfin : forall sa ma sb mb,
             small (signed sa ma) -> small (signed sb mb) ->
             small (signed sa ma + signed sb mb) ->
             fadd (normal sa ma) (normal sb mb) =
             IZ (signed sa ma + signed sb mb)).
  { intros sa ma sb mb Hsa Hsb Hs.
    assert (Hma : bits ma <= 53)
      by (apply bits_small; unfold small, signed in Hsa; destruct sa;
          cbn [cond_Zopp] in Hsa; lia).
    assert (Hmb : bits mb <= 53)
      by (apply bits_small; unfold small, signed in Hsb; destruct sb;
          cbn [cond_Zopp] in Hsb; lia).
    unfold fadd, normal. cbn [SFadd].
    set (ez := Z.min (bits ma - 53) (bits mb - 53)).
    assert (Hez : ez <= 0) by (unfold ez; lia).
    rewrite (aligned_value sa ma ez Hma) by (unfold ez; lia).
    rewrite (aligned_value sb mb ez Hmb) by (unfold ez; lia).
    rewrite <- Z.mul_add_distr_r.
    rewrite <- (normalize_shift _ (Z.to_nat (- ez)) Hs).
    f_equal. clearbody ez. lia. }
  destruct a as [| ma | ma]; [rewrite Z.add_0_l; apply H0 | |];
    (destruct b as [| mb | mb]; [rewrite Z.add_0_r; apply H1 | |]).
  - apply (Hfin false ma false mb); assumption.
  - apply (Hfin false ma true mb); assumption.
  - apply (Hfin true ma false mb); assumption.
  - apply (Hfin true ma true mb); assumption.
Qed.

Lemma fsub_IZ (a b : Z) :
  small a -> small b -> small (a - b) -> fsub (IZ a) (IZ b) = IZ (a - b).
Proof.
  intros Ha Hb Hab.
  assert (H0 : forall z, fsub (S754_zero false) (IZ z) = IZ (- z)).
  { intros [| m | m]; reflexivity. }
  assert (H1 : forall z, fsub (IZ z) (S754_zero false) = IZ z)
    by (intros [| m | m]; reflexivity).
  assert (Hfin : forall sa ma sb mb,
             small (signed sa ma) -> small (signed sb mb) ->
             small (signed sa ma - signed sb mb) ->
             fsub (normal sa ma) (normal sb mb) =
             IZ (signed sa ma - signed sb mb)).
  { intros sa ma sb mb Hsa Hsb Hs.
    assert (Hma : bits ma <= 53)
      by (apply bits_small; unfold small, signed in Hsa; destruct sa;
          cbn [cond_Zopp] in Hsa; lia).
    assert (Hmb : bits mb <= 53)
      by (apply bits_small; unfold small, signed in Hsb; destruct sb;
          cbn [cond_Zopp] in Hsb; lia).
    unfold fsub, normal. cbn [SFsub].
    set (ez := Z.min (bits ma - 53) (bits mb - 53)).
    assert (Hez : ez <= 0) by (unfold ez; lia).
    rewrite (aligned_value sa ma ez Hma) by (unfold ez; lia).
    rewrite (aligned_value sb mb ez Hmb) by (unfold ez; lia).
    rewrite <- Z.mul_sub_distr_r.
    rewrite <- (normalize_shift _ (Z.to_nat (- ez)) Hs).
    f_equal. clearbody ez. lia. }
  destruct a as [| ma | ma]; [rewrite Z.sub_0_l; apply H0 | |];
    (destruct b as [| mb | mb]; [rewrite Z.sub_0_r; apply H1 | |]).
  - apply (Hfin false ma false mb); assumption.
  - apply (Hfin false ma true mb); assumption.
  - apply (Hfin true ma false mb); assumption.
  - apply (Hfin true ma true mb); assumption.
Qed.

(** ** Order *)

Lemma compare_shift (k : nat) (a b : positive) :
  Pos.compare (shift k a) (shift k b) = Pos.compare a b.
Proof.
  induction k as [| k IH]; [reflexivity |].
  change (shift (S k) a) with (xO (shift k a)).
  change (shift (S k) b) with (xO (shift k b)).
  rewrite <- IH. reflexivity.
Qed.

Lemma bits_lt (a b : positive) : bits a < bits b -> (a < b)%positive.
Proof.
  intros H. apply Pos.lt_nle. intros Hle.
  pose proof (bits_mono b a Hle). lia.
Qed.

(** Exponent first, then mantissa: the order of the magnitudes. *)
Lemma compare_magnitude (a b : positive) :
  match bits a - 53 ?= bits b - 53 with
  | Eq => Pos.compare_cont Eq (shift (Z.to_nat (53 - bits a)) a)
                              (shift (Z.to_nat (53 - bits b)) b)
  | Lt => Lt
  | Gt => Gt
  end = Pos.compare a b.
Proof.
  destruct (Z.compare_spec (bits a - 53) (bits b - 53)) as [H | H | H].
  - replace (bits b) with (bits a) by lia.
    apply (compare_shift _ a b).
  - symmetry. apply Pos.compare_lt_iff, bits_lt. lia.
  - symmetry. apply Pos.compare_gt_iff, bits_lt. lia.
Qed.

Lemma compare_IZ (a b : Z) :
  SFcompare (IZ a) (IZ b) = Some (a ?= b).
Proof.
  destruct a as [| ma | ma], b as [| mb | mb]; try reflexivity;
    unfold IZ, normal; cbn [SFcompare Z.compare]; f_equal.
  - apply compare_magnitude.
  - pose proof (compare_magnitude ma mb) as H.
    destruct (bits ma - 53 ?= bits mb - 53); rewrite <- H; reflexivity.
Qed.

Lemma Math_min_IZ (a b : Z) : Math_min (IZ a) (IZ b) = IZ (Z.min a b).
Proof.
  unfold Math_min, Z.min. rewrite compare_IZ.
  destruct (Z.compare_spec a b) as [H | H | H]; try reflexivity.
  subst b. destruct (is_neg_zero (IZ a)); reflexivity.
Qed.

Lemma Math_max_IZ (a b : Z) : Math_max (IZ a) (IZ b) = IZ (Z.max a b).
Proof.
  unfold Math_max, Z.max. rewrite compare_IZ.
  destruct (Z.compare_spec a b) as [H | H | H]; try reflexivity.
  subst b. destruct (is_neg_zero (IZ a)); reflexivity.
Qed.

Lemma fle_IZ (a b : Z) : fle (IZ a) (IZ b) = (a <=? b).
Proof.
  unfold fle, SFleb, Z.leb. rewrite compare_IZ.
  destruct (a ?= b); reflexivity.
Qed.

Lemma flt_IZ (a b : Z) : flt (IZ a) (IZ b) = (a <? b).
Proof.
  unfold flt, SFltb, Z.ltb. rewrite compare_IZ.
  destruct (a ?= b); reflexivity.
Qed.

Lemma strict_equal_IZ (a b : Z) : strict_equal (IZ a) (IZ b) = (a =? b).
Proof.
  unfold strict_equal, SFeqb. rewrite compare_IZ.
  destruct (Z.eqb_spec a b) as [-> | Hne].
  - rewrite Z.compare_refl. reflexivity.
  - destruct (a ?= b) eqn:E; try reflexivity.
    apply Z.compare_eq in E. contradiction.
Qed.

Lemma IZ_inj (a b : Z) : IZ a = IZ b -> a = b.
Proof.
  intros H. apply Z.compare_eq.
  pose proof (compare_IZ a b) as Hc. rewrite H in Hc.
  pose proof (compare_IZ b b) as Hb. rewrite Z.compare_refl in Hb.
  congruence.
Qed.

(** ** Multiplication *)

Lemma mul_shift (i k : nat) (a b : positive) :
  (shift i a * shift k b)%positive = shift (i + k) (a * b).
Proof.
  apply Pos2Z.inj. rewrite Pos2Z.inj_mul, !shift_value, Pos2Z.inj_mul.
  rewrite Nat2Z.inj_add, Z.pow_add_r by lia. ring.
Qed.

Lemma fmul_normal (sa sb : bool) (a b : positive) :
  Zpos (a * b) < 2 ^ 53 ->
  fmul (normal sa a) (normal sb b) = normal (xorb sa sb) (a * b).
Proof.
  intros Hab.
  assert (Hc : bits (a * b) <= 53) by (apply bits_small, Hab).
  assert (Hac : bits a <= bits (a * b)).
  { apply bits_mono. rewrite <- (Pos.mul_1_r a) at 1.
    apply Pos.mul_le_mono_l, Pos.le_1_l. }
  assert (Hbc : bits b <= bits (a * b)).
  { apply bits_mono. rewrite <- (Pos.mul_1_l b) at 1.
    apply Pos.mul_le_mono_r, Pos.le_1_l. }
  pose proof (bits_pos a). pose proof (bits_pos b).
  unfold fmul, normal. cbn [SFmul]. rewrite mul_shift.
  set (kc := Z.to_nat (53 - bits (a * b))).
  assert (Hbk : bits (shift kc (a * b)) = 53)
    by (rewrite bits_shift; unfold kc; lia).
  set (t := (Z.to_nat (53 - bits a) + Z.to_nat (53 - bits b) - kc)%nat).
  replace (Z.to_nat (53 - bits a) + Z.to_nat (53 - bits b))%nat
    with (t + kc)%nat by (unfold t, kc; lia).
  rewrite shift_add.
  rewrite (round_aux_shift _ (shift kc (a * b)) t _ Hbk)
    by (unfold t, kc; lia).
  f_equal. unfold t, kc. lia.
Qed.

Lemma fmul_IZ (a b : Z) :
  0 < a -> small (a * b) -> fmul (IZ a) (IZ b) = IZ (a * b).
Proof.
  unfold small. intros Ha Hab.
  destruct a as [| ma | ma]; [lia | | lia].
  destruct b as [| mb | mb]; [reflexivity | |];
    cbn [IZ Z.mul]; apply fmul_normal; cbn [Z.mul Z.abs] in Hab; exact Hab.
Qed.

(** ** Operations never make NaN out of numbers *)

Lemma shr_1_sign (mrs : shr_record) :
  0 <= shr_m mrs -> 0 <= shr_m (shr_1 mrs).
Proof.
  destruct mrs as [[| [p | p |] | p] r s]; cbn; lia.
Qed.

Lemma shr_sign (mrs : shr_record) (e n : Z) :
  0 <= shr_m mrs -> 0 <= shr_m (fst (shr mrs e n)).
Proof.
  intros H. unfold shr. destruct n as [| p | p]; cbn [fst]; try exact H.
  rewrite iter_pos_nat.
  induction (Pos.to_nat p) as [| k IH]; [exact H |].
  cbn [Nat.iter nat_rect]. apply shr_1_sign, IH.
Qed.

Lemma shr_fexp_sign (m e : Z) (l : location) :
  0 <= m -> 0 <= shr_m (fst (shr_fexp prec emax m e l)).
Proof.
  intros H. unfold shr_fexp. apply shr_sign.
  destruct l as [| []]; exact H.
Qed.

Lemma round_aux_number (s : bool) (m e : Z) (l : location) :
  0 <= m -> binary_round_aux prec emax s m e l <> NaN.
Proof.
  intros H. unfold binary_round_aux.
  pose proof (shr_fexp_sign m e l H) as H1.
  destruct (shr_fexp prec emax m e l) as [mrs1 e1]. cbn [fst] in H1.
  assert (H2 : 0 <= round_nearest_even (shr_m mrs1) (loc_of_shr_record mrs1)).
  { unfold round_nearest_even.
    destruct (loc_of_shr_record mrs1) as [| []]; try lia.
    destruct (Z.even (shr_m mrs1)); lia. }
  pose proof (shr_fexp_sign _ e1 loc_Exact H2) as H3.
  destruct (shr_fexp prec emax _ e1 loc_Exact) as [mrs2 e2]. cbn [fst] in H3.
  destruct (shr_m mrs2) as [| p | p]; [discriminate | | lia].
  destruct (e2 <=? emax - prec); discriminate.
Qed.

Lemma normalize_number (m e : Z) :
  binary_normalize prec emax m e false <> NaN.
Proof.
  destruct m as [| p | p]; cbn [binary_normalize]; [discriminate | |];
    unfold binary_round;
    destruct (shl_align _ _ _) as [mz ez]; apply round_aux_number; lia.
Qed.

(** A difference of two finite numbers or zeros is a number. *)
Lemma fsub_number (x y : number) :
  x <> NaN -> y <> NaN -> y <> S754_infinity false ->
  y <> S754_infinity true -> fsub x y <> NaN.
Proof.
  intros Hx Hy Hp Hn.
  destruct x as [sx | sx | | sx mx ex]; [| | contradiction Hx; reflexivity |];
    (destruct y as [sy | [|] | | sy my ey];
     [| contradiction Hn; reflexivity | contradiction Hp; reflexivity
      | contradiction Hy; reflexivity |]);
    unfold fsub; cbn [SFsub]; try discriminate.
  - destruct sx, sy; discriminate.
  - apply normalize_number.
Qed.

(** ** The same, for the numbers [of_int] makes *)

Lemma of_int_0 : of_int 0 = pos_zero.
Proof. reflexivity. Qed.

Lemma small_0 : small 0.
Proof. unfold small. cbn. lia. Qed.

Lemma small_1 : small 1.
Proof. unfold small. cbn. lia. Qed.

Lemma small_between (lo hi z : Z) : small lo -> small hi -> lo <= z <= hi -> small z.
Proof. unfold small. lia. Qed.

(** [of_int z] holds the integer [z]. *)
Lemma integer_value_IZ (z : Z) : small z -> integer_value (IZ z) = Some z.
Proof.
  unfold small. intros Hz.
  assert (H : forall s m, Zpos m < 2 ^ 53 ->
                          integer_value (normal s m) = Some (cond_Zopp s (Zpos m))).
  { intros s m Hm. apply bits_small in Hm. pose proof (bits_pos m) as Hb.
    unfold normal, integer_value.
    set (k := Z.to_nat (53 - bits m)).
    assert (Hk : bits m - 53 = - Z.of_nat k) by (unfold k; lia).
    rewrite Hk, shift_value.
    destruct (Z.leb_spec 0 (- Z.of_nat k)) as [H0 | H0].
    - assert (Hk0 : Z.of_nat k = 0) by lia. rewrite Hk0. cbn [Z.opp].
      rewrite Z.pow_0_r, !Z.mul_1_r. reflexivity.
    - rewrite Z.opp_involutive, Z.mod_mul by (apply Z.pow_nonzero; lia).
      cbn [Z.eqb]. rewrite Z.div_mul by (apply Z.pow_nonzero; lia).
      reflexivity. }
  destruct z as [| m | m]; [reflexivity | |]; cbn [IZ]; rewrite H;
    try reflexivity; cbn [Z.abs] in Hz; exact Hz.
Qed.

Lemma integer_value_int (z : Z) : small z -> integer_value (of_int z) = Some z.
Proof. intros Hz. rewrite of_int_IZ by assumption. apply integer_value_IZ, Hz. Qed.

Lemma fadd_int (a b : Z) :
  small a -> small b -> small (a + b) ->
  fadd (of_int a) (of_int b) = of_int (a + b).
Proof.
  intros Ha Hb Hs. rewrite !of_int_IZ by assumption. apply fadd_IZ; assumption.
Qed.

Lemma fsub_int (a b : Z) :
  small a -> small b -> small (a - b) ->
  fsub (of_int a) (of_int b) = of_int (a - b).
Proof.
  intros Ha Hb Hs. rewrite !of_int_IZ by assumption. apply fsub_IZ; assumption.
Qed.

Lemma fmul_int (a b : Z) :
  0 < a -> small a -> small b -> small (a * b) ->
  fmul (of_int a) (of_int b) = of_int (a * b).
Proof.
  intros H0 Ha Hb Hs. rewrite !of_int_IZ by assumption. apply fmul_IZ; assumption.
Qed.

Lemma fle_int (a b : Z) :
  small a -> small b -> fle (of_int a) (of_int b) = (a <=? b).
Proof. intros Ha Hb. rewrite !of_int_IZ by assumption. apply fle_IZ. Qed.

Lemma flt_int (a b : Z) :
  small a -> small b -> flt (of_int a) (of_int b) = (a <? b).
Proof. intros Ha Hb. rewrite !of_int_IZ by assumption. apply flt_IZ. Qed.

Lemma Math_min_int (a b : Z) :
  small a -> small b -> Math_min (of_int a) (of_int b) = of_int (Z.min a b).
Proof.
  intros Ha Hb. rewrite !of_int_IZ; try assumption; [apply Math_min_IZ |].
  unfold small in *. lia.
Qed.

Lemma Math_max_int (a b : Z) :
  small a -> small b -> Math_max (of_int a) (of_int b) = of_int (Z.max a b).
Proof.
  intros Ha Hb. rewrite !of_int_IZ; try assumption; [apply Math_max_IZ |].
  unfold small in *. lia.
Qed.

Lemma strict_equal_int (a b : Z) :
  small a -> small b -> strict_equal (of_int a) (of_int b) = (a =? b).
Proof. intros Ha Hb. rewrite !of_int_IZ by assumption. apply strict_equal_IZ. Qed.

Lemma of_int_inj (a b : Z) : small a -> small b -> of_int a = of_int b -> a = b.
Proof. intros Ha Hb. rewrite !of_int_IZ by assumption. apply IZ_inj. Qed.
End IntegerFacts.

(** ** Maps *)

Module JsMapFacts.
Section JsMapFacts.
Variable V : Type.
Implicit Types (m : JsMap.t V) (k : string).

Lemma get_update_same k f m :
  JsMap.get k (JsMap.update k f m) = option_map f (JsMap.get k m).
Proof.
  induction m as [| [k' v] m IH]; simpl; [reflexivity |].
  destruct (String.eqb k' k) eqn:E; simpl; rewrite E; [reflexivity | exact IH].
Qed.

Lemma get_update_other k k' f m :
  k <> k' -> JsMap.get k (JsMap.update k' f m) = JsMap.get k m.
Proof.
  intros Hne. induction m as [| [k0 v] m IH]; simpl; [reflexivity |].
  destruct (String.eqb k0 k') eqn:E; simpl.
  - apply String.eqb_eq in E. subst k0.
    destruct (String.eqb k' k) eqn:E'; [| reflexivity].
    apply String.eqb_eq in E'. congruence.
  - rewrite IH. reflexivity.
Qed.

Lemma get_set_same k v m : JsMap.get k (JsMap.set k v m) = Some v.
Proof.
  induction m as [| [k' v'] m IH]; simpl.
  - rewrite String.eqb_refl. reflexivity.
  - destruct (String.eqb k' k) eqn:E; simpl; rewrite E; [reflexivity | exact IH].
Qed.

Lemma get_set_other k k' v m :
  k <> k' -> JsMap.get k (JsMap.set k' v m) = JsMap.get k m.
Proof.
  intros Hne. induction m as [| [k0 v0] m IH]; simpl.
  - destruct (String.eqb k' k) eqn:E; [| reflexivity].
    apply String.eqb_eq in E. congruence.
  - destruct (String.eqb k0 k') eqn:E; simpl.
    + apply String.eqb_eq in E. subst k0.
      destruct (String.eqb k' k) eqn:E'; [| reflexivity].
      apply String.eqb_eq in E'. congruence.
    + rewrite IH. reflexivity.
Qed.

Lemma get_map_values k f m :
  JsMap.get k (JsMap.map_values f m) = option_map f (JsMap.get k m).
Proof.
  induction m as [| [k' v] m IH]; simpl; [reflexivity |].
  destruct (String.eqb k' k); [reflexivity | exact IH].
Qed.

(** The object found under some key of [set k v m] is [v] or was in
    [m] already. *)
Lemma get_set_cases k k' v m :
  JsMap.get k (JsMap.set k' v m) = if String.eqb k' k then Some v else JsMap.get k m.
Proof.
  destruct (String.eqb k' k) eqn:E.
  - apply String.eqb_eq in E. subst. apply get_set_same.
  - apply get_set_other. intros ->. rewrite String.eqb_refl in E. discriminate.
Qed.

Lemma get_update_cases k k' f m :
  JsMap.get k (JsMap.update k' f m) =
  if String.eqb k' k then option_map f (JsMap.get k m) else JsMap.get k m.
Proof.
  destruct (String.eqb k' k) eqn:E.
  - apply String.eqb_eq in E. subst. apply get_update_same.
  - apply get_update_other. intros ->. rewrite String.eqb_refl in E. discriminate.
Qed.
End JsMapFacts.
End JsMapFacts.

(** ** The countdown of a structure *)

Module CountdownFacts.
Import Floats.SpecFloat F64 Integers IntegerFacts Lifecycle.
Local Unset Implicit Arguments.

(** [Math.max(0, y)] is +0 as soon as it passes the test [=== 0]. *)
Lemma max_zero_exact (y : number) :
  strict_equal (Math_max pos_zero y) pos_zero = true ->
  Math_max pos_zero y = pos_zero.
Proof. destruct y as [[|] | [|] | | [|] m e]; cbn; intros H; congruence. Qed.

(** [Math.max(0, y)] is not negative, unless [y] is NaN. *)
Lemma max_zero_non_negative (y : number) :
  y <> NaN -> fle pos_zero (Math_max pos_zero y) = true.
Proof.
  destruct y as [[|] | [|] | | [|] m e]; cbn; intros H;
    try reflexivity; contradiction H; reflexivity.
Qed.

Lemma non_negative_number (t : number) : fle pos_zero t = true -> t <> NaN.
Proof. intros H ->. discriminate H. Qed.

Lemma countdown_zero (t : number) :
  strict_equal (countdown t) pos_zero = true -> countdown t = pos_zero.
Proof. apply max_zero_exact. Qed.

(** A countdown that is not negative stays so. *)
Lemma countdown_non_negative (t : number) :
  fle pos_zero t = true -> fle pos_zero (countdown t) = true.
Proof.
  intros H. apply max_zero_non_negative, fsub_number.
  - apply non_negative_number, H.
  - discriminate.
  - discriminate.
  - discriminate.
Qed.

(** On integers the countdown is [max(0, r - 1)]. *)
Lemma countdown_int (r : Z) :
  small r -> small (r - 1) ->
  countdown (of_int r) = of_int (Z.max 0 (r - 1)).
Proof.
  intros Hr Hr1. unfold countdown.
  rewrite fsub_int by (assumption || apply small_1).
  change pos_zero with (of_int 0).
  apply Math_max_int; [apply small_0 | assumption].
Qed.

Lemma is_zero_int (r : Z) :
  small r -> strict_equal (of_int r) pos_zero = (r =? 0).
Proof.
  intros Hr. change pos_zero with (of_int 0).
  apply strict_equal_int; [assumption | apply small_0].
Qed.

(** Adding one step to a tier that is an integer. *)
Lemma next_tier_int (t : Z) :
  small t -> small (t + 1) -> fadd (of_int t) (of_int 1) = of_int (t + 1).
Proof. intros Ht Ht1. apply fadd_int; [assumption | apply small_1 | assumption]. Qed.
End CountdownFacts.

(** ** Tick engine *)

Module EngineFacts.
Section EngineFacts.
Import Engine.
Context {A : Arith}.

Lemma registered_lookup (capName : string) :
  registered capName = true ->
  exists cap, CAPABILITIES capName = Own cap /\
    forall p st r, cap_tick cap p st r = (cap_entries capName p st, r).
Proof.
  unfold registered, registry_names, cap_entries, CAPABILITIES. simpl.
  repeat (destruct (String.eqb capName _);
          [ intros _; eexists; split; [reflexivity | intros; reflexivity] | ]).
  simpl. discriminate.
Qed.

Lemma run_capability_registered p st capName l :
  registered capName = true ->
  run_capability p st capName l =
  (Return tt, {| rng_state := rng_state l;
                 output := merge (cap_entries capName p st) (output l) |}).
Proof.
  intros H. destruct (registered_lookup capName H) as [cap [Hc Ht]].
  unfold run_capability. rewrite Hc. unfold bind, get, modify.
  rewrite Ht. reflexivity.
Qed.

Lemma run_capability_unregistered p st capName l :
  registered capName = false ->
  run_capability p st capName l = (Throw (unknown_capability_failure capName), l).
Proof.
  unfold registered, registry_names, run_capability, CAPABILITIES,
    unknown_capability_failure. simpl.
  repeat (destruct (String.eqb capName _); [ discriminate | ]).
  intros _. destruct (in_object_prototype capName); reflexivity.
Qed.

Lemma merge_app (r1 r2 : CapResult) (o : TickOutput) :
  merge (r1 ++ r2)%list o = merge r2 (merge r1 o).
Proof. unfold merge. apply fold_left_app. Qed.

(** The inner loop: it throws at the first unregistered name, and
    otherwise merges every hook's entries and leaves the generator where
    it was. *)
Lemma run_capabilities p st caps l :
  for_of caps (run_capability p st) l =
  match find (fun n => negb (registered n)) caps with
  | Some n =>
      (Throw (unknown_capability_failure n),
       final (for_of caps (run_capability p st) l))
  | None =>
      (Return tt,
       {| rng_state := rng_state l;
          output := merge (flat_map (fun n => cap_entries n p st) caps) (output l) |})
  end.
Proof.
  revert l. induction caps as [| n caps IH]; intros l; simpl.
  - destruct l; reflexivity.
  - unfold bind. destruct (registered n) eqn:Hn; simpl.
    + rewrite (run_capability_registered p st n l Hn).
      rewrite IH. destruct (find _ caps); simpl; [reflexivity |].
      rewrite merge_app. reflexivity.
    + rewrite (run_capability_unregistered p st n l Hn). reflexivity.
Qed.

Lemma run_primitive_spec st p l :
  run_primitive st p l =
  match find (fun n => negb (registered n)) (capabilities p) with
  | Some n => (Throw (unknown_capability_failure n), final (run_primitive st p l))
  | None => (Return tt, {| rng_state := rng_state l;
                           output := apply_primitive st (output l) p |})
  end.
Proof.
  unfold run_primitive, bind, modify, final. rewrite run_capabilities.
  destruct (find _ (capabilities p)); reflexivity.
Qed.

Lemma find_app {T} (f : T -> bool) (xs ys : list T) :
  find f (xs ++ ys)%list =
  match find f xs with Some x => Some x | None => find f ys end.
Proof.
  induction xs as [| x xs IH]; simpl; [reflexivity |].
  destruct (f x); [reflexivity | exact IH].
Qed.

Lemma tick_loop_spec st prims l :
  tick_loop prims st l =
  match first_unregistered prims with
  | Some n => (Throw (unknown_capability_failure n), final (tick_loop prims st l))
  | None => (Return tt, {| rng_state := rng_state l;
                           output := fold_left (apply_primitive st) prims (output l) |})
  end.
Proof.
  unfold tick_loop, first_unregistered.
  revert l. induction prims as [| p prims IH]; intros l; simpl.
  - destruct l; reflexivity.
  - rewrite find_app. unfold bind, final. rewrite run_primitive_spec.
    destruct (find _ (capabilities p)); simpl; [reflexivity |].
    rewrite IH. destruct (find _ (flat_map capabilities prims)); reflexivity.
Qed.

(** [tick] in closed form. *)
Lemma tick_spec prims st seed :
  tick prims st seed =
  match first_unregistered prims with
  | Some n => Throw (unknown_capability_failure n)
  | None => Return (fold_left (apply_primitive st) prims zero_output)
  end.
Proof.
  unfold tick. rewrite tick_loop_spec.
  destruct (first_unregistered prims); reflexivity.
Qed.
End EngineFacts.
End EngineFacts.

(* ================================================================== *)
(** * The output of the engine, one field at a time *)
(* ================================================================== *)

Module FieldFacts.
Import Engine Ledger EngineFacts.

Section Generic.
Context {A : Arith}.

(** ** The fields of the output *)

Ltac by_key key :=
  repeat match goal with
         | |- context [String.eqb key ?s] =>
             let E := fresh "E" in
             destruct (String.eqb key s) eqn:E;
             [ apply String.eqb_eq in E; subst key; reflexivity | ]
         end;
  try reflexivity.

Lemma entries_of_app key (r1 r2 : CapResult) :
  entries_of key (r1 ++ r2)%list = (entries_of key r1 ++ entries_of key r2)%list.
Proof. unfold entries_of. rewrite filter_app, map_app. reflexivity. Qed.

Lemma merge_power_delta (r : CapResult) o :
  power_delta (merge r o) =
  fold_left add (entries_of "power_delta" r) (power_delta o).
Proof.
  unfold merge, entries_of. revert o.
  induction r as [| [key v] r IH]; intros o; cbn [fold_left]; [reflexivity |].
  rewrite IH. cbn [filter fst]. unfold merge_entry. by_key key.
Qed.

Lemma merge_power_consumed (r : CapResult) o :
  power_consumed (merge r o) =
  fold_left add (entries_of "power_consumed" r) (power_consumed o).
Proof.
  unfold merge, entries_of. revert o.
  induction r as [| [key v] r IH]; intros o; cbn [fold_left]; [reflexivity |].
  rewrite IH. cbn [filter fst]. unfold merge_entry. by_key key.
Qed.

Lemma merge_light_level_delta (r : CapResult) o :
  light_level_delta (merge r o) =
  fold_left add (entries_of "light_level_delta" r) (light_level_delta o).
Proof.
  unfold merge, entries_of. revert o.
  induction r as [| [key v] r IH]; intros o; cbn [fold_left]; [reflexivity |].
  rewrite IH. cbn [filter fst]. unfold merge_entry. by_key key.
Qed.

Lemma merge_morale_delta (r : CapResult) o :
  morale_delta (merge r o) =
  fold_left add (entries_of "morale_delta" r) (morale_delta o).
Proof.
  unfold merge, entries_of. revert o.
  induction r as [| [key v] r IH]; intros o; cbn [fold_left]; [reflexivity |].
  rewrite IH. cbn [filter fst]. unfold merge_entry. by_key key.
Qed.

Lemma merge_visibility_score_delta (r : CapResult) o :
  visibility_score_delta (merge r o) =
  fold_left add (entries_of "visibility_score_delta" r)
            (visibility_score_delta o).
Proof.
  unfold merge, entries_of. revert o.
  induction r as [| [key v] r IH]; intros o; cbn [fold_left]; [reflexivity |].
  rewrite IH. cbn [filter fst]. unfold merge_entry. by_key key.
Qed.

(** What the hook under a name puts under a key. *)
Ltac by_capability n :=
  unfold cap_entries, CAPABILITIES; by_key n;
  destruct (in_object_prototype n); reflexivity.

Lemma power_delta_of capName p st :
  entries_of "power_delta" (cap_entries capName p st) =
  if String.eqb capName "POWER_GENERATION"
  then [power_generation (sim p)] else [].
Proof. by_capability capName. Qed.

Lemma power_consumed_of capName p st :
  entries_of "power_consumed" (cap_entries capName p st) = [].
Proof. by_capability capName. Qed.

Lemma light_level_delta_of capName p st :
  entries_of "light_level_delta" (cap_entries capName p st) =
  if String.eqb capName "LIGHTING"
  then [if ltb zero (power_consumption (sim p)) then one else zero] else [].
Proof. by_capability capName. Qed.

Lemma morale_delta_of capName p st :
  entries_of "morale_delta" (cap_entries capName p st) =
  if String.eqb capName "AESTHETIC" then [tenth] else [].
Proof. by_capability capName. Qed.

Lemma visibility_score_delta_of capName p st :
  entries_of "visibility_score_delta" (cap_entries capName p st) =
  if String.eqb capName "WAYFINDING"
  then [visibility_score (sim p)] else [].
Proof. by_capability capName. Qed.

(** The entries of one primitive under a key that one capability
    feeds. *)
Lemma entries_of_contributions key capName (g : Primitive -> num) p st :
  (forall n, entries_of key (cap_entries n p st) =
             if String.eqb n capName then [g p] else []) ->
  entries_of key (contributions p st) =
  map g (map (fun _ => p)
             (filter (fun n => String.eqb n capName) (capabilities p))).
Proof.
  intros H. unfold contributions.
  induction (capabilities p) as [| n caps IH]; cbn [flat_map filter];
    [reflexivity |].
  rewrite entries_of_app, IH, H.
  destruct (String.eqb n capName); reflexivity.
Qed.

Lemma field_of_fold (f : TickOutput -> num) key capName (g : Primitive -> num) st :
  (forall r o, f (merge r o) = fold_left add (entries_of key r) (f o)) ->
  (forall c o, f (consume c o) = f o) ->
  (forall n p, entries_of key (cap_entries n p st) =
               if String.eqb n capName then [g p] else []) ->
  forall prims o,
    f (fold_left (apply_primitive st) prims o) =
    fold_left add (map g (declarations capName prims)) (f o).
Proof.
  intros Hmerge Hconsume Hcap.
  induction prims as [| p prims IH]; intros o; cbn [fold_left]; [reflexivity |].
  rewrite IH. unfold declarations. cbn [flat_map].
  rewrite map_app, fold_left_app. f_equal.
  unfold apply_primitive. rewrite Hmerge, Hconsume.
  rewrite (entries_of_contributions key capName g p st (fun n => Hcap n p)).
  reflexivity.
Qed.

Lemma power_consumed_of_fold st prims :
  forall o,
    power_consumed (fold_left (apply_primitive st) prims o) =
    fold_left add (map (fun p => power_consumption (sim p)) prims)
              (power_consumed o).
Proof.
  induction prims as [| p prims IH]; intros o; cbn [fold_left map];
    [reflexivity |].
  rewrite IH. f_equal. unfold apply_primitive.
  rewrite merge_power_consumed.
  replace (entries_of "power_consumed" (contributions p st)) with (@nil num);
    [reflexivity |].
  unfold contributions.
  induction (capabilities p) as [| n caps IHc]; cbn [flat_map]; [reflexivity |].
  rewrite entries_of_app, power_consumed_of, <- IHc. reflexivity.
Qed.

(** The accumulator after the loops, field by field. *)
Lemma fold_fields (prims : list Primitive) (st : SectorState) :
  let o := fold_left (apply_primitive st) prims zero_output in
  power_delta o =
    total (map (fun p => power_generation (sim p))
               (declarations "POWER_GENERATION" prims)) /\
  power_consumed o =
    total (map (fun p => power_consumption (sim p)) prims) /\
  light_level_delta o =
    total (map (fun p => if ltb zero (power_consumption (sim p))
                         then one else zero)
               (declarations "LIGHTING" prims)) /\
  morale_delta o =
    total (map (fun _ => tenth) (declarations "AESTHETIC" prims)) /\
  visibility_score_delta o =
    total (map (fun p => visibility_score (sim p))
               (declarations "WAYFINDING" prims)).
Proof.
  cbv zeta. unfold total. repeat split.
  - apply (field_of_fold power_delta "power_delta" "POWER_GENERATION"
             (fun p => power_generation (sim p)) st
             merge_power_delta (fun _ _ => eq_refl)
             (fun n p => power_delta_of n p st)).
  - apply power_consumed_of_fold.
  - apply (field_of_fold light_level_delta "light_level_delta" "LIGHTING"
             (fun p => if ltb zero (power_consumption (sim p))
                       then one else zero) st
             merge_light_level_delta (fun _ _ => eq_refl)
             (fun n p => light_level_delta_of n p st)).
  - apply (field_of_fold morale_delta "morale_delta" "AESTHETIC"
             (fun _ => tenth) st
             merge_morale_delta (fun _ _ => eq_refl)
             (fun n p => morale_delta_of n p st)).
  - apply (field_of_fold visibility_score_delta "visibility_score_delta"
             "WAYFINDING" (fun p => visibility_score (sim p)) st
             merge_visibility_score_delta (fun _ _ => eq_refl)
             (fun n p => visibility_score_delta_of n p st)).
Qed.

Lemma first_unregistered_app (xs ys : list Primitive) :
  first_unregistered (xs ++ ys) =
  match first_unregistered xs with
  | Some n => Some n
  | None => first_unregistered ys
  end.
Proof. unfold first_unregistered. rewrite flat_map_app. apply find_app. Qed.

Lemma first_unregistered_none (prims : list Primitive) :
  first_unregistered prims = None <->
  forall p n, In p prims -> In n (capabilities p) -> registered n = true.
Proof.
  unfold first_unregistered. split.
  - intros H p n Hp Hn.
    pose proof (find_none _ _ H n) as Hf. cbv beta in Hf.
    apply negb_false_iff, Hf, in_flat_map. exists p. split; assumption.
  - intros H. destruct (find _ _) as [n |] eqn:Hf; [| reflexivity].
    apply find_some in Hf. destruct Hf as [Hin Hn].
    apply in_flat_map in Hin. destruct Hin as [p [Hp Hin]].
    rewrite (H p n Hp Hin) in Hn. discriminate.
Qed.
End Generic.
End FieldFacts.

(* ================================================================== *)
(** * The engine on whole numbers, in closed form *)
(* ================================================================== *)

Module WholeFacts.
Import Engine Ledger EngineFacts FieldFacts Integers IntegerFacts Whole.

(** ** Sums over entries *)

Lemma count_le capName e : (count capName e <= List.length (declared e))%nat.
Proof. unfold count. apply filter_length_le. Qed.

Lemma reading_pos e : 1 <= reading e.
Proof. unfold reading. lia. Qed.

Lemma weight_reading e : reading e <= weight e.
Proof. unfold weight. pose proof (reading_pos e). nia. Qed.

Lemma weight_pos e : 1 <= weight e.
Proof. pose proof (reading_pos e). pose proof (weight_reading e). lia. Qed.

Lemma magnitude_nonneg es : 0 <= magnitude es.
Proof.
  unfold magnitude. induction es as [| e es IH]; cbn [sum fold_right]; [lia |].
  fold (sum weight es). pose proof (weight_pos e). lia.
Qed.

Lemma sum_cons f e es : sum f (e :: es) = f e + sum f es.
Proof. reflexivity. Qed.

Lemma sum_app f xs ys : sum f (xs ++ ys) = sum f xs + sum f ys.
Proof.
  induction xs as [| x xs IH]; cbn [app]; [reflexivity |].
  rewrite !sum_cons, IH. lia.
Qed.

Lemma sum_repeat f e (k : nat) : sum f (repeat e k) = Z.of_nat k * f e.
Proof.
  induction k as [| k IH]; cbn [repeat]; [reflexivity |].
  rewrite sum_cons, IH. lia.
Qed.

Lemma sum_permutation f xs ys : Permutation xs ys -> sum f xs = sum f ys.
Proof.
  induction 1 as [| x xs ys _ IH | x y xs | xs ys zs _ IH1 _ IH2];
    rewrite ?sum_cons; lia.
Qed.

Lemma sum_bound f es :
  (forall e, Z.abs (f e) <= weight e) -> Z.abs (sum f es) <= magnitude es.
Proof.
  intros H. unfold magnitude. induction es as [| e es IH]; [cbn; lia |].
  rewrite !sum_cons. specialize (H e). lia.
Qed.

Lemma count_sum_nonneg capName es :
  0 <= sum (fun e => Z.of_nat (count capName e)) es.
Proof. induction es as [| e es IH]; [cbn; lia |]. rewrite sum_cons. lia. Qed.

Lemma weight_le_magnitude e es : In e es -> weight e <= magnitude es.
Proof.
  unfold magnitude. induction es as [| x es IH]; [intros [] |].
  rewrite sum_cons. pose proof (magnitude_nonneg es) as Hm. unfold magnitude in Hm.
  pose proof (weight_pos x).
  intros [-> | Hin]; [lia | specialize (IH Hin); lia].
Qed.

Lemma counted_bound capName (f : Entry -> Z) e :
  Z.abs (f e) <= reading e ->
  Z.abs (Z.of_nat (count capName e) * f e) <= weight e.
Proof.
  intros H. pose proof (count_le capName e). unfold weight.
  rewrite Z.abs_mul. pose proof (reading_pos e). nia.
Qed.

(** ** A run of additions of integers *)

Lemma abs_sum_nonneg zs : 0 <= abs_sum zs.
Proof. induction zs as [| z zs IH]; cbn [abs_sum fold_right]; [lia |].
       fold (abs_sum zs). lia. Qed.

Lemma add_ints (zs : list Z) :
  forall acc,
    Z.abs acc + abs_sum zs < 2 ^ 53 ->
    fold_left (@add F64.arith) (map F64.of_int zs) (F64.of_int acc) =
    F64.of_int (acc + plain_sum zs).
Proof.
  induction zs as [| z zs IH]; intros acc H; cbn [map fold_left plain_sum fold_right].
  - f_equal. lia.
  - fold (plain_sum zs). cbn [abs_sum fold_right] in H. fold (abs_sum zs) in H.
    pose proof (abs_sum_nonneg zs).
    change (@add F64.arith) with F64.fadd.
    rewrite fadd_int by (unfold small; lia).
    change F64.fadd with (@add F64.arith).
    rewrite IH by lia. f_equal. lia.
Qed.

Lemma total_ints (zs : list Z) :
  abs_sum zs < 2 ^ 53 ->
  @total F64.arith (map F64.of_int zs) = F64.of_int (plain_sum zs).
Proof.
  intros H. unfold total. change (@zero F64.arith) with (F64.of_int 0).
  rewrite add_ints by (cbn [Z.abs]; lia). reflexivity.
Qed.

(** ** The declarations of whole-number entries *)

Lemma map_const {T U} (u : U) (xs : list T) :
  map (fun _ => u) xs = repeat u (List.length xs).
Proof. induction xs as [| x xs IH]; cbn; [reflexivity | rewrite IH; reflexivity]. Qed.

Lemma declarations_primitive capName es :
  declarations capName (map primitive es) =
  flat_map (fun e => repeat (primitive e) (count capName e)) es.
Proof.
  unfold declarations. induction es as [| e es IH]; cbn [map flat_map];
    [reflexivity |].
  rewrite IH, map_const. reflexivity.
Qed.

Lemma map_repeat {T U} (g : T -> U) (x : T) (k : nat) :
  map g (repeat x k) = repeat (g x) k.
Proof. induction k as [| k IH]; cbn; [reflexivity | rewrite IH; reflexivity]. Qed.

Lemma map_terms capName (f : Entry -> Z)
      (g : Primitive (A := F64.arith) -> @num F64.arith) es :
  (forall e, In e es -> g (primitive e) = F64.of_int (f e)) ->
  map g (declarations capName (map primitive es)) =
  map F64.of_int (terms capName f es).
Proof.
  intros H. rewrite declarations_primitive. unfold terms.
  induction es as [| e es IH]; cbn [flat_map]; [reflexivity |].
  rewrite !map_app, !map_repeat, (H e (or_introl eq_refl)).
  rewrite IH; [reflexivity |].
  intros e' He'. apply H. right. exact He'.
Qed.

Lemma plain_sum_app xs ys : plain_sum (xs ++ ys) = plain_sum xs + plain_sum ys.
Proof.
  induction xs as [| x xs IH]; cbn [app plain_sum fold_right]; [reflexivity |].
  fold (plain_sum (xs ++ ys)). fold (plain_sum xs). lia.
Qed.

Lemma abs_sum_app xs ys : abs_sum (xs ++ ys) = abs_sum xs + abs_sum ys.
Proof.
  induction xs as [| x xs IH]; cbn [app abs_sum fold_right]; [reflexivity |].
  fold (abs_sum (xs ++ ys)). fold (abs_sum xs). lia.
Qed.

Lemma plain_sum_repeat z (k : nat) : plain_sum (repeat z k) = Z.of_nat k * z.
Proof.
  induction k as [| k IH]; cbn [repeat plain_sum fold_right]; [reflexivity |].
  fold (plain_sum (repeat z k)). lia.
Qed.

Lemma abs_sum_repeat z (k : nat) : abs_sum (repeat z k) = Z.of_nat k * Z.abs z.
Proof.
  induction k as [| k IH]; cbn [repeat abs_sum fold_right]; [reflexivity |].
  fold (abs_sum (repeat z k)). lia.
Qed.

Lemma plain_sum_terms capName f es :
  plain_sum (terms capName f es) =
  sum (fun e => Z.of_nat (count capName e) * f e) es.
Proof.
  unfold terms. induction es as [| e es IH]; cbn [flat_map]; [reflexivity |].
  rewrite plain_sum_app, plain_sum_repeat, IH, sum_cons. reflexivity.
Qed.

Lemma abs_sum_terms capName f es :
  (forall e, Z.abs (f e) <= reading e) ->
  abs_sum (terms capName f es) <= magnitude es.
Proof.
  intros H. unfold terms, magnitude.
  induction es as [| e es IH]; cbn [flat_map]; [cbn; lia |].
  rewrite abs_sum_app, abs_sum_repeat, sum_cons.
  pose proof (counted_bound capName f e (H e)) as Hb.
  rewrite Z.abs_mul, Z.abs_eq in Hb by lia. lia.
Qed.

(** One field fed by one capability. *)
Lemma field_total capName (f : Entry -> Z)
      (g : Primitive (A := F64.arith) -> @num F64.arith) es :
  magnitude es < 2 ^ 53 ->
  (forall e, Z.abs (f e) <= reading e) ->
  (forall e, In e es -> g (primitive e) = F64.of_int (f e)) ->
  @total F64.arith (map g (declarations capName (map primitive es))) =
  F64.of_int (sum (fun e => Z.of_nat (count capName e) * f e) es).
Proof.
  intros Hm Hf Hg. rewrite (map_terms capName f g es Hg).
  rewrite total_ints, plain_sum_terms; [reflexivity |].
  pose proof (abs_sum_terms capName f es Hf). lia.
Qed.

Lemma consumed_total es :
  magnitude es < 2 ^ 53 ->
  @total F64.arith (map (fun p => power_consumption (sim p)) (map primitive es)) =
  F64.of_int (consumed es).
Proof.
  intros Hm.
  replace (map (fun p : Primitive (A := F64.arith) => power_consumption (sim p))
               (map primitive es))
    with (map F64.of_int (map consumption es))
    by (rewrite !map_map; reflexivity).
  rewrite total_ints.
  - f_equal. unfold consumed. induction es as [| e es IH]; [reflexivity |].
    cbn [map plain_sum fold_right]. fold (plain_sum (map consumption es)).
    rewrite sum_cons, IH; [reflexivity |].
    unfold magnitude in *. rewrite sum_cons in Hm. pose proof (weight_pos e). lia.
  - apply Z.le_lt_trans with (m := magnitude es); [| exact Hm]. clear Hm.
    unfold magnitude. induction es as [| e es IH]; [cbn; lia |].
    cbn [map abs_sum fold_right]. fold (abs_sum (map consumption es)).
    rewrite sum_cons. pose proof (weight_reading e). unfold reading in *. lia.
Qed.

Lemma decorations_total es :
  map (fun _ : Primitive (A := F64.arith) => @tenth F64.arith)
      (declarations "AESTHETIC" (map primitive es)) =
  repeat tenth (decorations es).
Proof.
  rewrite map_const. f_equal. rewrite declarations_primitive. unfold decorations.
  induction es as [| e es IH]; [reflexivity |].
  cbn [flat_map]. rewrite length_app, repeat_length, IH, sum_cons.
  assert (H : 0 <= sum (fun e0 => Z.of_nat (count "AESTHETIC" e0)) es).
  { clear. induction es as [| e es IH]; [cbn; lia |]. rewrite sum_cons. lia. }
  lia.
Qed.

Lemma consumption_small e es :
  In e es -> magnitude es < 2 ^ 53 -> small (consumption e).
Proof.
  intros Hin Hm. pose proof (weight_le_magnitude e es Hin).
  pose proof (weight_reading e). unfold small, reading in *. lia.
Qed.

(** [tick] on whole-number entries, in closed form. *)
Lemma tick_whole es (st : SectorState (A := F64.arith)) seed :
  magnitude es < 2 ^ 53 ->
  tick (map primitive es) st seed =
  match first_unregistered (map primitive es) with
  | Some n => Throw (unknown_capability_failure n)
  | None => Return (output es)
  end.
Proof.
  intros Hm. rewrite tick_spec.
  destruct (first_unregistered (map primitive es)); [reflexivity |].
  apply f_equal.
  destruct (fold_fields (map primitive es) st) as [H1 [H2 [H3 [H4 H5]]]].
  destruct (fold_left (apply_primitive st) (map primitive es) zero_output)
    as [pd pc ll md vs].
  cbn [power_delta power_consumed light_level_delta morale_delta
       visibility_score_delta] in *.
  unfold output.
  rewrite H1, H2, H3, H4, H5. clear H1 H2 H3 H4 H5.
  rewrite (field_total "POWER_GENERATION" generation
             (fun p => power_generation (sim p)) es Hm);
    [| intros e; unfold reading; lia | reflexivity].
  rewrite (consumed_total es Hm).
  rewrite (field_total "LIGHTING" (fun e => if 0 <? consumption e then 1 else 0)
             (fun p => if ltb zero (power_consumption (sim p)) then one else zero)
             es Hm).
  - rewrite (field_total "WAYFINDING" score
               (fun p => visibility_score (sim p)) es Hm);
      [| intros e; unfold reading; lia | reflexivity].
    rewrite decorations_total. reflexivity.
  - intros e. unfold reading. destruct (0 <? consumption e); lia.
  - intros e Hin. cbn [primitive sim power_consumption].
    change (@ltb F64.arith) with F64.flt.
    change (@zero F64.arith) with (F64.of_int 0).
    rewrite flt_int; [| apply small_0 | apply (consumption_small e es Hin Hm)].
    destruct (0 <? consumption e); reflexivity.
Qed.

(** The totals are within the exact range. *)
Lemma generated_small es : magnitude es < 2 ^ 53 -> small (generated es).
Proof.
  intros Hm. unfold small, generated.
  apply Z.le_lt_trans with (m := magnitude es); [| exact Hm].
  apply sum_bound. intros e. apply counted_bound. unfold reading. lia.
Qed.

Lemma consumed_small es : magnitude es < 2 ^ 53 -> small (consumed es).
Proof.
  intros Hm. unfold small, consumed.
  apply Z.le_lt_trans with (m := magnitude es); [| exact Hm].
  apply sum_bound. intros e. pose proof (weight_reading e). unfold reading in *. lia.
Qed.

Lemma lit_small es : magnitude es < 2 ^ 53 -> small (lit es).
Proof.
  intros Hm. unfold small, lit.
  apply Z.le_lt_trans with (m := magnitude es); [| exact Hm].
  apply sum_bound. intros e.
  apply (counted_bound "LIGHTING" (fun e => if 0 <? consumption e then 1 else 0)).
  unfold reading. destruct (0 <? consumption e); lia.
Qed.

Lemma seen_small es : magnitude es < 2 ^ 53 -> small (seen es).
Proof.
  intros Hm. unfold small, seen.
  apply Z.le_lt_trans with (m := magnitude es); [| exact Hm].
  apply sum_bound. intros e. apply counted_bound. unfold reading. lia.
Qed.
End WholeFacts.

(* ================================================================== *)
(** * A call of [tick] and the heap it runs on *)
(* ================================================================== *)

Module ProcessFacts.
Import Engine Process.

(** Two loops whose bodies keep a relation between their states, and
    complete alike on related states, do so as wholes. *)
Lemma for_of_related {S1 S2 X} (R : S1 -> S2 -> Prop)
      (body1 : X -> M S1 unit) (body2 : X -> M S2 unit) :
  (forall x s1 s2,
      R s1 s2 ->
      completion (body1 x s1) = completion (body2 x s2) /\
      R (final (body1 x s1)) (final (body2 x s2))) ->
  forall xs s1 s2,
    R s1 s2 ->
    completion (for_of xs body1 s1) = completion (for_of xs body2 s2) /\
    R (final (for_of xs body1 s1)) (final (for_of xs body2 s2)).
Proof.
  intros Hbody. induction xs as [| x xs IH]; intros s1 s2 HR.
  - split; [reflexivity | exact HR].
  - cbn [for_of]. unfold bind.
    destruct (Hbody x s1 s2 HR) as [Hc HR'].
    unfold completion, final in Hc, HR'.
    destruct (body1 x s1) as [[[] | e1] s1'], (body2 x s2) as [[[] | e2] s2'];
      cbn [fst snd] in Hc, HR'; try discriminate Hc.
    + apply IH, HR'.
    + split; [exact Hc | exact HR'].
Qed.

Section Registry.
Context {A : Arith}.
Variable registry : string -> Lookup.

(** ** The closures of other calls *)

Lemma nth_frame (pre : list RngState) s :
  nth (List.length pre) (pre ++ [s])%list 0 = s.
Proof. rewrite app_nth2, Nat.sub_diag by lia. reflexivity. Qed.

Lemma write_nth_frame (pre : list RngState) s s' :
  write_nth (List.length pre) s' (pre ++ [s])%list = (pre ++ [s'])%list.
Proof. induction pre as [| x pre IH]; cbn; [reflexivity | rewrite IH; reflexivity]. Qed.

Lemma run_capability_framed pre p st capName f1 f2 :
  framed pre f1 f2 ->
  completion (run_capability_in registry (List.length pre) p st capName f1) =
  completion (run_capability_in registry 0%nat p st capName f2) /\
  framed pre (final (run_capability_in registry (List.length pre) p st capName f1))
             (final (run_capability_in registry 0%nat p st capName f2)).
Proof.
  intros [Hh [Hlen Ho]]. unfold run_capability_in.
  destruct (registry capName) as [cap | |];
    [| split; [reflexivity | repeat split; assumption]..].
  unfold bind, get, modify, read.
  destruct (closures (heap f2)) as [| s [| s2 rest]] eqn:Hc; try discriminate Hlen.
  rewrite Hh, nth_frame. cbn [nth].
  destruct (cap_tick cap p st s) as [result s'].
  unfold completion, final. cbn [fst snd]. split; [reflexivity |].
  unfold framed, write. cbn [heap out closures].
  rewrite Hh, Hc, write_nth_frame, Ho. repeat split.
Qed.

Lemma run_primitive_framed pre st p f1 f2 :
  framed pre f1 f2 ->
  completion (run_primitive_in registry (List.length pre) st p f1) =
  completion (run_primitive_in registry 0%nat st p f2) /\
  framed pre (final (run_primitive_in registry (List.length pre) st p f1))
             (final (run_primitive_in registry 0%nat st p f2)).
Proof.
  intros [Hh [Hlen Ho]]. unfold run_primitive_in, bind, modify.
  apply (for_of_related (framed pre)
           (run_capability_in registry (List.length pre) p st)
           (run_capability_in registry 0%nat p st)).
  - intros n g1 g2. apply run_capability_framed.
  - unfold framed. cbn [heap out]. rewrite Ho. repeat split; assumption.
Qed.

(** A call of [tick] returns what it returns on the empty heap, and
    leaves the closures it found as they were, followed by its own. *)
Lemma tick_in_framed prims st seed (h : Heap) :
  completion (tick_in registry prims st seed h) =
  completion (tick_in registry prims st seed fresh) /\
  closures (final (tick_in registry prims st seed h)) =
  (closures h ++ closures (final (tick_in registry prims st seed fresh)))%list.
Proof.
  unfold tick_in, createRng_in, fresh. cbn [closures List.length app].
  destruct (for_of_related (framed (closures h))
              (run_primitive_in registry (List.length (closures h)) st)
              (run_primitive_in registry 0%nat st)
              (fun p g1 g2 => @run_primitive_framed (closures h) st p g1 g2)
              prims
              {| heap := {| closures := (closures h ++ [createRng seed])%list |};
                 out := zero_output |}
              {| heap := {| closures := [createRng seed] |};
                 out := zero_output |})
    as [Hc [Hh [_ Ho]]].
  - unfold framed. cbn [heap out closures]. repeat split.
  - unfold completion, final in *.
    destruct (for_of prims (run_primitive_in registry (List.length (closures h)) st) _)
      as [[[] | e1] g1];
      destruct (for_of prims (run_primitive_in registry 0%nat st) _)
        as [[[] | e2] g2];
      cbn [fst snd] in *; try discriminate Hc.
    + rewrite Ho. split; [reflexivity | exact Hh].
    + injection Hc as ->. split; [reflexivity | exact Hh].
Qed.

(** Calls in sequence leave the closures they found as they were. *)
Lemma ticks_in_extends (calls : list Args) (h : Heap) :
  exists later,
    closures (snd (ticks_in registry calls h)) = (closures h ++ later)%list.
Proof.
  revert h. induction calls as [| a calls IH]; intros h; cbn [ticks_in].
  - exists []. cbn [snd]. rewrite app_nil_r. reflexivity.
  - destruct (tick_in_framed (placedPrimitives a) (sectorState a) (seed a) h)
      as [_ Hh].
    unfold final in Hh.
    destruct (tick_in registry (placedPrimitives a) (sectorState a) (seed a) h)
      as [r h1].
    cbn [snd] in Hh. destruct (IH h1) as [later Hl].
    destruct (ticks_in registry calls h1) as [rs h2]. cbn [snd] in *.
    eexists. rewrite Hl, Hh, <- app_assoc. reflexivity.
Qed.
End Registry.

(** ** The call alone *)

Section Alone.
Context {A : Arith}.

Lemma run_capability_alone p st capName f l :
  alone f l ->
  completion (run_capability_in CAPABILITIES 0%nat p st capName f) =
  completion (run_capability p st capName l) /\
  alone (final (run_capability_in CAPABILITIES 0%nat p st capName f))
        (final (run_capability p st capName l)).
Proof.
  intros [Hh Ho]. unfold run_capability_in, run_capability.
  destruct (CAPABILITIES capName) as [cap | |];
    [| split; [reflexivity | split; assumption]..].
  unfold bind, get, modify, read. rewrite Hh. cbn [nth].
  destruct (cap_tick cap p st (rng_state l)) as [result s'].
  unfold completion, final. cbn [fst snd]. split; [reflexivity |].
  unfold alone, write. cbn [heap out closures rng_state output].
  rewrite Hh, Ho. split; reflexivity.
Qed.

Lemma run_primitive_alone st p f l :
  alone f l ->
  completion (run_primitive_in CAPABILITIES 0%nat st p f) =
  completion (run_primitive st p l) /\
  alone (final (run_primitive_in CAPABILITIES 0%nat st p f))
        (final (run_primitive st p l)).
Proof.
  intros [Hh Ho]. unfold run_primitive_in, run_primitive, bind, modify.
  apply (for_of_related alone
           (run_capability_in CAPABILITIES 0%nat p st) (run_capability p st)).
  - intros n g1 g2. apply run_capability_alone.
  - unfold alone. cbn [heap out rng_state output]. rewrite Ho.
    split; [exact Hh | reflexivity].
Qed.

(** On the empty heap, [tick_in] completes as [tick] does. *)
Lemma tick_in_alone prims st seed :
  completion (tick_in CAPABILITIES prims st seed fresh) = tick prims st seed.
Proof.
  unfold tick_in, tick, tick_loop, createRng_in, fresh.
  cbn [closures List.length app].
  destruct (for_of_related alone
              (run_primitive_in CAPABILITIES 0%nat st) (run_primitive st)
              (fun p g1 g2 => @run_primitive_alone st p g1 g2)
              prims
              {| heap := {| closures := [createRng seed] |}; out := zero_output |}
              {| rng_state := createRng seed; output := zero_output |})
    as [Hc [_ Ho]].
  - split; reflexivity.
  - unfold completion, final in *.
    destruct (for_of prims (run_primitive_in CAPABILITIES 0%nat st) _)
      as [[[] | e1] g1];
      destruct (for_of prims (run_primitive st) _) as [[[] | e2] g2];
      cbn [fst snd] in *; try discriminate Hc.
    + rewrite Ho. reflexivity.
    + injection Hc as ->. reflexivity.
Qed.
End Alone.
End ProcessFacts.

Module EngineClaims.
Import Engine EngineFacts.
Local Open Scope Z_scope.

(** The hooks never draw from the generator, so the output is the same
    for every seed. *)
Lemma tick_seed_irrelevant {A : Arith} prims st seed1 seed2 :
  tick prims st seed1 = tick prims st seed2.
Proof. rewrite !tick_spec. reflexivity. Qed.

(** C1.  Determinism.  Two calls of [tick] with the same placed
    primitives, sector state and seed complete identically, field for
    field (for binary64 numbers, bit for bit), whatever calls of [tick]
    were made before the first and between the two.  Each call draws
    from a generator it creates itself from the seed, and leaves the
    generators of the other calls as they were; this holds for every
    registry of hooks that act on nothing but their arguments and the
    generator they are handed.  With the registry of the module, the
    completion on any heap is that of [tick] as a function of its three
    arguments. *)
Theorem tick_deterministic {A : Arith}
        (registry : string -> Lookup)
        (placedPrimitives : list Primitive) (sectorState : SectorState)
        (seed : Z) (between : list Process.Args) (h : Process.Heap) :
  let first := Process.tick_in registry placedPrimitives sectorState seed h in
  let later := snd (Process.ticks_in registry between (final first)) in
  let second :=
    Process.tick_in registry placedPrimitives sectorState seed later in
  completion second = completion first /\
  (exists own,
      Process.closures (final first) = (Process.closures h ++ own)%list) /\
  completion (Process.tick_in CAPABILITIES placedPrimitives sectorState seed h)
    = tick placedPrimitives sectorState seed.
Proof.
  cbv zeta. split; [| split].
  - destruct (ProcessFacts.tick_in_framed registry placedPrimitives sectorState
                seed h) as [H1 _].
    destruct (ProcessFacts.tick_in_framed registry placedPrimitives sectorState
                seed
                (snd (Process.ticks_in registry between
                        (final (Process.tick_in registry placedPrimitives
                                  sectorState seed h))))) as [H2 _].
    rewrite H1, H2. reflexivity.
  - destruct (ProcessFacts.tick_in_framed registry placedPrimitives sectorState
                seed h) as [_ H]. eexists. exact H.
  - destruct (ProcessFacts.tick_in_framed CAPABILITIES placedPrimitives
                sectorState seed h) as [H _].
    rewrite H. apply ProcessFacts.tick_in_alone.
Qed.

(** ** The light strip ticked alone *)

(** For a primitive declaring exactly AESTHETIC, LIGHTING and
    WAYFINDING, in whatever order, every output field receives at most
    one contribution. *)
Lemma tick_strip_fields {A : Arith} (p : Primitive) st seed :
  Permutation (capabilities p) ["AESTHETIC"; "LIGHTING"; "WAYFINDING"] ->
  tick [p] st seed =
  Return {| power_delta := zero;
            power_consumed := add zero (power_consumption (sim p));
            light_level_delta :=
              add zero (if ltb zero (power_consumption (sim p)) then one else zero);
            morale_delta := add zero tenth;
            visibility_score_delta := add zero (visibility_score (sim p)) |}.
Proof.
  intros H. rewrite tick_spec.
  unfold first_unregistered, apply_primitive, contributions. simpl.
  pose proof (Permutation_length H) as Hlen.
  destruct (capabilities p) as [| a [| b [| c [| d l]]]]; try discriminate Hlen.
  assert (Ha : In a ["AESTHETIC"; "LIGHTING"; "WAYFINDING"])
    by (apply (Permutation_in _ H); simpl; auto).
  assert (Hb : In b ["AESTHETIC"; "LIGHTING"; "WAYFINDING"])
    by (apply (Permutation_in _ H); simpl; auto).
  assert (Hc : In c ["AESTHETIC"; "LIGHTING"; "WAYFINDING"])
    by (apply (Permutation_in _ H); simpl; auto).
  apply Permutation_sym in H.
  pose proof (Permutation_in "AESTHETIC" H (or_introl eq_refl)) as H1.
  pose proof (Permutation_in "LIGHTING" H (or_intror (or_introl eq_refl))) as H2.
  pose proof (Permutation_in "WAYFINDING" H
                (or_intror (or_intror (or_introl eq_refl)))) as H3.
  simpl in Ha, Hb, Hc.
  destruct Ha as [<- | [<- | [<- | []]]];
    destruct Hb as [<- | [<- | [<- | []]]];
    destruct Hc as [<- | [<- | [<- | []]]];
    simpl in H1, H2, H3;
    first [ reflexivity
          | exfalso; clear - H1; intuition discriminate
          | exfalso; clear - H2; intuition discriminate
          | exfalso; clear - H3; intuition discriminate ].
Qed.

(** C2.  A primitive with no generation, consumption [c > 0] and
    visibility [v > 0] that declares AESTHETIC, LIGHTING and WAYFINDING,
    ticked alone, yields power_delta 0, power_consumed [c],
    light_level_delta 1.0, morale_delta 0.1 and visibility_score_delta
    [v], for every sector state and seed. *)
Theorem tick_light_strip_alone
        (p : Primitive (A := F64.arith)) (c v : F64.number)
        (st : SectorState (A := F64.arith)) (seed : Z) :
  power_generation (sim p) = F64.pos_zero ->
  power_consumption (sim p) = c -> F64.flt F64.pos_zero c = true ->
  visibility_score (sim p) = v -> F64.flt F64.pos_zero v = true ->
  Permutation (capabilities p) ["AESTHETIC"; "LIGHTING"; "WAYFINDING"] ->
  tick [p] st seed =
  Return ({| power_delta := (F64.pos_zero : @num F64.arith);
             power_consumed := c;
             light_level_delta := F64.of_int 1;
             morale_delta := F64.lit_0_1;
             visibility_score_delta := v |} : TickOutput (A := F64.arith)).
Proof.
  intros _ Hc Hcpos Hv Hvpos Hcaps.
  rewrite (tick_strip_fields p st seed Hcaps). rewrite Hc, Hv.
  change (@ltb F64.arith) with F64.flt. change (@add F64.arith) with F64.fadd.
  change (@zero F64.arith) with F64.pos_zero.
  rewrite Hcpos, (F64Facts.add_zero_positive c Hcpos), (F64Facts.add_zero_positive v Hvpos).
  reflexivity.
Qed.

Lemma tick_light_strip_alone_witness :
  tick [Fixtures.neon] Fixtures.sectorState 42 =
  Return ({| power_delta := (F64.pos_zero : @num F64.arith);
             power_consumed := F64.of_int 5;
             light_level_delta := F64.of_int 1;
             morale_delta := F64.lit_0_1;
             visibility_score_delta := F64.of_int 2 |}
          : TickOutput (A := F64.arith)).
Proof.
  apply tick_light_strip_alone; reflexivity.
Defined.

(** ** An unregistered capability *)

(** C3.  The code at an input on which it departs from the claim.  The
    relay declares the one capability ["toString"], a name outside the
    registry.  The read [CAPABILITIES["toString"]] finds the member that
    every object literal inherits from [Object.prototype], which passes
    the guard [if (!cap)]; the call of its missing [tick] then raises a
    [TypeError].  [tick] hands no output back, but what it throws is not
    the error for an unknown capability, which the same call raises for
    the name ["TELEPORT"]. *)
Theorem tick_inherited_name_type_error :
  registered "toString" = false /\
  CAPABILITIES (A := F64.arith) "toString" = Inherited /\
  tick [Fixtures.relay] Fixtures.sectorState 42 =
    Throw (TypeError "cap.tick is not a function") /\
  tick [Fixtures.relay] Fixtures.sectorState 42 <>
    Throw (Error "Unknown capability: toString") /\
  tick [Fixtures.corrupt] Fixtures.sectorState 42 =
    Throw (Error "Unknown capability: TELEPORT").
Proof.
  split; [reflexivity |]. split; [reflexivity |]. split; [reflexivity |].
  split; [discriminate | reflexivity].
Qed.

(** ** Placing [k] copies of one primitive *)

Lemma first_unregistered_repeat {A : Arith} (p : Primitive) (k : nat) :
  first_unregistered (repeat p k) =
  match k with
  | O => None
  | S _ => find (fun n => negb (registered n)) (capabilities p)
  end.
Proof.
  unfold first_unregistered. induction k as [| k IH]; simpl; [reflexivity |].
  rewrite find_app. destruct (find _ (capabilities p)) eqn:Hf; [reflexivity |].
  rewrite IH. destruct k; reflexivity.
Qed.

(** The copies throw what one copy throws. *)
Lemma tick_copies_throw {A : Arith} (p : Primitive) st seed (k : nat) e :
  (1 <= k)%nat ->
  tick [p] st seed = Throw e -> tick (repeat p k) st seed = Throw e.
Proof.
  intros Hk. rewrite !tick_spec. change [p] with (repeat p 1).
  rewrite !first_unregistered_repeat.
  destruct k as [| k]; [inversion Hk |].
  destruct (find _ (capabilities p)); [intros H; exact H | discriminate].
Qed.

(** An integer total of [k] copies is [k] times the total of one. *)
Lemma scaled_total (f : Whole.Entry -> Z) (w : Whole.Entry) (k : nat) :
  (1 <= k)%nat ->
  Z.of_nat k * Whole.weight w < 2 ^ 53 ->
  Z.abs (f w) <= Whole.weight w ->
  F64.of_int (Whole.sum f (repeat w k)) =
  F64.fmul (F64.of_int (Z.of_nat k)) (F64.of_int (Whole.sum f [w])).
Proof.
  intros Hk Hb Hf. pose proof (WholeFacts.weight_pos w) as Hw.
  rewrite WholeFacts.sum_repeat.
  replace (Whole.sum f [w]) with (f w) by (cbn; lia).
  symmetry. apply IntegerFacts.fmul_int; unfold Integers.small; nia.
Qed.

(** C4, as amended.  Ticking [k >= 1] copies of a primitive throws what
    ticking one copy throws.  When the [sim] block of the primitive
    holds integers and [k] times its weight (its readings, once for the
    primitive and once for each capability it declares) is below 2^53,
    the fields [power_delta], [power_consumed], [light_level_delta] and
    [visibility_score_delta] of the [k] copies are exactly [k] times
    those of one copy, in binary64.  [morale_delta] is a run of
    additions of 0.1, one for each declaration of AESTHETIC, which is
    [k] times the morale of one copy when the primitive declares none;
    otherwise it can differ from the product by rounding. *)
Theorem tick_copies (k : nat) :
  (1 <= k)%nat ->
  (forall (A : Arith) (p : Primitive) (st : SectorState) (seed : Z) (e : JsError),
      tick [p] st seed = Throw e -> tick (repeat p k) st seed = Throw e) /\
  (forall (w : Whole.Entry) (st : SectorState (A := F64.arith)) (seed : Z)
          (o1 : TickOutput (A := F64.arith)),
      Z.of_nat k * Whole.weight w < 2 ^ 53 ->
      tick [Whole.primitive w] st seed = Return o1 ->
      exists ok : TickOutput (A := F64.arith),
        tick (repeat (Whole.primitive w) k) st seed = Return ok /\
        power_delta ok = F64.fmul (F64.of_int (Z.of_nat k)) (power_delta o1) /\
        power_consumed ok =
          F64.fmul (F64.of_int (Z.of_nat k)) (power_consumed o1) /\
        light_level_delta ok =
          F64.fmul (F64.of_int (Z.of_nat k)) (light_level_delta o1) /\
        visibility_score_delta ok =
          F64.fmul (F64.of_int (Z.of_nat k)) (visibility_score_delta o1) /\
        morale_delta o1 =
          Ledger.total (repeat (@tenth F64.arith) (Whole.count "AESTHETIC" w)) /\
        morale_delta ok =
          Ledger.total
            (repeat (@tenth F64.arith) (k * Whole.count "AESTHETIC" w)) /\
        (Whole.count "AESTHETIC" w = 0%nat ->
         morale_delta ok =
           F64.fmul (F64.of_int (Z.of_nat k)) (morale_delta o1))).
Proof.
  intros Hk. split.
  - intros A p st seed e. apply tick_copies_throw, Hk.
  - intros w st seed o1 Hb H1.
    pose proof (WholeFacts.weight_pos w) as Hw.
    assert (Hm1 : Whole.magnitude [w] < 2 ^ 53) by (cbn; nia).
    assert (Hmk : Whole.magnitude (repeat w k) < 2 ^ 53)
      by (unfold Whole.magnitude; rewrite WholeFacts.sum_repeat; exact Hb).
    change [Whole.primitive w] with (map Whole.primitive [w]) in H1.
    rewrite (WholeFacts.tick_whole [w] st seed Hm1) in H1.
    change (map Whole.primitive [w]) with (repeat (Whole.primitive w) 1) in H1.
    rewrite first_unregistered_repeat in H1.
    exists (Whole.output (repeat w k)).
    rewrite <- (WholeFacts.map_repeat Whole.primitive w k).
    rewrite (WholeFacts.tick_whole (repeat w k) st seed Hmk).
    rewrite (WholeFacts.map_repeat Whole.primitive w k), first_unregistered_repeat.
    destruct k as [| k']; [inversion Hk |]. set (k := S k') in *.
    destruct (find _ (capabilities (Whole.primitive w))); [discriminate H1 |].
    injection H1 as <-.
    assert (Hd1 : Whole.decorations [w] = Whole.count "AESTHETIC" w)
      by (unfold Whole.decorations; cbn [Whole.sum fold_right]; lia).
    assert (Hdk : Whole.decorations (repeat w k)
                  = (k * Whole.count "AESTHETIC" w)%nat)
      by (unfold Whole.decorations; rewrite WholeFacts.sum_repeat; lia).
    unfold Whole.output.
    cbn [power_delta power_consumed light_level_delta morale_delta
         visibility_score_delta].
    rewrite Hd1, Hdk.
    split; [reflexivity |].
    split; [apply scaled_total; [exact Hk | exact Hb |];
            apply WholeFacts.counted_bound; unfold Whole.reading; lia |].
    split; [apply scaled_total; [exact Hk | exact Hb |];
            pose proof (WholeFacts.weight_reading w);
            unfold Whole.reading in *; lia |].
    split; [apply scaled_total; [exact Hk | exact Hb |];
            apply (WholeFacts.counted_bound "LIGHTING"
                     (fun e => if 0 <? Whole.consumption e then 1 else 0));
            unfold Whole.reading; destruct (0 <? Whole.consumption w); lia |].
    split; [apply scaled_total; [exact Hk | exact Hb |];
            apply WholeFacts.counted_bound; unfold Whole.reading; lia |].
    split; [reflexivity |]. split; [reflexivity |].
    intros H0. rewrite H0, Nat.mul_0_r. cbn [repeat].
    change (Ledger.total (A := F64.arith) []) with (F64.of_int 0).
    symmetry. apply IntegerFacts.fmul_int; unfold Integers.small; cbn; lia.
Qed.

Lemma tick_copies_witness :
  exists ok : TickOutput (A := F64.arith),
    tick (repeat (Whole.primitive Fixtures.strip) 3) Fixtures.sectorState 42
      = Return ok /\
    power_delta ok = F64.fmul (F64.of_int 3) (F64.of_int 0) /\
    power_consumed ok = F64.fmul (F64.of_int 3) (F64.of_int 5) /\
    light_level_delta ok = F64.fmul (F64.of_int 3) (F64.of_int 1) /\
    visibility_score_delta ok = F64.fmul (F64.of_int 3) (F64.of_int 2).
Proof.
  destruct (proj2 (@tick_copies 3%nat (le_S _ _ (le_S _ _ (le_n 1%nat))))
              Fixtures.strip Fixtures.sectorState 42
              (Whole.output [Fixtures.strip]) eq_refl eq_refl)
    as [ok [H [H1 [H2 [H3 [H4 _]]]]]].
  exists ok. repeat split; assumption.
Defined.

(** C4, as stated, fails in binary64: six decorative primitives yield
    morale 0.6, the sum of six roundings, and one yields 0.1, whose
    product with 6 is 0.6000000000000001.  The fields that add up [sim]
    values fail in the same way when the values are fractions: six
    heaters that consume 0.1 each consume 0.6 together, not 6 times
    0.1. *)
Lemma tick_copies_not_exact_multiple :
  let o1 : TickOutput (A := F64.arith) :=
    {| power_delta := (F64.pos_zero : @num F64.arith);
       power_consumed := F64.pos_zero;
       light_level_delta := F64.pos_zero;
       morale_delta := F64.lit_0_1;
       visibility_score_delta := F64.pos_zero |} in
  let o6 : TickOutput (A := F64.arith) :=
    {| power_delta := (F64.pos_zero : @num F64.arith);
       power_consumed := F64.pos_zero;
       light_level_delta := F64.pos_zero;
       morale_delta := Floats.SpecFloat.S754_finite false 5404319552844595 (-53);
       visibility_score_delta := F64.pos_zero |} in
  tick [Fixtures.statue] Fixtures.sectorState 42 = Return o1 /\
  tick (repeat Fixtures.statue 6) Fixtures.sectorState 42 = Return o6 /\
  F64.fmul (F64.of_int 6) (morale_delta o1)
    = Floats.SpecFloat.S754_finite false 5404319552844596 (-53) /\
  morale_delta o6 <> F64.fmul (F64.of_int 6) (morale_delta o1) /\
  (let h1 : TickOutput (A := F64.arith) :=
     {| power_delta := (F64.pos_zero : @num F64.arith);
        power_consumed := F64.lit_0_1;
        light_level_delta := F64.pos_zero;
        morale_delta := F64.pos_zero;
        visibility_score_delta := F64.pos_zero |} in
   let h6 : TickOutput (A := F64.arith) :=
     {| power_delta := (F64.pos_zero : @num F64.arith);
        power_consumed :=
          Floats.SpecFloat.S754_finite false 5404319552844595 (-53);
        light_level_delta := F64.pos_zero;
        morale_delta := F64.pos_zero;
        visibility_score_delta := F64.pos_zero |} in
   tick [Fixtures.heater] Fixtures.sectorState 42 = Return h1 /\
   tick (repeat Fixtures.heater 6) Fixtures.sectorState 42 = Return h6 /\
   power_consumed h6 <> F64.fmul (F64.of_int 6) (power_consumed h1)).
Proof.
  cbv zeta. split; [reflexivity |]. split; [reflexivity |].
  split; [reflexivity |]. split; [cbn [morale_delta]; discriminate |].
  split; [reflexivity |]. split; [reflexivity |].
  cbn [power_consumed]. discriminate.
Qed.
End EngineClaims.

(** ** Route planner *)

Module PlannerClaims.
Import F64 Planner.

Lemma fold_left_map {T U V} (f : V -> U -> V) (g : T -> U) (xs : list T) (v : V) :
  fold_left (fun acc x => f acc (g x)) xs v = fold_left f (map g xs) v.
Proof.
  revert v. induction xs as [| x xs IH]; intros v; simpl; [reflexivity | apply IH].
Qed.

Lemma find_in_some zone pred s :
  find_in zone pred = Some s ->
  exists z, zone = Some z /\ In s (JsMap.values z) /\ pred s = true.
Proof.
  unfold find_in. destruct zone as [z |]; [| discriminate].
  intros H. apply find_some in H. exists z. tauto.
Qed.

(** A refinery that was selected and declares its output types has an
    output type to hand to step 4. *)
Lemma refinery_output_returns r resourceType outs :
  is_refinery_for resourceType r = true ->
  outputTypes r = Some outs ->
  exists ot, refinery_output r resourceType = Return ot.
Proof.
  unfold is_refinery_for, refinery_output. intros H Ho. rewrite Ho.
  destruct (inputTypes r) as [ins |].
  - destruct (0 <=? indexOf ins resourceType);
      [destruct (indexOf ins resourceType <? _) |]; eexists; reflexivity.
  - rewrite andb_false_r in H. discriminate H.
Qed.

(** The throughput of every plan that [planRoute] returns, for a
    controller with an intake dock. *)
Lemma planRoute_returned this resourceType dock res :
  intake_dock this = Some dock ->
  planRoute this resourceType = Return res ->
  Result.throughput res = clamped_throughput this dock.
Proof.
  unfold intake_dock, planRoute, clamped_throughput, clamp_all, conveyor_clamp,
    outbound_clamp, bandwidth_clamps, intake_conveyor, outbound_dock.
  intros Hd. rewrite Hd.
  set (conveyor := find_in _ (is_conveyor_from dock)).
  set (outDock := find_in (JsMap.get "distribution-zone" _) is_dock).
  set (stored := match JsMap.get "storage-zone" (zones this) with
                 | Some _ => _ | None => _ end).
  destruct stored as [route | e]; [| discriminate].
  intros H. injection H as <-. cbn [Result.throughput].
  rewrite fold_left_map. cbn [fold_left].
  rewrite !fold_left_app.
  destruct conveyor, outDock; reflexivity.
Qed.

(** [planRoute] returns when the refineries are well formed. *)
Lemma planRoute_returns this resourceType :
  refineries_declare_outputs this = true ->
  exists res, planRoute this resourceType = Return res.
Proof.
  unfold refineries_declare_outputs, planRoute. intros Hwf.
  destruct (find_in (JsMap.get "intake-zone" (zones this)) is_dock) as [dock |];
    [| eexists; reflexivity].
  destruct (find_in (JsMap.get "processing-zone" (zones this))
                    (is_refinery_for resourceType)) as [r |] eqn:Hr.
  - destruct (find_in_some _ _ Hr) as [z [Hz [Hin Hpred]]].
    rewrite Hz in Hwf. rewrite forallb_forall in Hwf.
    specialize (Hwf r Hin).
    assert (Ht : String.eqb (type r) "refinery" = true).
    { unfold is_refinery_for in Hpred. apply andb_true_iff in Hpred. tauto. }
    rewrite Ht in Hwf. simpl in Hwf.
    destruct (outputTypes r) as [outs |] eqn:Ho; [| discriminate Hwf].
    destruct (refinery_output_returns r resourceType Hpred Ho) as [ot Hot].
    rewrite Hot.
    destruct (JsMap.get "storage-zone" (zones this)) as [sz |];
      [destruct (find (is_store_of ot) (JsMap.values sz)) |]; eexists; reflexivity.
  - destruct (JsMap.get "storage-zone" (zones this)) as [sz |];
      [destruct (find (is_store_of (Some resourceType)) (JsMap.values sz)) |];
      eexists; reflexivity.
Qed.

(** C5, as amended.  For a blueprint whose intake zone holds a dock,
    every plan that [planRoute] returns has as throughput the [Math.min],
    starting from +infinity, of the intake dock's own throughput, the
    rate of the conveyor sourced from that dock (when there is one), the
    distribution dock's throughput (when there is one) and the bandwidth
    of every connection of the blueprint; and [planRoute] does return a
    plan when every refinery declares its output types. *)
Theorem planRoute_throughput (bp : Blueprint) (resourceType : string)
        (dock : Structure) :
  intake_dock (_index bp) = Some dock ->
  (forall res, planRoute (_index bp) resourceType = Return res ->
               Result.throughput res = clamped_throughput (_index bp) dock) /\
  (refineries_declare_outputs (_index bp) = true ->
   exists route,
     planRoute (_index bp) resourceType =
     Return {| Result.route := route;
               Result.throughput := clamped_throughput (_index bp) dock |}).
Proof.
  intros Hd. split.
  - intros res. apply planRoute_returned, Hd.
  - intros Hwf.
    destruct (planRoute_returns (_index bp) resourceType Hwf) as [res Hres].
    exists (Result.route res). rewrite Hres.
    rewrite <- (planRoute_returned (_index bp) resourceType Hd Hres).
    destruct res; reflexivity.
Qed.

Lemma planRoute_throughput_witness :
  exists route,
    planRoute (_index Fixtures.blueprint) "raw-ore" =
    Return {| Result.route := route;
              Result.throughput :=
                clamped_throughput (_index Fixtures.blueprint)
                                   Fixtures.intake_dock_1 |}.
Proof.
  apply (proj2 (planRoute_throughput Fixtures.blueprint "raw-ore"
                  (dock := Fixtures.intake_dock_1) eq_refl)).
  reflexivity.
Defined.

(** C5, as stated, fails: with an intake dock of throughput 60 in front
    of a conveyor of rate 80, an outbound dock of 90 and connections of
    100 and more, the plan's throughput is 60, below the minimum of the
    stages the statement lists, which is 80. *)
Lemma planRoute_clamps_by_intake_dock :
  intake_dock (_index Fixtures.blueprint) = Some Fixtures.intake_dock_1 /\
  planRoute (_index Fixtures.blueprint) "raw-ore" =
    Return {| Result.route := ["intake-dock-1"; "conveyor-1"; "refinery-primary";
                               "silo-refined"; "outbound-dock-1"];
              Result.throughput := of_int 60 |} /\
  stated_throughput (_index Fixtures.blueprint) Fixtures.intake_dock_1 = of_int 80 /\
  of_int 60 <> of_int 80.
Proof.
  split; [| split; [| split]]; try (vm_compute; reflexivity).
  vm_compute. discriminate.
Qed.
End PlannerClaims.

(** ** Structure lifecycle *)

Module StructuresClaims.
Import Structures JsMapFacts.
Import Integers IntegerFacts Lifecycle CountdownFacts.

Lemma lookup_assign id id' f this :
  lookup id (final (assign id' f this)) =
  if String.eqb id' id then option_map f (lookup id this) else lookup id this.
Proof. unfold lookup, assign, modify, final. simpl. apply get_update_cases. Qed.

Lemma lookup_tick id this :
  lookup id (final (tick this)) = option_map tick_structure (lookup id this).
Proof. unfold lookup, tick, modify, final. simpl. apply get_map_values. Qed.

Lemma lookup_ticks id (n : nat) this :
  lookup id (ticks n this) = option_map (Nat.iter n tick_structure) (lookup id this).
Proof.
  unfold ticks. induction n as [| n IH].
  - simpl. destruct (lookup id this); reflexivity.
  - change (Nat.iter (S n) ?f ?x) with (f (Nat.iter n f x)). cbv beta.
    rewrite lookup_tick, IH.
    destruct (lookup id this); reflexivity.
Qed.

(** What each method does to a controller on which it does not throw. *)
Lemma register_fresh id tier this :
  lookup id this = None ->
  register id tier this =
  (Return tt,
   {| structures :=
        JsMap.set id {| state := PLANNED;
                        tier := match tier with
                                | Some t => t
                                | None => F64.of_int 1
                                end;
                        ticksRemaining := F64.pos_zero |} (structures this) |}).
Proof.
  unfold lookup, register, bind, get, JsMap.has. intros H. simpl. rewrite H.
  reflexivity.
Qed.

Lemma startBuild_planned id n this s :
  lookup id this = Some s -> state s = PLANNED ->
  startBuild id n this =
  (Return tt,
   {| structures :=
        JsMap.update id (set_ticksRemaining n)
          (JsMap.update id (set_state BUILDING) (structures this)) |}).
Proof.
  unfold lookup, startBuild, _get, bind, get. intros H Hs. simpl.
  rewrite H. simpl. rewrite Hs. reflexivity.
Qed.

Lemma startUpgrade_operational id n this s :
  lookup id this = Some s -> state s = OPERATIONAL ->
  startUpgrade id n this =
  (Return tt,
   {| structures :=
        JsMap.update id (set_ticksRemaining n)
          (JsMap.update id (set_state UPGRADING) (structures this)) |}).
Proof.
  unfold lookup, startUpgrade, _get, bind, get. intros H Hs. simpl.
  rewrite H. simpl. rewrite Hs. reflexivity.
Qed.

Lemma decommission_registered id this s :
  lookup id this = Some s ->
  decommission id this =
  (Return tt,
   {| structures :=
        JsMap.update id (set_ticksRemaining F64.pos_zero)
          (JsMap.update id (set_state DECOMMISSIONED) (structures this)) |}).
Proof.
  unfold lookup, decommission, _get, bind, get. intros H. simpl.
  rewrite H. reflexivity.
Qed.

(** The loop body of [tick], by cases on the countdown. *)
Lemma tick_structure_cases s :
  (in_progress s = false /\ tick_structure s = s) \/
  (in_progress s = true /\
   F64.strict_equal (countdown (ticksRemaining s)) F64.pos_zero = false /\
   tick_structure s = set_ticksRemaining (countdown (ticksRemaining s)) s) \/
  (in_progress s = true /\
   F64.strict_equal (countdown (ticksRemaining s)) F64.pos_zero = true /\
   tick_structure s =
   {| state := OPERATIONAL;
      tier := if state_eqb (state s) UPGRADING
              then F64.fadd (tier s) (F64.of_int 1) else tier s;
      ticksRemaining := F64.pos_zero |}).
Proof.
  unfold in_progress, tick_structure.
  destruct (state_eqb (state s) BUILDING || state_eqb (state s) UPGRADING);
    [right | left; split; reflexivity].
  cbn [set_ticksRemaining ticksRemaining state tier].
  fold (countdown (ticksRemaining s)).
  destruct (F64.strict_equal (countdown (ticksRemaining s)) F64.pos_zero) eqn:E.
  - right. repeat split.
    rewrite (countdown_zero _ E).
    destruct (state_eqb (state s) UPGRADING); reflexivity.
  - left. repeat split.
Qed.

(** One tick of a countdown that holds the integer [r]. *)
Lemma tick_structure_int s (r : Z) :
  in_progress s = true -> ticksRemaining s = F64.of_int r ->
  small r -> small (r - 1) ->
  tick_structure s =
  if 1 <? r
  then set_ticksRemaining (F64.of_int (r - 1)) s
  else {| state := OPERATIONAL;
          tier := if state_eqb (state s) UPGRADING
                  then F64.fadd (tier s) (F64.of_int 1) else tier s;
          ticksRemaining := F64.pos_zero |}.
Proof.
  intros Hp Hr Hs Hs1.
  assert (Hc : countdown (ticksRemaining s) = F64.of_int (Z.max 0 (r - 1)))
    by (rewrite Hr; apply countdown_int; assumption).
  assert (Hz : F64.strict_equal (countdown (ticksRemaining s)) F64.pos_zero
               = (Z.max 0 (r - 1) =? 0))
    by (rewrite Hc; apply is_zero_int; unfold small in *; lia).
  destruct (tick_structure_cases s) as [[Hq _] | [[_ [E ->]] | [_ [E ->]]]].
  - congruence.
  - rewrite Hz in E. apply Z.eqb_neq in E.
    destruct (Z.ltb_spec 1 r); [| lia].
    rewrite Hc. replace (Z.max 0 (r - 1)) with (r - 1) by lia. reflexivity.
  - rewrite Hz in E. apply Z.eqb_eq in E.
    destruct (Z.ltb_spec 1 r); [lia | reflexivity].
Qed.

(** The countdown of a structure under construction or upgrade: [j]
    ticks into a countdown of [r >= 1], with [j < r], it is still in
    progress with [r - j] ticks remaining. *)
Lemma iter_in_progress s (r : Z) (j : nat) :
  in_progress s = true -> ticksRemaining s = F64.of_int r ->
  small r -> small (r - 1) ->
  Z.of_nat j < Z.max 1 r ->
  Nat.iter j tick_structure s =
  set_ticksRemaining (F64.of_int (r - Z.of_nat j)) s.
Proof.
  intros Hp Hr Hs Hs1. induction j as [| j IH]; intros Hj.
  - replace (r - Z.of_nat 0) with r by lia. rewrite <- Hr.
    destruct s. reflexivity.
  - change (Nat.iter (S j) ?f ?x) with (f (Nat.iter j f x)).
    rewrite IH by lia.
    rewrite (@tick_structure_int
               (set_ticksRemaining (F64.of_int (r - Z.of_nat j)) s)
               (r - Z.of_nat j) Hp eq_refl)
      by (unfold small in *; lia).
    destruct (Z.ltb_spec 1 (r - Z.of_nat j)); [| lia].
    replace (r - Z.of_nat (S j)) with (r - Z.of_nat j - 1) by lia.
    reflexivity.
Qed.

Lemma iter_at_rest s (k : nat) :
  in_progress s = false -> Nat.iter k tick_structure s = s.
Proof.
  intros Hp. induction k as [| k IH]; [reflexivity |].
  change (Nat.iter (S k) ?f ?x) with (f (Nat.iter k f x)). rewrite IH.
  destruct (tick_structure_cases s) as [[_ H] | [[Hq _] | [Hq _]]];
    [exact H | congruence | congruence].
Qed.

(** It completes on tick number [max(1, r)] and stays completed. *)
Lemma iter_completes s (r : Z) (k : nat) :
  in_progress s = true -> ticksRemaining s = F64.of_int r ->
  small r -> small (r - 1) ->
  Z.max 1 r <= Z.of_nat k ->
  Nat.iter k tick_structure s =
  {| state := OPERATIONAL;
     tier := if state_eqb (state s) UPGRADING
             then F64.fadd (tier s) (F64.of_int 1) else tier s;
     ticksRemaining := F64.pos_zero |}.
Proof.
  intros Hp Hr Hs Hs1 Hk.
  set (n := Z.to_nat (Z.max 1 r - 1)).
  replace k with ((k - S n) + S n)%nat by lia.
  rewrite Nat.iter_add.
  change (Nat.iter (S n) ?f ?x) with (f (Nat.iter n f x)).
  rewrite (@iter_in_progress s r n Hp Hr Hs Hs1) by lia.
  rewrite (@tick_structure_int
             (set_ticksRemaining (F64.of_int (r - Z.of_nat n)) s)
             (r - Z.of_nat n) Hp eq_refl)
    by (unfold small in *; lia).
  destruct (Z.ltb_spec 1 (r - Z.of_nat n)); [lia |].
  cbn [set_ticksRemaining state tier]. apply iter_at_rest. reflexivity.
Qed.

Lemma small_count (n : nat) : Z.of_nat n < 2 ^ 53 -> small (Z.of_nat n).
Proof. unfold small. lia. Qed.

Lemma small_count_pred (n : nat) : Z.of_nat n < 2 ^ 53 -> small (Z.of_nat n - 1).
Proof. unfold small. lia. Qed.

(** C6, as amended.  Numbers are binary64.  For a fresh id and an
    integer [n] with [1 <= n < 2^53]: [register] leaves the facility
    PLANNED, [startBuild id n] makes it BUILDING with [n] ticks
    remaining, after [j < n] ticks it is still BUILDING with [n - j]
    remaining, and after the [n]-th tick it is OPERATIONAL with none
    remaining and its tier unchanged.  For an OPERATIONAL facility of
    tier [t] and an integer [m] with [1 <= m < 2^53]:
    [startUpgrade id m] makes it UPGRADING, it stays so for [j < m]
    ticks, and after the [m]-th tick it is OPERATIONAL at the tier that
    [t + 1] evaluates to, which is the integer [t + 1] when [t] is an
    integer with [-2^53 < t < 2^53 - 1].  The number written [of_int z]
    holds the integer [z] whenever [|z| < 2^53]. *)
Theorem lifecycle_build_then_upgrade :
  (forall (this : StructureController) (id : string)
          (tier0 : option F64.number) (n : nat),
      lookup id this = None -> (1 <= n)%nat -> Z.of_nat n < 2 ^ 53 ->
      let t := match tier0 with Some t => t | None => F64.of_int 1 end in
      let registered := final (register id tier0 this) in
      let building :=
        final (startBuild id (F64.of_int (Z.of_nat n)) registered) in
      completion (register id tier0 this) = Return tt /\
      lookup id registered =
        Some {| state := PLANNED; tier := t; ticksRemaining := F64.pos_zero |} /\
      completion (startBuild id (F64.of_int (Z.of_nat n)) registered)
        = Return tt /\
      lookup id building =
        Some {| state := BUILDING; tier := t;
                ticksRemaining := F64.of_int (Z.of_nat n) |} /\
      (forall j, (j < n)%nat ->
                 lookup id (ticks j building) =
                 Some {| state := BUILDING; tier := t;
                         ticksRemaining :=
                           F64.of_int (Z.of_nat n - Z.of_nat j) |}) /\
      lookup id (ticks n building) =
        Some {| state := OPERATIONAL; tier := t;
                ticksRemaining := F64.pos_zero |}) /\
  (forall (this : StructureController) (id : string) (s : Structure) (m : nat),
      lookup id this = Some s -> state s = OPERATIONAL ->
      (1 <= m)%nat -> Z.of_nat m < 2 ^ 53 ->
      let upgrading := final (startUpgrade id (F64.of_int (Z.of_nat m)) this) in
      completion (startUpgrade id (F64.of_int (Z.of_nat m)) this) = Return tt /\
      lookup id upgrading =
        Some {| state := UPGRADING; tier := tier s;
                ticksRemaining := F64.of_int (Z.of_nat m) |} /\
      (forall j, (j < m)%nat ->
                 lookup id (ticks j upgrading) =
                 Some {| state := UPGRADING; tier := tier s;
                         ticksRemaining :=
                           F64.of_int (Z.of_nat m - Z.of_nat j) |}) /\
      lookup id (ticks m upgrading) =
        Some {| state := OPERATIONAL;
                tier := F64.fadd (tier s) (F64.of_int 1);
                ticksRemaining := F64.pos_zero |} /\
      (forall t : Z,
          - 2 ^ 53 < t < 2 ^ 53 - 1 -> tier s = F64.of_int t ->
          F64.fadd (tier s) (F64.of_int 1) = F64.of_int (t + 1))) /\
  (forall z : Z,
      Z.abs z < 2 ^ 53 -> integer_value (F64.of_int z) = Some z).
Proof.
  split; [| split].
  - intros this id tier0 n Hfresh Hn Hlt t registered building.
    assert (Hreg : lookup id registered =
                   Some {| state := PLANNED; tier := t;
                           ticksRemaining := F64.pos_zero |}).
    { unfold registered. rewrite (register_fresh id tier0 this Hfresh).
      unfold lookup, final. simpl. apply get_set_same. }
    assert (Hbuild : lookup id building =
              Some {| state := BUILDING; tier := t;
                      ticksRemaining := F64.of_int (Z.of_nat n) |}).
    { unfold building.
      rewrite (startBuild_planned id (F64.of_int (Z.of_nat n)) registered
                                  Hreg eq_refl).
      unfold lookup, final. cbn [snd structures]. rewrite !get_update_same.
      fold (lookup id registered). rewrite Hreg. reflexivity. }
    repeat split.
    + rewrite (register_fresh id tier0 this Hfresh). reflexivity.
    + exact Hreg.
    + rewrite (startBuild_planned id (F64.of_int (Z.of_nat n)) registered
                                  Hreg eq_refl).
      reflexivity.
    + exact Hbuild.
    + intros j Hj. rewrite lookup_ticks, Hbuild. cbn [option_map].
      rewrite (@iter_in_progress
                 {| state := BUILDING; tier := t;
                    ticksRemaining := F64.of_int (Z.of_nat n) |}
                 (Z.of_nat n) j eq_refl eq_refl
                 (small_count n Hlt) (small_count_pred n Hlt)) by lia.
      reflexivity.
    + rewrite lookup_ticks, Hbuild. cbn [option_map].
      rewrite (@iter_completes
                 {| state := BUILDING; tier := t;
                    ticksRemaining := F64.of_int (Z.of_nat n) |}
                 (Z.of_nat n) n eq_refl eq_refl
                 (small_count n Hlt) (small_count_pred n Hlt)) by lia.
      reflexivity.
  - intros this id s m Hs Hop Hm Hlt upgrading.
    assert (Hup : lookup id upgrading =
              Some {| state := UPGRADING; tier := tier s;
                      ticksRemaining := F64.of_int (Z.of_nat m) |}).
    { unfold upgrading.
      rewrite (startUpgrade_operational id (F64.of_int (Z.of_nat m)) this Hs Hop).
      unfold lookup, final. cbn [snd structures]. rewrite !get_update_same.
      fold (lookup id this). rewrite Hs. reflexivity. }
    repeat split.
    + rewrite (startUpgrade_operational id (F64.of_int (Z.of_nat m)) this Hs Hop).
      reflexivity.
    + exact Hup.
    + intros j Hj. rewrite lookup_ticks, Hup. cbn [option_map].
      rewrite (@iter_in_progress
                 {| state := UPGRADING; tier := tier s;
                    ticksRemaining := F64.of_int (Z.of_nat m) |}
                 (Z.of_nat m) j eq_refl eq_refl
                 (small_count m Hlt) (small_count_pred m Hlt)) by lia.
      reflexivity.
    + rewrite lookup_ticks, Hup. cbn [option_map].
      rewrite (@iter_completes
                 {| state := UPGRADING; tier := tier s;
                    ticksRemaining := F64.of_int (Z.of_nat m) |}
                 (Z.of_nat m) m eq_refl eq_refl
                 (small_count m Hlt) (small_count_pred m Hlt)) by lia.
      reflexivity.
    + intros t Ht ->. apply next_tier_int; unfold small; lia.
  - apply integer_value_int.
Qed.

Lemma lifecycle_build_then_upgrade_witness :
  lookup "refinery-primary"
         (ticks 3 (final (startBuild "refinery-primary" (F64.of_int 3)
                            (final (register "refinery-primary"
                                             (Some (F64.of_int 2)) new))))) =
    Some {| state := OPERATIONAL; tier := F64.of_int 2;
            ticksRemaining := F64.pos_zero |} /\
  lookup "refinery-primary"
         (ticks 2 (final (startUpgrade "refinery-primary" (F64.of_int 2)
            (ticks 3 (final (startBuild "refinery-primary" (F64.of_int 3)
                               (final (register "refinery-primary"
                                                (Some (F64.of_int 2)) new)))))))) =
    Some {| state := OPERATIONAL;
            tier := F64.fadd (F64.of_int 2) (F64.of_int 1);
            ticksRemaining := F64.pos_zero |}.
Proof.
  split.
  - apply (proj1 lifecycle_build_then_upgrade new "refinery-primary"
                 (Some (F64.of_int 2)) 3%nat
                 eq_refl (le_S _ _ (le_S _ _ (le_n 1%nat))) eq_refl).
  - apply (proj1 (proj2 lifecycle_build_then_upgrade)
                 (ticks 3 (final (startBuild "refinery-primary" (F64.of_int 3)
                    (final (register "refinery-primary"
                                     (Some (F64.of_int 2)) new)))))
                 "refinery-primary"
                 {| state := OPERATIONAL; tier := F64.of_int 2;
                    ticksRemaining := F64.pos_zero |} 2%nat
                 eq_refl eq_refl (le_S _ _ (le_n 1%nat)) eq_refl).
Defined.

(** C6, as stated, fails past 2^53, where a JavaScript number no longer
    counts by one.  An upgrade of a facility of tier 2^53 completes at
    tier 2^53: [s.tier += 1] rounds back to the tier it started from.
    And a build of [n = 2^53 + 2] ticks has 2^53 ticks remaining after
    the first tick, not [n - 1], and is OPERATIONAL after [n - 1] ticks,
    one tick early. *)
Lemma lifecycle_fails_past_2_53 :
  (let t := F64.of_int (2 ^ 53) in
   let operational :=
     ticks 1 (final (startBuild "vault" (F64.of_int 1)
                       (final (register "vault" (Some t) new)))) in
   let upgraded :=
     ticks 1 (final (startUpgrade "vault" (F64.of_int 1) operational)) in
   integer_value t = Some (2 ^ 53) /\
   lookup "vault" operational =
     Some {| state := OPERATIONAL; tier := t; ticksRemaining := F64.pos_zero |} /\
   lookup "vault" upgraded =
     Some {| state := OPERATIONAL; tier := t; ticksRemaining := F64.pos_zero |}) /\
  (let n := 2 ^ 53 + 2 in
   let building :=
     final (startBuild "vault" (F64.of_int n)
              (final (register "vault" None new))) in
   integer_value (F64.of_int n) = Some n /\
   lookup "vault" building =
     Some {| state := BUILDING; tier := F64.of_int 1;
             ticksRemaining := F64.of_int n |} /\
   option_map (fun s => (state s, integer_value (ticksRemaining s)))
              (lookup "vault" (ticks 1 building)) =
     Some (BUILDING, Some (n - 2)) /\
   option_map state (lookup "vault" (ticks (Z.to_nat (n - 1)) building)) =
     Some OPERATIONAL).
Proof.
  split.
  - cbv zeta. split; [reflexivity |]. split; reflexivity.
  - cbv zeta. split; [reflexivity |]. split; [reflexivity |].
    split; [reflexivity |].
    rewrite lookup_ticks.
    replace (Z.to_nat (2 ^ 53 + 2 - 1))
      with (Z.to_nat (2 ^ 53 - 1) + 2)%nat by lia.
    assert (Hb : lookup "vault"
                   (final (startBuild "vault" (F64.of_int (2 ^ 53 + 2))
                             (final (register "vault" None new)))) =
                 Some {| state := BUILDING; tier := F64.of_int 1;
                         ticksRemaining := F64.of_int (2 ^ 53 + 2) |})
      by reflexivity.
    rewrite Hb. cbn [option_map]. rewrite Nat.iter_add.
    assert (H2 : Nat.iter 2 tick_structure
                   {| state := BUILDING; tier := F64.of_int 1;
                      ticksRemaining := F64.of_int (2 ^ 53 + 2) |} =
                 {| state := BUILDING; tier := F64.of_int 1;
                    ticksRemaining := F64.of_int (2 ^ 53 - 1) |})
      by reflexivity.
    rewrite H2.
    rewrite (@iter_completes
               {| state := BUILDING; tier := F64.of_int 1;
                  ticksRemaining := F64.of_int (2 ^ 53 - 1) |}
               (2 ^ 53 - 1) (Z.to_nat (2 ^ 53 - 1))
               eq_refl eq_refl);
      [reflexivity | unfold small; lia | unfold small; lia | lia].
Qed.

(** ** Decommissioning *)

Lemma tick_structure_decommissioned s :
  state s = DECOMMISSIONED -> tick_structure s = s.
Proof. unfold tick_structure. intros ->. reflexivity. Qed.

(** No call moves a decommissioned structure. *)
Lemma call_keeps_decommissioned (c : Call) this id s :
  lookup id this = Some s ->
  state s = DECOMMISSIONED -> ticksRemaining s = F64.pos_zero ->
  lookup id (final (call c this)) = Some s.
Proof.
  intros Hs Hst Htk.
  destruct c as [id' t | id' n | id' n | id' | | id']; cbn [call].
  - unfold_method.
    destruct (JsMap.get id' (structures this)) eqn:Hg; cbn [snd]; [exact Hs |].
    unfold lookup. cbn [structures]. rewrite get_set_cases.
    destruct (String.eqb id' id) eqn:E; [| exact Hs].
    apply String.eqb_eq in E. subst id'. unfold lookup in Hs. congruence.
  - unfold_method.
    destruct (JsMap.get id' (structures this)) as [s' |] eqn:Hg; cbn [snd];
      [| exact Hs].
    destruct (state_eqb (state s') PLANNED) eqn:Hp; cbn [negb snd]; [| exact Hs].
    unfold lookup. cbn [structures]. rewrite !get_update_cases.
    destruct (String.eqb id' id) eqn:E; [| exact Hs].
    apply String.eqb_eq in E. subst id'. unfold lookup in Hs.
    rewrite Hs in Hg. injection Hg as <-. rewrite Hst in Hp. discriminate Hp.
  - unfold_method.
    destruct (JsMap.get id' (structures this)) as [s' |] eqn:Hg; cbn [snd];
      [| exact Hs].
    destruct (state_eqb (state s') OPERATIONAL) eqn:Hp; cbn [negb snd]; [| exact Hs].
    unfold lookup. cbn [structures]. rewrite !get_update_cases.
    destruct (String.eqb id' id) eqn:E; [| exact Hs].
    apply String.eqb_eq in E. subst id'. unfold lookup in Hs.
    rewrite Hs in Hg. injection Hg as <-. rewrite Hst in Hp. discriminate Hp.
  - unfold_method.
    destruct (JsMap.get id' (structures this)) as [s' |] eqn:Hg; cbn [snd];
      [| exact Hs].
    unfold lookup. cbn [structures]. rewrite !get_update_cases.
    destruct (String.eqb id' id) eqn:E; [| exact Hs].
    unfold lookup in Hs. rewrite Hs. cbn [option_map]. f_equal.
    destruct s as [st t tk]. cbn [state ticksRemaining] in Hst, Htk. subst.
    reflexivity.
  - rewrite lookup_tick, Hs. cbn [option_map]. f_equal.
    apply tick_structure_decommissioned, Hst.
  - unfold_method.
    destruct (JsMap.get id' (structures this)); exact Hs.
Qed.

Lemma run_keeps_decommissioned (calls : list Call) this id s :
  lookup id this = Some s ->
  state s = DECOMMISSIONED -> ticksRemaining s = F64.pos_zero ->
  lookup id (run calls this) = Some s.
Proof.
  unfold run. revert this.
  induction calls as [| c calls IH]; intros this Hs Hst Htk; cbn [fold_left].
  - exact Hs.
  - apply IH; [| exact Hst | exact Htk].
    apply call_keeps_decommissioned; assumption.
Qed.

(** C7.  [decommission] succeeds on every registered structure, whatever
    its state, and leaves it DECOMMISSIONED with no ticks remaining;
    after that no sequence of calls ([register], [startBuild],
    [startUpgrade], [decommission], [tick], [getState], on this or any
    other id) changes the structure again, and [startBuild] and
    [startUpgrade] on it throw, naming the state, and change nothing. *)
Theorem decommissioned_is_terminal
        (this : StructureController) (id : string) (s : Structure) :
  lookup id this = Some s ->
  let retired :=
    {| state := DECOMMISSIONED; tier := tier s;
       ticksRemaining := F64.pos_zero |} in
  completion (decommission id this) = Return tt /\
  lookup id (final (decommission id this)) = Some retired /\
  (forall calls : list Call,
      lookup id (run calls (final (decommission id this))) = Some retired) /\
  (forall (later : StructureController) (s' : Structure) (ticks : F64.number),
      lookup id later = Some s' -> state s' = DECOMMISSIONED ->
      startBuild id ticks later =
        (Throw (Error ("Cannot build " ++ id
                         ++ ": current state is decommissioned")), later) /\
      startUpgrade id ticks later =
        (Throw (Error ("Cannot upgrade " ++ id
                         ++ ": current state is decommissioned")), later)).
Proof.
  intros Hs retired.
  assert (Hdec : lookup id (final (decommission id this)) = Some retired).
  { rewrite (decommission_registered id this Hs). unfold lookup, final.
    cbn [snd structures]. rewrite !get_update_same.
    fold (lookup id this). rewrite Hs. reflexivity. }
  split; [| split; [| split]].
  - rewrite (decommission_registered id this Hs). reflexivity.
  - exact Hdec.
  - intros calls. apply run_keeps_decommissioned; [exact Hdec | reflexivity..].
  - intros later s' ticks Hl Hst. unfold lookup in Hl. split.
    + unfold_method. rewrite Hl, Hst. reflexivity.
    + unfold_method. rewrite Hl, Hst. reflexivity.
Qed.

Lemma decommissioned_is_terminal_witness :
  lookup "refinery-primary"
         (run [CallStartBuild "refinery-primary" (F64.of_int 3); CallTick;
               CallStartUpgrade "refinery-primary" (F64.of_int 2); CallTick;
               CallRegister "refinery-primary" None;
               CallDecommission "refinery-primary"]
              (final (decommission "refinery-primary" Fixtures.hub))) =
  Some {| state := DECOMMISSIONED; tier := F64.of_int 2;
          ticksRemaining := F64.pos_zero |}.
Proof.
  apply (proj1 (proj2 (proj2
           (decommissioned_is_terminal Fixtures.hub "refinery-primary"
              (s := {| state := PLANNED; tier := F64.of_int 2;
                       ticksRemaining := F64.pos_zero |})
              eq_refl)))).
Defined.

(** ** Failed calls *)

(** A call that throws leaves the controller as it found it. *)
Lemma structure_call_throw_unchanged (c : Call) this e :
  completion (call c this) = Throw e -> final (call c this) = this.
Proof.
  destruct c as [id t | id n | id n | id | | id]; cbn [call].
  - unfold_method.
    destruct (JsMap.get id (structures this)); cbn [fst snd];
      [reflexivity | discriminate].
  - unfold_method.
    destruct (JsMap.get id (structures this)) as [s |]; cbn [fst snd];
      [| reflexivity].
    destruct (state_eqb (state s) PLANNED); cbn [negb fst snd];
      [discriminate | reflexivity].
  - unfold_method.
    destruct (JsMap.get id (structures this)) as [s |]; cbn [fst snd];
      [| reflexivity].
    destruct (state_eqb (state s) OPERATIONAL); cbn [negb fst snd];
      [discriminate | reflexivity].
  - unfold_method.
    destruct (JsMap.get id (structures this)) as [s |]; cbn [fst snd];
      [discriminate | reflexivity].
  - discriminate.
  - unfold_method.
    destruct (JsMap.get id (structures this)); cbn [fst snd];
      [discriminate | reflexivity].
Qed.
End StructuresClaims.

(** ** Drone swarm *)

Module SwarmClaims.
Import Swarm JsMapFacts.

Section Generic.
Context {A : Arith}.

(** What [collect] does to a drone that is collecting. *)
Lemma collect_collecting (this : SwarmController) droneId (drone : Drone)
      (amount : num) :
  JsMap.get droneId (drones this) = Some drone ->
  state drone = collecting ->
  let actual := min amount (sub (cargoCapacity (spec this)) (cargo drone)) in
  let cargo' := add (cargo drone) actual in
  let full := leb (sub one (returnThreshold (spec this)))
                  (div cargo' (cargoCapacity (spec this))) in
  collect droneId amount this =
  (Return actual,
   {| config := config this;
      drones :=
        (if full then JsMap.update droneId (set_state returning) else fun m => m)
          (JsMap.update droneId (set_cargo cargo') (drones this));
      _nextDroneId := _nextDroneId this |}).
Proof.
  intros Hd Hst actual cargo' full. unfold_method. rewrite Hd, Hst.
  cbn [state_eqb state_string String.eqb Ascii.eqb Bool.eqb negb].
  cbv beta iota. unfold spec. cbn [config].
  fold (spec this). fold actual. fold cargo'. fold full.
  destruct full; reflexivity.
Qed.

(** The drone after a [collect] that completed. *)
Lemma collect_drone (this : SwarmController) droneId (drone : Drone)
      (amount : num) :
  JsMap.get droneId (drones this) = Some drone ->
  state drone = collecting ->
  let actual := min amount (sub (cargoCapacity (spec this)) (cargo drone)) in
  let cargo' := add (cargo drone) actual in
  let full := leb (sub one (returnThreshold (spec this)))
                  (div cargo' (cargoCapacity (spec this))) in
  JsMap.get droneId (drones (final (collect droneId amount this))) =
  Some {| cargo := cargo';
          position := position drone;
          state := if full then returning else collecting;
          routeId := routeId drone |}.
Proof.
  intros Hd Hst actual cargo' full.
  rewrite (collect_collecting this droneId amount Hd Hst).
  fold actual. fold cargo'. fold full. unfold final. cbn [snd drones].
  destruct full.
  - rewrite !get_update_same, Hd. cbn [option_map]. unfold set_state, set_cargo.
    reflexivity.
  - rewrite get_update_same, Hd. cbn [option_map]. unfold set_cargo.
    rewrite Hst. reflexivity.
Qed.
End Generic.

(** The threshold of the hub's drones in binary64: a hold of [c] units
    out of 50, with [returnThreshold] 0.1, sends the drone back exactly
    from 45 units on. *)
Lemma turns_back_from_45 (c : Z) :
  0 <= c <= 50 -> Fixtures.turns_back c = (45 <=? c).
Proof.
  intros Hc.
  assert (Hall : forallb (fun n => Bool.eqb (Fixtures.turns_back (Z.of_nat n))
                                            (45 <=? Z.of_nat n))
                         (seq 0 51) = true) by (vm_compute; reflexivity).
  rewrite forallb_forall in Hall.
  specialize (Hall (Z.to_nat c)). rewrite Z2Nat.id in Hall by lia.
  apply Bool.eqb_prop, Hall. apply in_seq. lia.
Qed.

(** C8.  On a drone that is collecting with cargo [g], [collect] returns
    [actual = Math.min(amount, cargoCapacity - g)], leaves the drone with
    cargo [g + actual], and leaves it returning exactly when
    [cargo / cargoCapacity >= 1 - returnThreshold] for the new cargo (and
    collecting otherwise).  With capacity 50 and threshold 0.1 in
    binary64, a freshly dispatched drone that collects 20 and then 30 is
    handed back 20 and 30, holds 20 and is still collecting after the
    first call, holds 50 and is returning after the second; the condition
    is met from 45 units on and not below. *)
Theorem collect_fills_and_turns_back :
  (forall (A : Arith) (this : SwarmController) (droneId : string)
          (drone : Drone) (amount : num),
      JsMap.get droneId (drones this) = Some drone ->
      state drone = collecting ->
      let actual := min amount (sub (cargoCapacity (spec this)) (cargo drone)) in
      let cargo' := add (cargo drone) actual in
      let full := leb (sub one (returnThreshold (spec this)))
                      (div cargo' (cargoCapacity (spec this))) in
      completion (collect droneId amount this) = Return actual /\
      JsMap.get droneId (drones (final (collect droneId amount this))) =
        Some {| cargo := cargo';
                position := position drone;
                state := if full then returning else collecting;
                routeId := routeId drone |}) /\
  (let dispatched :=
     snd (run [SpawnDrone; Dispatch "drone-0" "route-intake-sweep"]
              (new Fixtures.swarm)) in
   let first := collect (A := F64.arith) "drone-0" (F64.of_int 20) dispatched in
   let second := collect (A := F64.arith) "drone-0" (F64.of_int 30) (final first) in
   completion first = Return (F64.of_int 20) /\
   option_map (fun d => (cargo d, state d))
              (JsMap.get "drone-0" (drones (final first)))
     = Some (F64.of_int 20, collecting) /\
   completion second = Return (F64.of_int 30) /\
   option_map (fun d => (cargo d, state d))
              (JsMap.get "drone-0" (drones (final second)))
     = Some (F64.of_int 50, returning)) /\
  (forall c : Z, 0 <= c <= 50 -> Fixtures.turns_back c = (45 <=? c)).
Proof.
  split; [| split].
  - intros A this droneId drone amount Hd Hst actual cargo' full.
    split.
    + rewrite (collect_collecting this droneId amount Hd Hst). reflexivity.
    + apply collect_drone; assumption.
  - cbv zeta. repeat split; reflexivity.
  - apply turns_back_from_45.
Qed.

Lemma collect_fills_and_turns_back_witness :
  let this := snd (run [SpawnDrone; Dispatch "drone-0" "route-intake-sweep"]
                       (new Fixtures.swarm)) in
  completion (collect (A := F64.arith) "drone-0" (F64.of_int 20) this)
    = Return (F64.of_int 20).
Proof.
  cbv zeta.
  apply (proj1 collect_fills_and_turns_back F64.arith
           (snd (run [SpawnDrone; Dispatch "drone-0" "route-intake-sweep"]
                     (new Fixtures.swarm)))
           "drone-0"
           {| cargo := (F64.of_int 0 : @num F64.arith);
              position := At {| x := (F64.of_int (-50) : @num F64.arith);
                                y := F64.of_int 0; z := F64.of_int 0 |};
              state := collecting;
              routeId := Some "route-intake-sweep" |}
           (F64.of_int 20) eq_refl eq_refl).
Defined.

(** ** Cargo bounds *)

(** C9, as stated, fails.  A collecting drone handed a negative amount
    ends with negative cargo, and the call returns that negative amount.
    And with amounts that are not negative, rounding can carry the cargo
    past the capacity: a drone of capacity 0.3 (0x1.3333333333333p-2)
    that holds 1.5 * 2^-54 and is offered 1 is left room
    0.3 - 2^-54 by the rounded subtraction and then holds
    0.3 + 2^-54 by the rounded addition. *)
Lemma cargo_escapes_bounds :
  (let calls := [SpawnDrone; Dispatch "drone-0" "route-intake-sweep";
                 Collect (A := F64.arith) "drone-0" (F64.of_int (-5))] in
   fst (run calls (new Fixtures.swarm)) =
     [Return (VString "drone-0"); Return VUndefined;
      Return (VNumber (A := F64.arith) (F64.of_int (-5)))] /\
   option_map cargo (JsMap.get "drone-0" (drones (snd (run calls (new Fixtures.swarm)))))
     = Some (F64.of_int (-5)) /\
   F64.fle F64.pos_zero (F64.of_int (-5)) = false /\
   ~ cargo_within (snd (run calls (new Fixtures.swarm))) /\
   ~ Forall non_negative_result (fst (run calls (new Fixtures.swarm)))) /\
  (let calls := [SpawnDrone; Dispatch "drone-0" "route-intake-sweep";
                 Collect (A := F64.arith) "drone-0" (F64.ldexp 3 (-55));
                 Collect (A := F64.arith) "drone-0" (F64.of_int 1)] in
   amounts_non_negative calls /\
   F64.fle F64.pos_zero (cargoCapacity (spec (new Fixtures.small_swarm))) = true /\
   cargoCapacity (spec (new Fixtures.small_swarm)) = F64.ldexp 5404319552844595 (-54) /\
   fst (run calls (new Fixtures.small_swarm)) =
     [Return (VString "drone-0"); Return VUndefined;
      Return (VNumber (A := F64.arith) (F64.ldexp 3 (-55)));
      Return (VNumber (A := F64.arith) (F64.ldexp 5404319552844594 (-54)))] /\
   option_map cargo
              (JsMap.get "drone-0" (drones (snd (run calls (new Fixtures.small_swarm)))))
     = Some (F64.ldexp 5404319552844596 (-54)) /\
   F64.fle (F64.ldexp 5404319552844596 (-54)) (F64.ldexp 5404319552844595 (-54)) = false).
Proof.
  split.
  - cbv zeta. split; [reflexivity |]. split; [reflexivity |].
    split; [reflexivity |]. split.
    + intros H.
      destruct (H "drone-0"
                  {| cargo := (F64.of_int (-5) : @num F64.arith);
                     position := At {| x := (F64.of_int (-50) : @num F64.arith);
                                       y := F64.of_int 0; z := F64.of_int 0 |};
                     state := collecting;
                     routeId := Some "route-intake-sweep" |} eq_refl) as [H0 _].
      discriminate H0.
    + intros H. inversion H as [| r rs _ H1]; subst.
      inversion H1 as [| r rs _ H2]; subst.
      inversion H2 as [| r rs H3 _]; subst.
      discriminate H3.
  - cbv zeta. split; [repeat constructor |]. repeat split; reflexivity.
Qed.

Section WholeBounds.
Import Holds Integers IntegerFacts.

(** What [collect] computes on whole numbers: the amount taken and the
    new cargo. *)
Lemma collect_whole (g cap a : Z) :
  0 <= g <= cap -> cap < 2 ^ 53 -> 0 <= a < 2 ^ 53 ->
  F64.Math_min (F64.of_int a) (F64.fsub (F64.of_int cap) (F64.of_int g)) =
    F64.of_int (Z.min a (cap - g)) /\
  F64.fadd (F64.of_int g)
           (F64.Math_min (F64.of_int a) (F64.fsub (F64.of_int cap) (F64.of_int g))) =
    F64.of_int (g + Z.min a (cap - g)).
Proof.
  intros Hg Hcap Ha.
  rewrite fsub_int by (unfold small; lia).
  rewrite Math_min_int by (unfold small; lia).
  split; [reflexivity |].
  apply fadd_int; unfold small; lia.
Qed.

Lemma whole_non_negative (g : Z) :
  0 <= g < 2 ^ 53 -> leb (Arith := F64.arith) zero (F64.of_int g) = true.
Proof.
  intros Hg. change (F64.fle (F64.of_int 0) (F64.of_int g) = true).
  rewrite fle_int by (unfold small; lia). apply Z.leb_le. lia.
Qed.

Variable cfg : SwarmConfig (A := F64.arith).
Variable cap : Z.
Hypothesis cap_range : 0 <= cap < 2 ^ 53.
Hypothesis capacity_whole : cargoCapacity (droneSpec cfg) = F64.of_int cap.


Lemma whole_new : Holds.whole cfg cap (new cfg).
Proof. split; [reflexivity |]. intros droneId d H. discriminate H. Qed.

Lemma whole_within this : Holds.whole cfg cap this -> cargo_within this.
Proof.
  intros [Hc Hw] droneId d Hd. destruct (Hw droneId d Hd) as [g [Hg ->]].
  split; [apply whole_non_negative; lia |].
  unfold spec. rewrite Hc, capacity_whole.
  change (F64.fle (F64.of_int g) (F64.of_int cap) = true).
  rewrite fle_int by (unfold small; lia). apply Z.leb_le. lia.
Qed.

(** An assignment that leaves the cargo alone keeps the invariant. *)
Lemma whole_update this droneId (f : Drone -> Drone) :
  (forall d, cargo (f d) = cargo d) ->
  Holds.whole cfg cap this ->
  Holds.whole cfg cap {| config := config this;
           drones := JsMap.update droneId f (drones this);
           _nextDroneId := _nextDroneId this |}.
Proof.
  intros Hf [Hc Hw]. split; [exact Hc |].
  intros k d. cbn [drones].
  rewrite get_update_cases. destruct (String.eqb droneId k).
  - destruct (JsMap.get k (drones this)) as [d0 |] eqn:Hd; [| discriminate].
    cbn [option_map]. intros H. injection H as <-. rewrite Hf. apply (Hw k d0 Hd).
  - apply Hw.
Qed.

(** An assignment of a whole number within the capacity to the cargo
    keeps the invariant. *)
Lemma whole_set_cargo this droneId (g : Z) :
  0 <= g <= cap ->
  Holds.whole cfg cap this ->
  Holds.whole cfg cap {| config := config this;
           drones := JsMap.update droneId (set_cargo (A := F64.arith) (F64.of_int g))
                                (drones this);
           _nextDroneId := _nextDroneId this |}.
Proof.
  intros Hg [Hc Hw]. split; [exact Hc |].
  intros k d. cbn [drones].
  rewrite get_update_cases. destruct (String.eqb droneId k); [| apply Hw].
  destruct (JsMap.get k (drones this)); [| discriminate].
  cbn [option_map]. intros H. injection H as <-. cbn [cargo set_cargo].
  exists g. split; [exact Hg | reflexivity].
Qed.

(** A call keeps the invariant and hands back no negative number,
    provided a [collect] is given a whole amount. *)
Lemma call_whole (c : Call) this :
  whole_amounts [c] ->
  Holds.whole cfg cap this ->
  Holds.whole cfg cap (final (call c this)) /\
  non_negative_result (completion (call c this)).
Proof.
  intros Hc Hw. apply Forall_inv in Hc. pose proof Hw as [Hcfg Hcw].
  destruct c as [| droneId routeId | droneId amount | droneId]; cbn [call].
  - (* spawnDrone *)
    unfold_method.
    destruct (maxDrones (config this) <=? JsMap.size (drones this));
      cbn [fst snd]; [split; [exact Hw | exact I] |].
    split; [| exact I]. split; [exact Hcfg |].
    intros k d. cbn [drones].
    rewrite get_set_cases. destruct (String.eqb _ k); [| apply Hcw].
    intros H. injection H as <-. cbn [cargo].
    exists 0. split; [lia | reflexivity].
  - (* dispatch *)
    unfold_method.
    destruct (JsMap.get droneId (drones this)) as [drone |]; cbn [fst snd];
      [| split; [exact Hw | exact I]].
    destruct (find _ (patrolRoutes (config this))) as [route |]; cbn [fst snd];
      [| split; [exact Hw | exact I]].
    destruct (state_eqb (state drone) idle); cbn [negb fst snd];
      [| split; [exact Hw | exact I]].
    split; [| exact I].
    repeat (apply whole_update; [intros d; reflexivity |]). exact Hw.
  - (* collect *)
    destruct Hc as [a [Ha ->]].
    destruct (JsMap.get droneId (drones this)) as [drone |] eqn:Hd.
    + destruct (state drone) eqn:Hst.
      * unfold_method. rewrite Hd, Hst. cbn [fst snd]. split; [exact Hw | exact I].
      * destruct (Hcw droneId drone Hd) as [g [Hg Hcargo]].
        destruct (@collect_whole g cap a Hg (proj2 cap_range) Ha) as [Hact Hnew].
        unfold bind, ret.
        rewrite (collect_collecting this droneId (F64.of_int a) Hd Hst).
        unfold final, completion. cbn [fst snd].
        assert (Hcapacity : cargoCapacity (spec this) = F64.of_int cap)
          by (unfold spec; rewrite Hcfg; exact capacity_whole).
        rewrite Hcapacity, Hcargo.
        change (@min F64.arith) with F64.Math_min.
        change (@sub F64.arith) with F64.fsub.
        change (@add F64.arith) with F64.fadd.
        rewrite Hnew, Hact.
        split; [| apply whole_non_negative; lia].
        assert (Hset : Holds.whole cfg cap
                  {| config := config this;
                     drones := JsMap.update droneId
                                 (set_cargo (A := F64.arith)
                                            (F64.of_int (g + Z.min a (cap - g))))
                                 (drones this);
                     _nextDroneId := _nextDroneId this |})
          by (apply whole_set_cargo; [lia | exact Hw]).
        destruct (leb _ _); [| exact Hset].
        apply (whole_update droneId (set_state returning)
                            (fun d => eq_refl) Hset).
      * unfold_method. rewrite Hd, Hst. cbn [fst snd]. split; [exact Hw | exact I].
    + unfold_method. rewrite Hd. cbn [fst snd]. split; [exact Hw | exact I].
  - (* returnToHub *)
    unfold_method.
    destruct (JsMap.get droneId (drones this)) as [drone |] eqn:Hd; cbn [fst snd];
      [| split; [exact Hw | exact I]].
    destruct (negb (state_eqb (state drone) returning) &&
              negb (state_eqb (state drone) collecting)); cbn [fst snd];
      [split; [exact Hw | exact I] |].
    destruct (Hcw droneId drone Hd) as [g [Hg Hcargo]].
    split; [| rewrite Hcargo; apply whole_non_negative; lia].
    repeat (apply whole_update; [intros d; reflexivity |]).
    apply (@whole_set_cargo this droneId 0); [lia | exact Hw].
Qed.

Lemma run_whole (calls : list Call) this :
  whole_amounts calls ->
  Holds.whole cfg cap this ->
  Holds.whole cfg cap (snd (run calls this)) /\
  Forall non_negative_result (fst (run calls this)).
Proof.
  revert this. induction calls as [| c calls IH]; intros this Ham Hw.
  - split; [exact Hw | constructor].
  - inversion Ham as [| c' calls' Hc Hrest]; subst.
    destruct (@call_whole c this (Forall_cons _ Hc (Forall_nil _)) Hw) as [Hw' Hr].
    cbn [run]. unfold final, completion in Hw', Hr.
    destruct (call c this) as [r this']. cbn [fst snd] in Hw', Hr.
    destruct (IH this' Hrest Hw') as [Hw'' Hrs].
    destruct (run calls this') as [rs this'']. cbn [fst snd] in *.
    split; [exact Hw'' | constructor; assumption].
Qed.
End WholeBounds.

(** C9, as amended.  In binary64, from a fresh controller whose
    [cargoCapacity] is an integer [cap] with [0 <= cap < 2^53], after any
    sequence of [spawnDrone], [dispatch], [collect] and [returnToHub]
    calls in which every [collect] is given an integer amount [a] with
    [0 <= a < 2^53], every drone's cargo lies in [[0, cargoCapacity]]
    (and is an integer), and every number a completed [collect] or
    [returnToHub] handed back is not negative.  The sequence is
    arbitrary, so this holds after each of its calls; the
    [returnThreshold] is any number. *)
Theorem cargo_stays_within
        (cfg : SwarmConfig (A := F64.arith)) (cap : Z)
        (calls : list (Call (A := F64.arith))) :
  0 <= cap < 2 ^ 53 ->
  cargoCapacity (droneSpec cfg) = F64.of_int cap ->
  Holds.whole_amounts calls ->
  cargo_within (snd (run calls (new cfg))) /\
  Holds.whole_cargo cap (snd (run calls (new cfg))) /\
  Forall non_negative_result (fst (run calls (new cfg))).
Proof.
  intros Hcap Hcfg Ham.
  destruct (@run_whole cfg cap Hcap Hcfg calls (new cfg) Ham (whole_new cfg cap))
    as [Hw Hrs].
  split; [apply (@whole_within cfg cap Hcap Hcfg _ Hw) |].
  split; [apply Hw | exact Hrs].
Qed.

Lemma cargo_stays_within_witness :
  let calls := [SpawnDrone; Dispatch "drone-0" "route-intake-sweep";
                Collect (A := F64.arith) "drone-0" (F64.of_int 20);
                Collect (A := F64.arith) "drone-0" (F64.of_int 70);
                ReturnToHub "drone-0"] in
  cargo_within (snd (run calls (new Fixtures.swarm))) /\
  Holds.whole_cargo 50 (snd (run calls (new Fixtures.swarm))) /\
  Forall non_negative_result (fst (run calls (new Fixtures.swarm))).
Proof.
  cbv zeta.
  apply (@cargo_stays_within Fixtures.swarm 50).
  - split; [discriminate | reflexivity].
  - reflexivity.
  - repeat constructor.
    + exists 20. repeat split; discriminate.
    + exists 70. repeat split; discriminate.
Defined.

(** ** Failed calls *)

(** A call that throws leaves the controller as it found it. *)
Lemma swarm_call_throw_unchanged {A : Arith} (c : Call) this e :
  completion (call c this) = Throw e -> final (call c this) = this.
Proof.
  destruct c as [| droneId routeId | droneId amount | droneId]; cbn [call].
  - unfold_method.
    destruct (maxDrones (config this) <=? JsMap.size (drones this));
      cbn [fst snd]; [reflexivity | discriminate].
  - unfold_method.
    destruct (JsMap.get droneId (drones this)) as [drone |]; cbn [fst snd];
      [| reflexivity].
    destruct (find _ (patrolRoutes (config this))) as [route |]; cbn [fst snd];
      [| reflexivity].
    destruct (state_eqb (state drone) idle); cbn [negb fst snd];
      [discriminate | reflexivity].
  - unfold_method.
    destruct (JsMap.get droneId (drones this)) as [drone |]; cbn [fst snd];
      [| reflexivity].
    destruct (state_eqb (state drone) collecting); cbn [negb fst snd];
      [| reflexivity].
    destruct (leb (sub one _) _); cbn [fst snd]; discriminate.
  - unfold_method.
    destruct (JsMap.get droneId (drones this)) as [drone |]; cbn [fst snd];
      [| reflexivity].
    destruct (negb (state_eqb (state drone) returning) &&
              negb (state_eqb (state drone) collecting)); cbn [fst snd];
      [reflexivity | discriminate].
Qed.

Lemma swarm_query_unchanged {A : Arith} droneId (this : SwarmController) :
  final (getDroneStatus droneId this) = this /\ final (idleCount this) = this.
Proof.
  split; unfold_method; [| reflexivity].
  destruct (JsMap.get droneId (drones this)); reflexivity.
Qed.
End SwarmClaims.

(** ** Failure atomicity *)

Module AtomicityClaims.

(** C10.  A call that throws changes nothing.  For every method of
    [StructureController] ([register], [startBuild], [startUpgrade],
    [decommission], [tick], [getState]) and of [SwarmController]
    ([spawnDrone], [dispatch], [collect], [returnToHub], and the queries
    [getDroneStatus] and [idleCount]), whenever the call completes by
    throwing, the controller it leaves is the controller it was given.
    The tick engine keeps no state between calls: when its loop throws,
    the accumulator and generator local to that call are dropped and
    the caller receives the exception alone. *)
Theorem failed_call_changes_nothing :
  (forall (c : Structures.Call) (this : Structures.StructureController) e,
      completion (Structures.call c this) = Throw e ->
      final (Structures.call c this) = this) /\
  (forall (A : Arith) (c : Swarm.Call) (this : Swarm.SwarmController) e,
      completion (Swarm.call c this) = Throw e ->
      final (Swarm.call c this) = this) /\
  (forall (A : Arith) (droneId : string) (this : Swarm.SwarmController),
      final (Swarm.getDroneStatus droneId this) = this /\
      final (Swarm.idleCount this) = this) /\
  (forall (A : Arith) (prims : list Engine.Primitive) (st : Engine.SectorState)
          (seed : Z) e,
      completion (Engine.tick_loop prims st
                    {| Engine.rng_state := Engine.createRng seed;
                       Engine.output := Engine.zero_output |}) = Throw e ->
      Engine.tick prims st seed = Throw e).
Proof.
  split; [| split; [| split]].
  - apply StructuresClaims.structure_call_throw_unchanged.
  - intros A. apply SwarmClaims.swarm_call_throw_unchanged.
  - intros A. apply SwarmClaims.swarm_query_unchanged.
  - intros A prims st seed e. unfold Engine.tick, completion.
    destruct (Engine.tick_loop _ _ _) as [[[] | e'] l]; cbn [fst];
      [discriminate | intros H; injection H as <-; reflexivity].
Qed.

Lemma failed_call_changes_nothing_witness :
  let this := Fixtures.hub in
  final (Structures.startBuild "refinery-primary" (F64.of_int 1)
           (final (Structures.decommission "refinery-primary" this))) =
  final (Structures.decommission "refinery-primary" this).
Proof.
  cbv zeta.
  apply (proj1 failed_call_changes_nothing
               (Structures.CallStartBuild "refinery-primary" (F64.of_int 1))
               (final (Structures.decommission "refinery-primary"
                         Fixtures.hub))
               (Error "Cannot build refinery-primary: current state is decommissioned")
               eq_refl).
Defined.
End AtomicityClaims.

(* ================================================================== *)
(** * The lifecycle as a state machine *)
(* ================================================================== *)

Module LifecycleFacts.
Import Structures Lifecycle JsMapFacts StructuresClaims.
Import Integers IntegerFacts CountdownFacts.

Lemma lookup_call (c : Call) this id :
  lookup id (final (call c this)) = after c id (lookup id this).
Proof.
  destruct c as [id' t | id' n | id' n | id' | | id']; cbn [call after].
  - unfold_method. unfold lookup.
    destruct (JsMap.get id' (structures this)) as [s' |] eqn:Hg; cbn [snd].
    + destruct (String.eqb id' id) eqn:E; [| reflexivity].
      apply String.eqb_eq in E. subst id'. rewrite Hg. reflexivity.
    + cbn [structures]. rewrite get_set_cases.
      destruct (String.eqb id' id) eqn:E; [| reflexivity].
      apply String.eqb_eq in E. subst id'. rewrite Hg. reflexivity.
  - unfold_method. unfold lookup.
    destruct (JsMap.get id' (structures this)) as [s' |] eqn:Hg; cbn [snd].
    + destruct (state_eqb (state s') PLANNED) eqn:Hp; cbn [negb snd].
      * cbn [structures]. rewrite !get_update_cases.
        destruct (String.eqb id' id) eqn:E; [| reflexivity].
        apply String.eqb_eq in E. subst id'. rewrite Hg. cbn [option_map].
        rewrite Hp. reflexivity.
      * destruct (String.eqb id' id) eqn:E; [| reflexivity].
        apply String.eqb_eq in E. subst id'. rewrite Hg. cbn [option_map].
        rewrite Hp. reflexivity.
    + destruct (String.eqb id' id) eqn:E; [| reflexivity].
      apply String.eqb_eq in E. subst id'. rewrite Hg. reflexivity.
  - unfold_method. unfold lookup.
    destruct (JsMap.get id' (structures this)) as [s' |] eqn:Hg; cbn [snd].
    + destruct (state_eqb (state s') OPERATIONAL) eqn:Hp; cbn [negb snd].
      * cbn [structures]. rewrite !get_update_cases.
        destruct (String.eqb id' id) eqn:E; [| reflexivity].
        apply String.eqb_eq in E. subst id'. rewrite Hg. cbn [option_map].
        rewrite Hp. reflexivity.
      * destruct (String.eqb id' id) eqn:E; [| reflexivity].
        apply String.eqb_eq in E. subst id'. rewrite Hg. cbn [option_map].
        rewrite Hp. reflexivity.
    + destruct (String.eqb id' id) eqn:E; [| reflexivity].
      apply String.eqb_eq in E. subst id'. rewrite Hg. reflexivity.
  - unfold_method. unfold lookup.
    destruct (JsMap.get id' (structures this)) as [s' |] eqn:Hg; cbn [snd].
    + cbn [structures]. rewrite !get_update_cases.
      destruct (String.eqb id' id) eqn:E; [| reflexivity].
      apply String.eqb_eq in E. subst id'. rewrite Hg. reflexivity.
    + destruct (String.eqb id' id) eqn:E; [| reflexivity].
      apply String.eqb_eq in E. subst id'. rewrite Hg. reflexivity.
  - apply lookup_tick.
  - unfold_method.
    destruct (JsMap.get id' (structures this)); reflexivity.
Qed.

Lemma state_eqb_eq a b : state_eqb a b = true <-> a = b.
Proof. destruct a, b; cbv; split; congruence. Qed.

(** One call, seen from one registered structure. *)
Lemma call_step
      (c : Call) (this : StructureController) (id : string) (s : Structure) :
  lookup id this = Some s ->
  exists s',
    lookup id (final (call c this)) = Some s' /\
    (state s' = state s \/ move (state s) (state s')) /\
    tier s' = (if state_eqb (state s) UPGRADING && state_eqb (state s') OPERATIONAL
               then F64.fadd (tier s) (F64.of_int 1) else tier s).
Proof.
  intros Hs. rewrite lookup_call, Hs.
  destruct c as [id' t | id' n | id' n | id' | | id']; cbn [after].
  - exists s. destruct (String.eqb id' id); repeat split; auto;
      destruct (state s); reflexivity.
  - destruct (String.eqb id' id); cbn [option_map].
    + destruct (state_eqb (state s) PLANNED) eqn:Hp.
      * apply state_eqb_eq in Hp. eexists. split; [reflexivity |].
        cbn [state tier]. rewrite Hp. split; [right; constructor | reflexivity].
      * exists s. repeat split; auto. destruct (state s); reflexivity.
    + exists s. repeat split; auto. destruct (state s); reflexivity.
  - destruct (String.eqb id' id); cbn [option_map].
    + destruct (state_eqb (state s) OPERATIONAL) eqn:Hp.
      * apply state_eqb_eq in Hp. eexists. split; [reflexivity |].
        cbn [state tier]. rewrite Hp. split; [right; constructor | reflexivity].
      * exists s. repeat split; auto. destruct (state s); reflexivity.
    + exists s. repeat split; auto. destruct (state s); reflexivity.
  - destruct (String.eqb id' id); cbn [option_map].
    + eexists. split; [reflexivity |]. cbn [state tier].
      split; [right; constructor |]. destruct (state s); reflexivity.
    + exists s. repeat split; auto. destruct (state s); reflexivity.
  - cbn [option_map]. eexists. split; [reflexivity |].
    destruct (tick_structure_cases s) as [[Hp ->] | [[Hp [_ ->]] | [Hp [_ ->]]]].
    + split; [left; reflexivity |]. destruct (state s); reflexivity.
    + cbn [set_ticksRemaining state tier]. split; [left; reflexivity |].
      destruct (state s); reflexivity.
    + cbn [state tier]. unfold in_progress in Hp.
      destruct (state s); try discriminate Hp;
        (split; [right; constructor | reflexivity]).
  - exists s. repeat split; auto. destruct (state s); reflexivity.
Qed.

(** X1.  Whatever call is made, a registered structure stays
    registered; its state is unchanged or follows one arrow of the
    lifecycle (planned to building, building to operational, operational
    to upgrading, upgrading to operational, anything to decommissioned);
    and its tier is unchanged, except that the completion of an upgrade
    leaves the number that [tier + 1] evaluates to. *)
Theorem call_follows_lifecycle
        (c : Call) (this : StructureController) (id : string) (s : Structure) :
  lookup id this = Some s ->
  exists s',
    lookup id (final (call c this)) = Some s' /\
    (state s' = state s \/ move (state s) (state s')) /\
    tier s' = (if state_eqb (state s) UPGRADING && state_eqb (state s') OPERATIONAL
               then F64.fadd (tier s) (F64.of_int 1) else tier s).
Proof. apply call_step. Qed.

Lemma call_follows_lifecycle_witness :
  exists s',
    lookup "refinery-primary"
           (final (call (CallStartBuild "refinery-primary" (F64.of_int 3))
                        Fixtures.hub)) =
      Some s' /\
    (state s' = PLANNED \/ move PLANNED (state s')) /\
    tier s' = F64.of_int 2.
Proof.
  apply (call_follows_lifecycle (CallStartBuild "refinery-primary" (F64.of_int 3))
           Fixtures.hub "refinery-primary"
           (s := {| state := PLANNED; tier := F64.of_int 2;
                    ticksRemaining := F64.pos_zero |}) eq_refl).
Defined.

(** ** Reachable controllers *)

Lemma call_keeps_settled (c : Call) this :
  settled this -> settled (final (call c this)).
Proof.
  intros Hset id s'. rewrite lookup_call.
  destruct (lookup id this) as [s |] eqn:Hs.
  - specialize (Hset id s Hs).
    destruct c as [id' t | id' n | id' n | id' | | id']; cbn [after].
    + destruct (String.eqb id' id); intros [= <-]; exact Hset.
    + destruct (String.eqb id' id); cbn [option_map]; [| intros [= <-]; exact Hset].
      destruct (state_eqb (state s) PLANNED); intros [= <-]; [discriminate | exact Hset].
    + destruct (String.eqb id' id); cbn [option_map]; [| intros [= <-]; exact Hset].
      destruct (state_eqb (state s) OPERATIONAL); intros [= <-];
        [discriminate | exact Hset].
    + destruct (String.eqb id' id); cbn [option_map]; intros [= <-];
        [reflexivity | exact Hset].
    + cbn [option_map]. intros [= <-].
      destruct (tick_structure_cases s) as [[Hp ->] | [[Hp [_ ->]] | [Hp [_ ->]]]].
      * exact Hset.
      * unfold in_progress in *. cbn [set_ticksRemaining state].
        rewrite Hp. discriminate.
      * reflexivity.
    + intros [= <-]. exact Hset.
  - destruct c as [id' t | id' n | id' n | id' | | id']; cbn [after option_map];
      try destruct (String.eqb id' id); try discriminate.
    intros [= <-]. reflexivity.
Qed.

(** X2.  On a controller reached from [new StructureController()] by
    any calls, failed ones included, a structure that is neither
    building nor upgrading has no ticks remaining. *)
Theorem at_rest_no_ticks_remain (calls : list Call) :
  settled (run calls new).
Proof.
  assert (H : forall this, settled this -> settled (run calls this)).
  { unfold run. induction calls as [| c calls IH]; intros this Hset; cbn [fold_left].
    - exact Hset.
    - apply IH, call_keeps_settled, Hset. }
  apply H. intros id s. unfold lookup, new. cbn. discriminate.
Qed.

Lemma at_rest_no_ticks_remain_witness :
  ticksRemaining {| state := DECOMMISSIONED; tier := F64.of_int 1;
                    ticksRemaining := F64.pos_zero |} = F64.pos_zero.
Proof.
  apply (at_rest_no_ticks_remain Samples.hub_calls "silo-refined"
           (s := {| state := DECOMMISSIONED; tier := F64.of_int 1;
                    ticksRemaining := F64.pos_zero |}));
    reflexivity.
Defined.

Lemma call_keeps_non_negative (c : Call) this :
  durations_non_negative [c] ->
  countdowns_non_negative this -> countdowns_non_negative (final (call c this)).
Proof.
  intros Hd Hnn id s'. rewrite lookup_call.
  apply Forall_inv in Hd.
  destruct (lookup id this) as [s |] eqn:Hs.
  - specialize (Hnn id s Hs).
    destruct c as [id' t | id' n | id' n | id' | | id']; cbn [after].
    + destruct (String.eqb id' id); intros [= <-]; exact Hnn.
    + destruct (String.eqb id' id); cbn [option_map]; [| intros [= <-]; exact Hnn].
      destruct (state_eqb (state s) PLANNED); intros [= <-]; [exact Hd | exact Hnn].
    + destruct (String.eqb id' id); cbn [option_map]; [| intros [= <-]; exact Hnn].
      destruct (state_eqb (state s) OPERATIONAL); intros [= <-]; [exact Hd | exact Hnn].
    + destruct (String.eqb id' id); cbn [option_map]; intros [= <-];
        [reflexivity | exact Hnn].
    + cbn [option_map]. intros [= <-].
      destruct (tick_structure_cases s) as [[Hp ->] | [[Hp [Hr ->]] | [Hp [_ ->]]]].
      * exact Hnn.
      * cbn [set_ticksRemaining ticksRemaining].
        apply countdown_non_negative, Hnn.
      * reflexivity.
    + intros [= <-]. exact Hnn.
  - destruct c as [id' t | id' n | id' n | id' | | id']; cbn [after option_map];
      try destruct (String.eqb id' id); try discriminate.
    intros [= <-]. reflexivity.
Qed.

(** X3.  When no [startBuild] or [startUpgrade] is given a negative
    duration, no structure ever has a negative number of ticks
    remaining. *)
Theorem countdown_never_negative (calls : list Call) :
  durations_non_negative calls ->
  countdowns_non_negative (run calls new).
Proof.
  assert (H : forall this, durations_non_negative calls ->
                           countdowns_non_negative this ->
                           countdowns_non_negative (run calls this)).
  { unfold run. induction calls as [| c calls IH]; intros this Hd Hnn;
      cbn [fold_left].
    - exact Hnn.
    - apply IH; [exact (Forall_inv_tail Hd) |].
      apply call_keeps_non_negative; [| exact Hnn].
      constructor; [exact (Forall_inv Hd) | constructor]. }
  intros Hd. apply H; [exact Hd |].
  intros id s. unfold lookup, new. cbn. discriminate.
Qed.

Lemma countdown_never_negative_witness :
  countdowns_non_negative (run Samples.hub_calls new).
Proof.
  apply (@countdown_never_negative Samples.hub_calls).
  unfold Samples.hub_calls, durations_non_negative.
  repeat constructor; discriminate.
Defined.

(** X4.  A call changes the entry of a structure only if it names that
    structure, or if it is [tick()] and the structure is building or
    upgrading. *)
Theorem call_changes_only_its_target
        (c : Call) (this : StructureController) (id : string) :
  lookup id (final (call c this)) <> lookup id this ->
  target c = Some id \/
  (c = CallTick /\ exists s, lookup id this = Some s /\ in_progress s = true).
Proof.
  rewrite lookup_call. intros Hne.
  destruct c as [id' t | id' n | id' n | id' | | id']; cbn [after target] in *;
    try (destruct (String.eqb id' id) eqn:E;
         [apply String.eqb_eq in E; subst id'; left; reflexivity
         | contradiction Hne; reflexivity]).
  - right. split; [reflexivity |].
    destruct (lookup id this) as [s |]; [| contradiction Hne; reflexivity].
    exists s. split; [reflexivity |].
    destruct (tick_structure_cases s) as [[Hp Ht] | [[Hp _] | [Hp _]]];
      [| exact Hp | exact Hp].
    contradiction Hne. cbn [option_map]. rewrite Ht. reflexivity.
Qed.

Lemma call_changes_only_its_target_witness :
  target (CallStartBuild "refinery-primary" (F64.of_int 3))
    = Some "refinery-primary" \/
  (CallStartBuild "refinery-primary" (F64.of_int 3) = CallTick /\
   exists s, lookup "refinery-primary" Fixtures.hub = Some s /\
             in_progress s = true).
Proof.
  apply (call_changes_only_its_target
           (CallStartBuild "refinery-primary" (F64.of_int 3))
           Fixtures.hub "refinery-primary").
  discriminate.
Defined.

(** ** Building once *)

Lemma no_build_once_started (id : string) (calls : list Call) :
  forall this s,
    lookup id this = Some s -> state s <> PLANNED ->
    accepted_builds id calls this = 0%nat.
Proof.
  induction calls as [| c calls IH]; intros this s Hs Hst; cbn [accepted_builds];
    [reflexivity |].
  destruct (call_step c this id Hs) as [s' [Hs' [Hmove _]]].
  rewrite (IH _ _ Hs').
  - rewrite Nat.add_0_r.
    destruct c as [id' t | id' n | id' n | id' | | id']; try reflexivity.
    destruct (String.eqb id' id) eqn:E;
      [| destruct (completion _); reflexivity].
    apply String.eqb_eq in E. subst id'. cbn [call]. unfold_method.
    unfold lookup in Hs. rewrite Hs.
    destruct (state_eqb (state s) PLANNED) eqn:Hp; [| reflexivity].
    apply state_eqb_eq in Hp. contradiction.
  - destruct Hmove as [-> | Hmove]; [exact Hst |].
    inversion Hmove; congruence.
Qed.

(** X5.  A structure is built at most once: of all the calls of
    [startBuild] on one id in a sequence of calls, on any controller, at
    most one returns. *)
Theorem built_at_most_once
        (id : string) (calls : list Call) (this : StructureController) :
  (accepted_builds id calls this <= 1)%nat.
Proof.
  revert this. induction calls as [| c calls IH]; intros this;
    cbn [accepted_builds]; [lia |].
  specialize (IH (final (call c this))).
  destruct c as [id' t | id' n | id' n | id' | | id']; cbv iota; try lia.
  destruct (completion (call (CallStartBuild id' n) this)) eqn:Hc; [| lia].
  destruct (String.eqb id' id) eqn:E; [| lia].
  apply String.eqb_eq in E. subst id'.
  assert (Hl := lookup_call (CallStartBuild id n) this id).
  cbn [after] in Hl. rewrite String.eqb_refl in Hl.
  assert (Hpl : exists s, lookup id this = Some s /\
                          state_eqb (state s) PLANNED = true).
  { revert Hc. cbn [call]. unfold_method. fold (lookup id this).
    destruct (lookup id this) as [s |]; cbn [fst]; [| discriminate].
    destruct (state_eqb (state s) PLANNED) eqn:Hp; cbn [negb fst]; [| discriminate].
    intros _. exists s. split; [reflexivity | exact Hp]. }
  destruct Hpl as [s [Hs Hp]]. rewrite Hs in Hl.
  cbn [option_map] in Hl. rewrite Hp in Hl.
  rewrite (@no_build_once_started id calls _ _ Hl); [lia |].
  cbn. discriminate.
Qed.

(** ** Countdowns *)

(** X6.  A structure that is building or upgrading with an integer
    number [r] of ticks remaining, [r] and [r - 1] of magnitude below
    2^53, completes on tick number [max(1, r)]: until then it keeps its
    state and counts down by one per tick, from then on it is
    operational with no ticks remaining, at the tier that [tier + 1]
    evaluates to if it was upgrading.  A countdown of zero or less takes
    one tick. *)
Theorem countdown_ends_after_max_1_r
        (this : StructureController) (id : string) (s : Structure) (r : Z) :
  lookup id this = Some s -> in_progress s = true ->
  ticksRemaining s = F64.of_int r ->
  Z.abs r < 2 ^ 53 -> Z.abs (r - 1) < 2 ^ 53 ->
  (forall j : nat,
      Z.of_nat j < Z.max 1 r ->
      lookup id (ticks j this) =
      Some {| state := state s; tier := tier s;
              ticksRemaining := F64.of_int (r - Z.of_nat j) |}) /\
  (forall k : nat,
      Z.max 1 r <= Z.of_nat k ->
      lookup id (ticks k this) =
      Some {| state := OPERATIONAL;
              tier := if state_eqb (state s) UPGRADING
                      then F64.fadd (tier s) (F64.of_int 1) else tier s;
              ticksRemaining := F64.pos_zero |}).
Proof.
  intros Hs Hp Hr Hsmall Hsmall1. split.
  - intros j Hj. rewrite lookup_ticks, Hs. cbn [option_map].
    rewrite (@iter_in_progress s r j Hp Hr Hsmall Hsmall1 Hj). reflexivity.
  - intros k Hk. rewrite lookup_ticks, Hs. cbn [option_map].
    rewrite (@iter_completes s r k Hp Hr Hsmall Hsmall1 Hk). reflexivity.
Qed.

Lemma countdown_ends_after_max_1_r_witness :
  lookup "refinery-primary"
         (ticks 1 (final (startBuild "refinery-primary" (F64.of_int (-2))
                            Fixtures.hub))) =
  Some {| state := OPERATIONAL; tier := F64.of_int 2;
          ticksRemaining := F64.pos_zero |}.
Proof.
  apply (proj2 (@countdown_ends_after_max_1_r
                  (final (startBuild "refinery-primary" (F64.of_int (-2))
                            Fixtures.hub))
                  "refinery-primary"
                  {| state := BUILDING; tier := F64.of_int 2;
                     ticksRemaining := F64.of_int (-2) |} (-2)
                  eq_refl eq_refl eq_refl eq_refl eq_refl) 1%nat).
  discriminate.
Defined.

(** ** Registration *)

(** X7.  The structures a controller knows after any calls are the ones
    [register] was called for: no other method adds an entry and none
    removes one. *)
Theorem known_iff_registered (calls : list Call) (id : string) :
  lookup id (run calls new) <> None <->
  exists tier, In (CallRegister id tier) calls.
Proof.
  assert (H : forall this,
             lookup id (run calls this) <> None <->
             lookup id this <> None \/ exists tier, In (CallRegister id tier) calls).
  { unfold run. induction calls as [| c calls IH]; intros this; cbn [fold_left].
    - split; [auto | intros [H | [t []]]; exact H].
    - rewrite IH, lookup_call. split.
      + intros [Ha | [t Ht]]; [| right; exists t; right; exact Ht].
        destruct (lookup id this) as [s |] eqn:Hs; [left; discriminate |].
        right.
        destruct c as [id' t | id' n | id' n | id' | | id'];
          cbn [after option_map] in Ha;
          try (destruct (String.eqb id' id) eqn:E); try (contradiction Ha; reflexivity).
        apply String.eqb_eq in E. subst id'. exists t. left. reflexivity.
      + intros [Hb | [t [Ht | Ht]]]; [| | right; exists t; exact Ht].
        * left. destruct (lookup id this) as [s |]; [| contradiction Hb; reflexivity].
          destruct c as [id' t | id' n | id' n | id' | | id'];
            cbn [after option_map];
            try (destruct (String.eqb id' id)); discriminate.
        * left. subst c. cbn [after]. rewrite String.eqb_refl.
          destruct (lookup id this); discriminate. }
  rewrite H. unfold lookup, new. cbn. split.
  - intros [Hc | Hr]; [contradiction Hc; reflexivity | exact Hr].
  - intros Hr. right. exact Hr.
Qed.
End LifecycleFacts.

(* ================================================================== *)
(** * The fleet *)
(* ================================================================== *)

Module FleetFacts.
Import Swarm Fleet JsMapFacts.

(** ** Maps, continued *)

Section Maps.
Variable V : Type.
Implicit Types (m : JsMap.t V) (k : string).

Lemma keys_update k f m : map fst (JsMap.update k f m) = map fst m.
Proof.
  induction m as [| [k' v] m IH]; cbn; [reflexivity |].
  destruct (String.eqb k' k); cbn; [reflexivity | rewrite IH; reflexivity].
Qed.

(** [set] on an absent key appends. *)
Lemma set_absent k v m :
  JsMap.get k m = None -> JsMap.set k v m = (m ++ [(k, v)])%list.
Proof.
  induction m as [| [k' v'] m IH]; cbn; [reflexivity |].
  destruct (String.eqb k' k); [discriminate |].
  intros H. rewrite (IH H). reflexivity.
Qed.

Lemma get_absent_keys k m : JsMap.get k m = None <-> ~ In k (map fst m).
Proof.
  induction m as [| [k' v'] m IH]; cbn; [tauto |].
  destruct (String.eqb k' k) eqn:E.
  - apply String.eqb_eq in E. split; [discriminate | intros H; exfalso; auto].
  - apply String.eqb_neq in E. rewrite IH. tauto.
Qed.

(** Several assignments to the object under [k] amount to one. *)
Lemma update_update k f g m :
  JsMap.update k f (JsMap.update k g m) = JsMap.update k (fun v => f (g v)) m.
Proof.
  induction m as [| [k' v] m IH]; cbn; [reflexivity |].
  destruct (String.eqb k' k) eqn:E; cbn; rewrite E; [reflexivity |].
  rewrite IH. reflexivity.
Qed.

Lemma update_known k f v m :
  JsMap.get k m = Some v ->
  JsMap.update k f m = JsMap.update k (fun _ => f v) m.
Proof.
  induction m as [| [k' v'] m IH]; cbn; [reflexivity |].
  destruct (String.eqb k' k); [intros [= ->]; reflexivity |].
  intros H. rewrite (IH H). reflexivity.
Qed.

(** The values that satisfy [p], counted, when the object under [k]
    is replaced. *)
Lemma count_update (p : V -> bool) k v v' m :
  JsMap.get k m = Some v ->
  Z.of_nat (List.length (filter p (JsMap.values (JsMap.update k (fun _ => v') m)))) =
  Z.of_nat (List.length (filter p (JsMap.values m)))
  - (if p v then 1 else 0) + (if p v' then 1 else 0).
Proof.
  unfold JsMap.values.
  induction m as [| [k' w] m IH]; cbn; [discriminate |].
  destruct (String.eqb k' k).
  - intros [= ->]. cbn. destruct (p v), (p v'); cbn [List.length]; lia.
  - intros H. specialize (IH H). cbn. destruct (p w); cbn [List.length]; lia.
Qed.
End Maps.

(** ** Drone ids *)

Lemma decimal_inj (n m : nat) : decimal n = decimal m -> n = m.
Proof.
  unfold decimal. intros H.
  apply (f_equal NilEmpty.uint_of_string) in H.
  rewrite !NilEmpty.usu in H. injection H as H.
  apply (f_equal Nat.of_uint) in H.
  rewrite !DecimalNat.Unsigned.of_to in H. exact H.
Qed.

Lemma drone_name_inj (n m : nat) : drone_name n = drone_name m -> n = m.
Proof.
  unfold drone_name. cbn [String.append]. intros H.
  injection H as H. apply decimal_inj, H.
Qed.

Section Fleet.
Context {A : Arith}.

(** What a call does: it throws and changes nothing; or it is
    [spawnDrone] and adds a docked drone under the next name; or it
    names a drone of the fleet and replaces its object. *)
Lemma call_cases (c : Call) (this : SwarmController) :
  (exists e, call c this = (Throw e, this)) \/
  (c = SpawnDrone /\
   JsMap.size (drones this) < maxDrones (config this) /\
   call c this =
   (Return (VString (drone_name (_nextDroneId this))),
    {| config := config this;
       drones := JsMap.set (drone_name (_nextDroneId this)) docked (drones this);
       _nextDroneId := S (_nextDroneId this) |})) \/
  (exists droneId d d' v,
      target c = Some droneId /\
      JsMap.get droneId (drones this) = Some d /\
      call c this =
      (Return v,
       {| config := config this;
          drones := JsMap.update droneId (fun _ => d') (drones this);
          _nextDroneId := _nextDroneId this |}) /\
      ((exists routeId route,
           c = Dispatch droneId routeId /\ state d = idle /\
           find (fun r => String.eqb (id r) routeId)
                (patrolRoutes (config this)) = Some route /\
           v = VUndefined /\
           d' = {| cargo := cargo d; position := first_waypoint route;
                   state := collecting; routeId := Some routeId |}) \/
       (exists amount,
           c = Collect droneId amount /\ state d = collecting /\
           let actual := min amount (sub (cargoCapacity (spec this)) (cargo d)) in
           v = VNumber actual /\
           cargo d' = add (cargo d) actual /\
           position d' = position d /\ routeId d' = routeId d /\
           (state d' = collecting \/ state d' = returning)) \/
       (c = ReturnToHub droneId /\ state d <> idle /\
        v = VNumber (cargo d) /\ d' = docked))).
Proof.
  destruct c as [| droneId routeId | droneId amount | droneId]; cbn [call].
  - unfold_method.
    destruct (maxDrones (config this) <=? JsMap.size (drones this)) eqn:E;
      [left; eexists; reflexivity |].
    right; left. apply Z.leb_gt in E. repeat split. exact E.
  - unfold_method.
    destruct (JsMap.get droneId (drones this)) as [d |] eqn:Hd;
      [| left; eexists; reflexivity].
    destruct (find _ (patrolRoutes (config this))) as [route |] eqn:Hr;
      [| left; eexists; reflexivity].
    destruct (state d) eqn:Hst; cbn [state_eqb state_string String.eqb Ascii.eqb
                                      Bool.eqb negb];
      try (left; eexists; reflexivity).
    right; right. eexists droneId, d, _, VUndefined.
    split; [reflexivity |]. split; [exact Hd |]. split.
    + cbn [drones config _nextDroneId]. rewrite !update_update.
      rewrite (update_known _ _ _ Hd). reflexivity.
    + left. exists routeId, route. repeat split; assumption.
  - unfold_method.
    destruct (JsMap.get droneId (drones this)) as [d |] eqn:Hd;
      [| left; eexists; reflexivity].
    destruct (state d) eqn:Hst; cbn [state_eqb state_string String.eqb Ascii.eqb
                                      Bool.eqb negb];
      try (left; eexists; reflexivity).
    right; right.
    destruct (leb (sub one _) _); cbn [fst snd drones config _nextDroneId].
    + eexists droneId, d, _, _. split; [reflexivity |]. split; [exact Hd |].
      split.
      * rewrite !update_update. rewrite (update_known _ _ _ Hd). reflexivity.
      * right; left. exists amount. cbn. repeat split; auto.
    + eexists droneId, d, _, _. split; [reflexivity |]. split; [exact Hd |].
      split.
      * rewrite (update_known _ _ _ Hd). reflexivity.
      * right; left. exists amount. cbn. repeat split; auto.
  - unfold_method.
    destruct (JsMap.get droneId (drones this)) as [d |] eqn:Hd;
      [| left; eexists; reflexivity].
    destruct (state d) eqn:Hst; cbn [state_eqb state_string String.eqb Ascii.eqb
                                      Bool.eqb negb andb];
      try (left; eexists; reflexivity);
      (right; right; eexists droneId, d, _, _;
       split; [reflexivity |]; split; [exact Hd |]; split;
       [ cbn [drones config _nextDroneId]; rewrite !update_update;
         rewrite (update_known _ _ _ Hd); reflexivity
       | right; right; repeat split; congruence ]).
Qed.

Lemma run_cons (c : Call) (rest : list Call) (this : SwarmController) :
  snd (run (c :: rest) this) = snd (run rest (final (call c this))).
Proof.
  cbn [run]. unfold final. destruct (call c this) as [r this']. cbn [snd].
  destruct (run rest this'). reflexivity.
Qed.

Lemma numbered_next_is_fresh (this : SwarmController) :
  numbered this ->
  JsMap.get (drone_name (_nextDroneId this)) (drones this) = None.
Proof.
  unfold numbered, ids. intros Hn. apply get_absent_keys. rewrite Hn.
  intros Hin. apply in_map_iff in Hin. destruct Hin as [i [Hi Hin]].
  apply drone_name_inj in Hi. apply in_seq in Hin. lia.
Qed.

Lemma placed_docked cfg : placed cfg docked.
Proof. reflexivity. Qed.

Lemma call_well_formed cfg (c : Call) (this : SwarmController) :
  well_formed cfg this -> well_formed cfg (final (call c this)).
Proof.
  intros [Hcfg [Hnum Hpl]].
  destruct (call_cases c this)
    as [[e ->] | [[_ [_ ->]] | [droneId [d [d' [v [_ [Hd [-> Hc]]]]]]]]];
    unfold final; cbn [snd].
  - repeat split; assumption.
  - split; [exact Hcfg |]. split.
    + unfold numbered, ids in *. cbn [drones _nextDroneId].
      rewrite (set_absent _ _ _ (numbered_next_is_fresh Hnum)).
      rewrite map_app, Hnum, seq_S, map_app. reflexivity.
    + intros k d. cbn [drones]. rewrite get_set_cases.
      destruct (String.eqb _ k); [intros [= <-]; apply placed_docked | apply Hpl].
  - split; [exact Hcfg |]. split.
    + unfold numbered, ids in *. cbn [drones _nextDroneId].
      rewrite keys_update. exact Hnum.
    + intros k d0. cbn [drones]. rewrite get_update_cases.
      destruct (String.eqb droneId k) eqn:E; [| apply Hpl].
      apply String.eqb_eq in E. subst k. rewrite Hd. cbn [option_map].
      intros [= <-]. specialize (Hpl droneId d Hd).
      destruct Hc as [[rid [route [_ [_ [Hr [_ ->]]]]]]
                     | [[amount [_ [Hst [_ [_ [Hpos [Hrt Hst']]]]]]]
                       | [_ [_ [_ ->]]]]].
      * unfold placed. cbn [state]. exists route.
        pose proof (find_some _ _ Hr) as [_ Hid]. apply String.eqb_eq in Hid.
        cbn [routeId position]. rewrite Hid, <- Hcfg. repeat split. exact Hr.
      * unfold placed in *. rewrite Hst in Hpl. rewrite Hpos, Hrt.
        destruct Hst' as [-> | ->]; exact Hpl.
      * apply placed_docked.
Qed.

Lemma run_well_formed cfg (calls : list Call) :
  forall this, well_formed cfg this -> well_formed cfg (snd (run calls this)).
Proof.
  induction calls as [| c calls IH]; intros this Hw; [exact Hw |].
  rewrite run_cons. apply IH, call_well_formed, Hw.
Qed.

Lemma new_well_formed cfg : well_formed cfg (new cfg).
Proof.
  split; [reflexivity |]. split; [reflexivity |].
  intros k d. cbn. discriminate.
Qed.

Lemma reach_well_formed cfg (calls : list Call) : well_formed cfg (reach cfg calls).
Proof. apply run_well_formed, new_well_formed. Qed.

(** X8.  The drones of a controller are named by the counter: after any
    calls the ids of the fleet are [drone-0], [drone-1], ... up to the
    number of drones spawned, in that order, all different; the counter
    equals the size of the fleet. *)
Theorem drones_are_numbered (cfg : SwarmConfig) (calls : list Call) :
  let this := reach cfg calls in
  ids this = map drone_name (seq 0 (_nextDroneId this)) /\
  NoDup (ids this) /\
  JsMap.size (drones this) = Z.of_nat (_nextDroneId this).
Proof.
  intros this. destruct (reach_well_formed cfg calls) as [_ [Hnum _]].
  fold this in Hnum. unfold numbered in Hnum. split; [exact Hnum |]. split.
  - rewrite Hnum. apply NoDup_map_NoDup_ForallPairs; [| apply seq_NoDup].
    intros n m _ _. apply drone_name_inj.
  - unfold JsMap.size. f_equal.
    rewrite <- (length_map fst (drones this)). fold (ids this).
    rewrite Hnum, length_map, length_seq. reflexivity.
Qed.

Lemma length_set (V : Type) k (v : V) m :
  (List.length (JsMap.set k v m) <= S (List.length m))%nat.
Proof.
  induction m as [| [k' v'] m IH]; cbn; [lia |].
  destruct (String.eqb k' k); cbn; lia.
Qed.

Lemma length_update (V : Type) k (f : V -> V) m :
  List.length (JsMap.update k f m) = List.length m.
Proof.
  rewrite <- (length_map fst), keys_update, length_map. reflexivity.
Qed.

(** X9.  The fleet never outgrows the pool: after any calls the number
    of drones is at most [maxDrones], and there is none when
    [maxDrones] is zero or negative. *)
Theorem fleet_within_pool (cfg : SwarmConfig) (calls : list Call) :
  JsMap.size (drones (reach cfg calls)) <= Z.max 0 (maxDrones cfg).
Proof.
  assert (H : forall this,
             config this = cfg /\
             JsMap.size (drones this) <= Z.max 0 (maxDrones cfg) ->
             config (snd (run calls this)) = cfg /\
             JsMap.size (drones (snd (run calls this))) <= Z.max 0 (maxDrones cfg)).
  { induction calls as [| c calls IH]; intros this Hi; [exact Hi |].
    rewrite run_cons. apply IH. destruct Hi as [Hcfg Hsz].
    destruct (call_cases c this)
      as [[e ->] | [[_ [Hlt ->]] | [droneId [d [d' [v [_ [Hd [-> _]]]]]]]]];
      unfold final; cbn [snd config drones].
    - split; assumption.
    - split; [exact Hcfg |]. rewrite Hcfg in Hlt. unfold JsMap.size in *.
      pose proof (length_set (drone_name (_nextDroneId this)) docked (drones this)).
      lia.
    - split; [exact Hcfg |]. unfold JsMap.size in *. rewrite length_update.
      exact Hsz. }
  apply H. split; [reflexivity |]. cbn. lia.
Qed.

(** X10.  Every drone is where its state says.  After any calls, an
    idle drone is at the hub origin, with no cargo and no route; a drone
    that is collecting or returning carries the id of a route of the
    configuration and is at the first waypoint of that route (at no
    coordinates, when the route has no waypoint). *)
Theorem drones_are_placed
        (cfg : SwarmConfig) (calls : list Call) (droneId : string) (d : Drone) :
  JsMap.get droneId (drones (reach cfg calls)) = Some d ->
  placed cfg d.
Proof.
  destruct (reach_well_formed cfg calls) as [_ [_ Hpl]]. apply Hpl.
Qed.

(** X11.  On a controller reached by any calls, a call never removes a
    drone, and it changes the object of a drone only if it names that
    drone; [spawnDrone] changes no drone of the fleet, it adds the one
    it names. *)
Theorem call_changes_only_its_drone
        (cfg : SwarmConfig) (calls : list Call) (c : Call) (droneId : string) :
  let this := reach cfg calls in
  let after := final (call c this) in
  (JsMap.get droneId (drones this) <> None ->
   JsMap.get droneId (drones after) <> None) /\
  (JsMap.get droneId (drones after) <> JsMap.get droneId (drones this) ->
   target c = Some droneId \/
   (c = SpawnDrone /\ JsMap.get droneId (drones this) = None /\
    completion (call c this) = Return (VString droneId))).
Proof.
  intros this after. unfold after.
  destruct (reach_well_formed cfg calls) as [_ [Hnum _]]. fold this in Hnum.
  destruct (call_cases c this)
    as [[e ->] | [[Hc [_ ->]] | [k [d [d' [v [Ht [Hd [-> _]]]]]]]]];
    unfold final, completion; cbn [fst snd drones].
  - split; [auto | intros H; contradiction H; reflexivity].
  - rewrite get_set_cases.
    destruct (String.eqb _ droneId) eqn:E.
    + apply String.eqb_eq in E. subst droneId.
      rewrite (numbered_next_is_fresh Hnum).
      split; [discriminate |]. intros _. right. repeat split. exact Hc.
    + split; [auto | intros H; contradiction H; reflexivity].
  - rewrite get_update_cases.
    destruct (String.eqb k droneId) eqn:E.
    + apply String.eqb_eq in E. subst k. rewrite Hd. cbn [option_map].
      split; [discriminate | intros _; left; exact Ht].
    + split; [auto | intros H; contradiction H; reflexivity].
Qed.


(** The number [idleCount] returns. *)
Lemma idleCount_returns (this : SwarmController) :
  completion (idleCount this) =
  Return (Z.of_nat (List.length
            (filter (fun d => state_eqb (state d) idle)
                    (JsMap.values (drones this))))).
Proof. reflexivity. Qed.

(** X13.  How the idle count moves.  On a controller reached by any
    calls, [spawnDrone] and [returnToHub] that return raise
    [idleCount()] by one, [dispatch] that returns lowers it by one, and
    [collect] and every call that throws leave it as it is. *)
Theorem idle_count_follows_calls
        (cfg : SwarmConfig) (calls : list Call) (c : Call) :
  let this := reach cfg calls in
  exists n,
    completion (idleCount this) = Return n /\
    completion (idleCount (final (call c this))) =
    Return (match c, completion (call c this) with
            | SpawnDrone, Return _ => n + 1
            | Dispatch _ _, Return _ => n - 1
            | ReturnToHub _, Return _ => n + 1
            | _, _ => n
            end).
Proof.
  intros this. eexists. split; [apply idleCount_returns |].
  rewrite idleCount_returns. f_equal.
  destruct (reach_well_formed cfg calls) as [_ [Hnum _]]. fold this in Hnum.
  destruct (call_cases c this)
    as [[e Hcall] | [[Hc [_ Hcall]] | [k [d [d' [v [Ht [Hd [Hcall Hc]]]]]]]]].
  - destruct c; rewrite ?Hcall; reflexivity.
  - subst c. rewrite Hcall. unfold final, completion. cbn [fst snd drones].
    rewrite (set_absent _ _ _ (numbered_next_is_fresh Hnum)).
    unfold JsMap.values. rewrite map_app, filter_app, length_app.
    cbn. lia.
  - destruct Hc as [[rid [route [-> [Hst [_ [_ ->]]]]]]
                   | [[amount [-> [Hst [_ [_ [_ [_ Hst']]]]]]]
                     | [-> [Hst [_ ->]]]]];
      rewrite ?Hcall; unfold final, completion; cbn [fst snd drones];
      rewrite (count_update _ _ _ _ Hd); cbn [state docked].
    + rewrite Hst. cbn. lia.
    + rewrite Hst. destruct Hst' as [-> | ->]; cbn; lia.
    + destruct (state d); [contradiction Hst; reflexivity | cbn; lia..].
Qed.

(** ** A collection run *)

Lemma collected_cons (droneId : string) (c : Call) (rest : list Call) this :
  collected droneId (c :: rest) this =
  (match c with
   | Collect k _ =>
       match completion (call c this) with
       | Return (VNumber n) => if String.eqb k droneId then [n] else []
       | _ => []
       end
   | _ => []
   end ++ collected droneId rest (final (call c this)))%list.
Proof. destruct c; reflexivity. Qed.

Lemma cargo_follows_collect cfg (droneId : string) (trip : list Call) :
  ~ In (ReturnToHub droneId) trip ->
  forall this d,
    well_formed cfg this ->
    JsMap.get droneId (drones this) = Some d -> state d <> idle ->
    exists d',
      JsMap.get droneId (drones (snd (run trip this))) = Some d' /\
      state d' <> idle /\
      cargo d' = fold_left add (collected droneId trip this) (cargo d).
Proof.
  induction trip as [| c trip IH]; intros Hno this d Hw Hd Hst.
  - exists d. repeat split; assumption.
  - rewrite run_cons, collected_cons.
    assert (Hno' : ~ In (ReturnToHub droneId) trip)
      by (intros H; apply Hno; right; exact H).
    assert (Hc0 : c <> ReturnToHub droneId)
      by (intros H; apply Hno; left; exact H).
    pose proof (call_well_formed c Hw) as Hw'.
    destruct Hw as [_ [Hnum _]].
    specialize (IH Hno' (final (call c this))).
    destruct (call_cases c this)
      as [[e Hcall] | [[Hc [_ Hcall]] | [k [e0 [e' [v [Ht [He [Hcall Hc]]]]]]]]];
      unfold final, completion in *; rewrite Hcall in *; cbn [fst snd] in *.
    + replace (match c with Collect _ _ | _ => [] end) with (@nil num)
        by (destruct c; reflexivity).
      cbn [app]. apply (IH d Hw' Hd Hst).
    + subst c. cbn [app]. apply (IH d Hw'); [| exact Hst].
      cbn [drones]. rewrite get_set_cases.
      destruct (String.eqb _ droneId) eqn:E; [| exact Hd].
      apply String.eqb_eq in E. subst droneId.
      rewrite (numbered_next_is_fresh Hnum) in Hd. discriminate.
    + destruct (String.eqb k droneId) eqn:E.
      * apply String.eqb_eq in E. subst k. rewrite Hd in He.
        injection He as <-.
        assert (Hd' : JsMap.get droneId
                        (JsMap.update droneId (fun _ => e') (drones this)) = Some e')
          by (rewrite get_update_same, Hd; reflexivity).
        destruct Hc as [[rid [route [_ [Hidle _]]]]
                       | [[amount [-> [_ [-> [Hcargo [_ [_ Hst']]]]]]]
                         | [-> _]]].
        -- contradiction.
        -- rewrite String.eqb_refl. cbn [app fold_left]. rewrite <- Hcargo.
           apply (IH e' Hw' Hd').
           destruct Hst' as [-> | ->]; discriminate.
        -- contradiction Hc0. reflexivity.
      * replace (match c with
                 | Collect k0 _ => match v with
                                   | VNumber n => if String.eqb k0 droneId
                                                  then [n] else []
                                   | _ => []
                                   end
                 | _ => []
                 end) with (@nil num).
        -- cbn [app]. apply (IH d Hw'); [| exact Hst].
           cbn [drones]. rewrite get_update_cases, E. exact Hd.
        -- destruct c; try reflexivity. cbn [target] in Ht.
           injection Ht as ->. rewrite E. destruct v; reflexivity.
Qed.

(** X14.  What a drone offloads is what it collected.  When [dispatch]
    of a drone returns and the calls that follow hold no [returnToHub]
    of that drone, [returnToHub] then returns the amounts that the
    calls of [collect] on the drone returned in between, added up from
    zero in the order of the calls. *)
Theorem offload_is_what_was_collected
        (cfg : SwarmConfig) (before trip : list Call) (droneId route : string) :
  let this := reach cfg before in
  let out := final (call (Dispatch droneId route) this) in
  completion (call (Dispatch droneId route) this) = Return VUndefined ->
  ~ In (ReturnToHub droneId) trip ->
  completion (call (ReturnToHub droneId) (snd (run trip out))) =
  Return (VNumber (fold_left add (collected droneId trip out) zero)).
Proof.
  intros this out Hret Hno.
  pose proof (reach_well_formed cfg before) as Hw. fold this in Hw.
  pose proof (call_well_formed (Dispatch droneId route) Hw) as Hw'.
  fold out in Hw'.
  assert (Hout : exists d, JsMap.get droneId (drones out) = Some d /\
                           state d <> idle /\ cargo d = zero).
  { unfold out. revert Hret.
    destruct (call_cases (Dispatch droneId route) this)
      as [[e ->] | [[Hc _] | [k [d [d' [v [Ht [Hd [-> Hc]]]]]]]]];
      [discriminate | discriminate |].
    intros _. cbn [target] in Ht. injection Ht as <-.
    unfold final. cbn [snd drones]. exists d'.
    rewrite get_update_same, Hd. split; [reflexivity |].
    destruct Hc as [[rid [rt [_ [Hidle [_ [_ ->]]]]]]
                   | [[amount [Hc _]] | [Hc _]]];
      [| discriminate Hc | discriminate Hc].
    cbn [state cargo]. split; [discriminate |].
    destruct Hw as [_ [_ Hpl]]. specialize (Hpl droneId d Hd).
    unfold placed in Hpl. rewrite Hidle in Hpl. rewrite Hpl. reflexivity. }
  destruct Hout as [d [Hd [Hst Hzero]]].
  destruct (@cargo_follows_collect cfg droneId trip Hno out d Hw' Hd Hst)
    as [d' [Hd' [Hst' Hcargo]]].
  rewrite Hzero in Hcargo. rewrite <- Hcargo.
  cbn [call]. unfold_method. rewrite Hd'.
  destruct (state d'); [contradiction Hst'; reflexivity | reflexivity..].
Qed.
End Fleet.

Lemma drones_are_placed_witness :
  placed Fixtures.swarm
         {| cargo := (zero : @num F64.arith);
            position := At {| x := (F64.of_int 100 : @num F64.arith);
                              y := F64.of_int 100; z := F64.of_int 0 |};
            state := collecting;
            routeId := Some "route-perimeter" |}.
Proof.
  apply (@drones_are_placed F64.arith Fixtures.swarm
           [SpawnDrone; Dispatch "drone-0" "route-perimeter"] "drone-0").
  reflexivity.
Defined.


Lemma offload_is_what_was_collected_witness :
  completion
    (call (ReturnToHub "drone-0")
       (snd (run [Collect "drone-0" (F64.of_int 20 : @num F64.arith);
                  SpawnDrone;
                  Collect "drone-0" (F64.of_int 20 : @num F64.arith)]
                 (final (call (Dispatch "drone-0" "route-perimeter")
                           (reach Fixtures.swarm [SpawnDrone])))))) =
  Return (VNumber (F64.of_int 40 : @num F64.arith)).
Proof.
  apply (@offload_is_what_was_collected F64.arith Fixtures.swarm [SpawnDrone]
           [Collect "drone-0" (F64.of_int 20 : @num F64.arith);
            SpawnDrone;
            Collect "drone-0" (F64.of_int 20 : @num F64.arith)]
           "drone-0" "route-perimeter").
  - reflexivity.
  - intros [H | [H | [H | []]]]; discriminate H.
Defined.
End FleetFacts.

(* ================================================================== *)
(** * The tick engine, field by field *)
(* ================================================================== *)

Module LedgerFacts.
Import Engine Ledger EngineFacts FieldFacts.

Section Generic.
Context {A : Arith}.

(** No hook reads the sector state. *)
Lemma cap_entries_state capName p (st1 st2 : SectorState) :
  cap_entries capName p st1 = cap_entries capName p st2.
Proof.
  unfold cap_entries. destruct (CAPABILITIES capName) as [cap | |] eqn:E;
    [| reflexivity | reflexivity].
  revert E. unfold CAPABILITIES.
  repeat (destruct (String.eqb capName _); [intros [= <-]; reflexivity |]).
  destruct (in_object_prototype capName); discriminate.
Qed.

Lemma apply_primitive_state (st1 st2 : SectorState) o p :
  apply_primitive st1 o p = apply_primitive st2 o p.
Proof.
  unfold apply_primitive, contributions. f_equal.
  induction (capabilities p) as [| n caps IH]; cbn [flat_map]; [reflexivity |].
  rewrite IH, (cap_entries_state n p st1 st2). reflexivity.
Qed.

(** X15.  The output of [tick] depends on the placed primitives alone:
    no hook reads the sector state or draws from the generator, so any
    two sector states and any two seeds give the same completion. *)
Theorem tick_ignores_state_and_seed
        (prims : list Primitive) (st1 st2 : SectorState) (seed1 seed2 : Z) :
  tick prims st1 seed1 = tick prims st2 seed2.
Proof.
  rewrite !tick_spec. destruct (first_unregistered prims); [reflexivity |].
  apply f_equal. generalize zero_output.
  induction prims as [| p prims IH]; intros o; cbn [fold_left]; [reflexivity |].
  rewrite (apply_primitive_state st1 st2). apply IH.
Qed.

(** X16.  What each field of the output is made of.  When [tick]
    returns, [power_consumed] is the consumption of every placed
    primitive, whatever it declares; [power_delta] is the generation of
    the primitives that declare POWER_GENERATION; [light_level_delta]
    counts one for each declaration of LIGHTING by a primitive of
    positive consumption; [morale_delta] is 0.1 for each declaration of
    AESTHETIC; [visibility_score_delta] is the visibility score of the
    primitives that declare WAYFINDING.  A primitive counts once for
    every time it declares the capability, and each field is added up
    from zero in placing order. *)
Theorem tick_field_by_field
        (prims : list Primitive) (st : SectorState) (seed : Z) (o : TickOutput) :
  tick prims st seed = Return o ->
  power_delta o =
    total (map (fun p => power_generation (sim p))
               (declarations "POWER_GENERATION" prims)) /\
  power_consumed o =
    total (map (fun p => power_consumption (sim p)) prims) /\
  light_level_delta o =
    total (map (fun p => if ltb zero (power_consumption (sim p))
                         then one else zero)
               (declarations "LIGHTING" prims)) /\
  morale_delta o =
    total (map (fun _ => tenth) (declarations "AESTHETIC" prims)) /\
  visibility_score_delta o =
    total (map (fun p => visibility_score (sim p))
               (declarations "WAYFINDING" prims)).
Proof.
  rewrite tick_spec. destruct (first_unregistered prims); [discriminate |].
  intros [= <-]. apply fold_fields.
Qed.

(** ** Inert capabilities *)

Lemma inert_registered capName : inert capName = true -> registered capName = true.
Proof.
  unfold inert. intros H.
  apply orb_true_iff in H. destruct H as [H | H];
    [apply orb_true_iff in H; destruct H as [H | H] |];
    apply String.eqb_eq in H; subst capName; reflexivity.
Qed.

Lemma inert_no_entries capName p st :
  inert capName = true -> cap_entries capName p st = [].
Proof.
  unfold inert. intros H.
  apply orb_true_iff in H. destruct H as [H | H];
    [apply orb_true_iff in H; destruct H as [H | H] |];
    apply String.eqb_eq in H; subst capName; reflexivity.
Qed.

Lemma find_unregistered_without_inert (caps : list string) :
  find (fun n => negb (registered n)) (filter (fun n => negb (inert n)) caps) =
  find (fun n => negb (registered n)) caps.
Proof.
  induction caps as [| n caps IH]; cbn [filter find]; [reflexivity |].
  destruct (inert n) eqn:Hi; cbn [negb find].
  - rewrite (inert_registered n Hi). cbn [negb]. exact IH.
  - destruct (negb (registered n)); [reflexivity | exact IH].
Qed.

(** A hook reads nothing of the primitive but its [sim] block. *)
Lemma cap_entries_sim capName (p p' : Primitive) st :
  sim p = sim p' -> cap_entries capName p st = cap_entries capName p' st.
Proof.
  intros Hsim.
  unfold cap_entries. destruct (CAPABILITIES capName) as [cap | |] eqn:E;
    [| reflexivity | reflexivity].
  revert E. unfold CAPABILITIES.
  repeat (destruct (String.eqb capName _);
          [intros [= <-]; cbn; rewrite ?Hsim; reflexivity |]).
  destruct (in_object_prototype capName); discriminate.
Qed.

Lemma apply_primitive_without_inert st o p :
  apply_primitive st o (without_inert p) = apply_primitive st o p.
Proof.
  unfold apply_primitive, contributions. cbn [without_inert capabilities sim].
  f_equal.
  induction (capabilities p) as [| n caps IH]; cbn [filter flat_map];
    [reflexivity |].
  destruct (inert n) eqn:Hi; cbn [negb flat_map].
  - rewrite (inert_no_entries n p st Hi). exact IH.
  - rewrite IH. f_equal. apply cap_entries_sim. reflexivity.
Qed.

(** X17.  HABITATION, STORAGE and TRANSPORT are inert: striking every
    declaration of them from the placed primitives changes neither
    the output of [tick] nor the exception it throws. *)
Theorem tick_without_inert_capabilities
        (prims : list Primitive) (st : SectorState) (seed : Z) :
  tick (map without_inert prims) st seed = tick prims st seed.
Proof.
  rewrite !tick_spec.
  assert (Hf : first_unregistered (map without_inert prims) =
               first_unregistered prims).
  { unfold first_unregistered.
    induction prims as [| p prims IH]; cbn [map flat_map]; [reflexivity |].
    rewrite !find_app, IH. unfold without_inert at 1. cbn [capabilities].
    rewrite find_unregistered_without_inert. reflexivity. }
  rewrite Hf. clear Hf. destruct (first_unregistered prims); [reflexivity |].
  apply f_equal. generalize zero_output.
  induction prims as [| p prims IH]; intros o; cbn [map fold_left];
    [reflexivity |].
  rewrite apply_primitive_without_inert. apply IH.
Qed.

(** ** The generator *)

Lemma to_uint32_to_int32 (x : Z) :
  Int32.to_uint32 (Int32.to_int32 x) = Int32.to_uint32 x.
Proof.
  unfold Int32.to_int32, Int32.to_uint32, Int32.two32.
  destruct (x mod 4294967296 <? 2147483648).
  - apply Z.mod_mod. lia.
  - rewrite <- (Z.mod_add _ 1 4294967296) by lia.
    replace (x mod 4294967296 - 4294967296 + 1 * 4294967296)
      with (x mod 4294967296) by lia.
    apply Z.mod_mod. lia.
Qed.

Lemma to_int32_congruent (x y : Z) :
  Int32.to_uint32 x = Int32.to_uint32 y -> Int32.to_int32 x = Int32.to_int32 y.
Proof. unfold Int32.to_int32. intros ->. reflexivity. Qed.

Lemma to_int32_add (x c : Z) :
  Int32.to_int32 (Int32.to_int32 x + c) = Int32.to_int32 (x + c).
Proof.
  apply to_int32_congruent.
  pose proof (to_uint32_to_int32 x) as H.
  unfold Int32.to_uint32, Int32.two32 in *.
  rewrite Z.add_mod, H, <- Z.add_mod by lia. reflexivity.
Qed.

Lemma to_int32_range (x : Z) :
  -2147483648 <= Int32.to_int32 x < 2147483648.
Proof.
  unfold Int32.to_int32, Int32.to_uint32, Int32.two32.
  pose proof (Z.mod_pos_bound x 4294967296 ltac:(lia)).
  destruct (x mod 4294967296 <? 2147483648) eqn:E;
    [apply Z.ltb_lt in E | apply Z.ltb_ge in E]; lia.
Qed.

(** X18.  The state of the generator is a 32-bit counter: after [n]
    draws from [createRng(seed)] the generator is the one
    [createRng(seed + n * 0x6d2b79f5)] returns, seeds that agree modulo
    2^32 give the same generator, the state stays a signed 32-bit
    integer, and the integer a draw divides by 4294967296 lies between
    0 and 2^32 - 1. *)
Theorem generator_is_a_counter (seed k : Z) (n : nat) :
  advance n (createRng seed) = createRng (seed + Z.of_nat n * 1831565813) /\
  createRng (seed + k * 4294967296) = createRng seed /\
  -2147483648 <= advance n (createRng seed) < 2147483648 /\
  0 <= fst (rng_draw (advance n (createRng seed))) < 4294967296.
Proof.
  assert (Hadv : forall m s, advance m (createRng s) =
                             createRng (s + Z.of_nat m * 1831565813)).
  { induction m as [| m IH]; intros s.
    - cbn [advance]. f_equal. lia.
    - cbn [advance]. unfold rng_draw at 1. cbn [snd].
      unfold createRng at 1. rewrite to_int32_add.
      fold (createRng (s + 1831565813)). rewrite IH. f_equal. lia. }
  split; [apply Hadv |]. split; [| split].
  - unfold createRng. apply to_int32_congruent.
    unfold Int32.to_uint32, Int32.two32. apply Z.mod_add. lia.
  - rewrite Hadv. apply to_int32_range.
  - unfold rng_draw. cbn [fst]. unfold Int32.to_uint32, Int32.two32.
    apply Z.mod_pos_bound. lia.
Qed.
End Generic.

(** ** Whole numbers *)

(** X19.  Sectors add up.  Ticking two lists of primitives placed one
    after the other throws what the first list throws, else what the
    second throws.  When the [sim] blocks hold integers and the weights
    of all the primitives add up to less than 2^53, the fields
    [power_delta], [power_consumed], [light_level_delta] and
    [visibility_score_delta] of the whole are the binary64 sums of those
    of the two parts, and [morale_delta] is the run of additions of 0.1
    continued through both parts. *)
Theorem tick_of_concatenation
        (xs ys : list Whole.Entry) (st : SectorState (A := F64.arith)) (seed : Z) :
  Whole.magnitude (xs ++ ys) < 2 ^ 53 ->
  tick (map Whole.primitive (xs ++ ys)) st seed =
  match tick (map Whole.primitive xs) st seed with
  | Throw e => Throw e
  | Return o1 =>
      match tick (map Whole.primitive ys) st seed with
      | Throw e => Throw e
      | Return o2 =>
          Return {| power_delta := add (power_delta o1) (power_delta o2);
                    power_consumed :=
                      add (power_consumed o1) (power_consumed o2);
                    light_level_delta :=
                      add (light_level_delta o1) (light_level_delta o2);
                    morale_delta :=
                      total (repeat tenth
                                    (Whole.decorations xs + Whole.decorations ys));
                    visibility_score_delta :=
                      add (visibility_score_delta o1)
                          (visibility_score_delta o2) |}
      end
  end.
Proof.
  intros Hm.
  pose proof (WholeFacts.magnitude_nonneg xs) as Hx.
  pose proof (WholeFacts.magnitude_nonneg ys) as Hy.
  assert (Hs : Whole.magnitude (xs ++ ys) = Whole.magnitude xs + Whole.magnitude ys)
    by apply WholeFacts.sum_app.
  assert (Hmx : Whole.magnitude xs < 2 ^ 53) by lia.
  assert (Hmy : Whole.magnitude ys < 2 ^ 53) by lia.
  rewrite (WholeFacts.tick_whole (xs ++ ys) st seed Hm).
  rewrite (WholeFacts.tick_whole xs st seed Hmx).
  rewrite (WholeFacts.tick_whole ys st seed Hmy).
  rewrite map_app, first_unregistered_app.
  destruct (first_unregistered (map Whole.primitive xs)); [reflexivity |].
  destruct (first_unregistered (map Whole.primitive ys)); [reflexivity |].
  apply f_equal. unfold Whole.output.
  cbn [power_delta power_consumed light_level_delta morale_delta
       visibility_score_delta].
  pose proof (WholeFacts.generated_small (xs ++ ys) Hm) as G.
  pose proof (WholeFacts.consumed_small (xs ++ ys) Hm) as C.
  pose proof (WholeFacts.lit_small (xs ++ ys) Hm) as L.
  pose proof (WholeFacts.seen_small (xs ++ ys) Hm) as V.
  unfold Whole.generated, Whole.consumed, Whole.lit, Whole.seen,
    Whole.decorations in *.
  rewrite !WholeFacts.sum_app in *.
  change (@add F64.arith) with F64.fadd.
  rewrite !IntegerFacts.fadd_int;
    try assumption;
    try (apply WholeFacts.generated_small; assumption);
    try (apply WholeFacts.consumed_small; assumption);
    try (apply WholeFacts.lit_small; assumption);
    try (apply WholeFacts.seen_small; assumption).
  rewrite Z2Nat.inj_add by apply WholeFacts.count_sum_nonneg.
  reflexivity.
Qed.

(** X20.  The placing order does not matter for whole numbers.  When
    the [sim] blocks hold integers and the weights add up to less than
    2^53, an output [tick] returns for a list of primitives is the
    output it returns for every rearrangement of the list. *)
Theorem tick_order_irrelevant
        (xs ys : list Whole.Entry) (st : SectorState (A := F64.arith)) (seed : Z)
        (o : TickOutput (A := F64.arith)) :
  Permutation xs ys ->
  Whole.magnitude xs < 2 ^ 53 ->
  tick (map Whole.primitive xs) st seed = Return o ->
  tick (map Whole.primitive ys) st seed = Return o.
Proof.
  intros Hperm Hm.
  assert (Hmy : Whole.magnitude ys < 2 ^ 53)
    by (unfold Whole.magnitude in *;
        rewrite <- (WholeFacts.sum_permutation Whole.weight Hperm); exact Hm).
  rewrite (WholeFacts.tick_whole xs st seed Hm).
  rewrite (WholeFacts.tick_whole ys st seed Hmy).
  destruct (first_unregistered (map Whole.primitive xs)) eqn:Hx; [discriminate |].
  assert (Hy : first_unregistered (map Whole.primitive ys) = None).
  { apply first_unregistered_none. intros p n Hp Hn.
    apply (proj1 (first_unregistered_none (map Whole.primitive xs)) Hx p n);
      [| exact Hn].
    apply (Permutation_in p (Permutation_sym (Permutation_map _ Hperm)) Hp). }
  rewrite Hy. intros [= <-]. apply f_equal.
  unfold Whole.output, Whole.generated, Whole.consumed, Whole.lit, Whole.seen,
    Whole.decorations.
  rewrite !(WholeFacts.sum_permutation _ Hperm). reflexivity.
Qed.
Lemma tick_field_by_field_witness :
  power_consumed
    ({| power_delta := (F64.pos_zero : @num F64.arith);
        power_consumed := F64.of_int 5;
        light_level_delta := F64.of_int 1;
        morale_delta := F64.lit_0_1;
        visibility_score_delta := F64.of_int 2 |}
     : TickOutput (A := F64.arith)) =
  total (map (fun p => power_consumption (sim p)) [Fixtures.neon]).
Proof.
  apply (proj1 (proj2
           (@tick_field_by_field F64.arith [Fixtures.neon]
              Fixtures.sectorState 42 _ eq_refl))).
Defined.

Lemma tick_of_concatenation_witness :
  tick (map Whole.primitive ([Fixtures.strip] ++ [Samples.reactor; Fixtures.strip]))
       Fixtures.sectorState 42 =
  Return ({| power_delta := (F64.of_int 40 : @num F64.arith);
             power_consumed := F64.of_int 11;
             light_level_delta := F64.of_int 2;
             morale_delta := F64.fadd F64.lit_0_1 F64.lit_0_1;
             visibility_score_delta := F64.of_int 7 |}
          : TickOutput (A := F64.arith)).
Proof.
  rewrite (@tick_of_concatenation [Fixtures.strip]
             [Samples.reactor; Fixtures.strip] Fixtures.sectorState 42 eq_refl).
  reflexivity.
Defined.

Lemma tick_order_irrelevant_witness :
  tick (map Whole.primitive [Samples.reactor; Fixtures.strip])
       Fixtures.sectorState 42 =
  Return (Whole.output [Fixtures.strip; Samples.reactor]).
Proof.
  apply (@tick_order_irrelevant [Fixtures.strip; Samples.reactor]
           [Samples.reactor; Fixtures.strip] Fixtures.sectorState 42).
  - apply perm_swap.
  - reflexivity.
  - reflexivity.
Defined.
End LedgerFacts.

(* ================================================================== *)
(** * The planner, on the blueprint *)
(* ================================================================== *)

Module RouteFacts.
Import F64 Planner Route JsMapFacts PlannerClaims.

(** ** The index *)

Section Index.
Variables (T V : Type) (key : T -> string) (val : T -> V).

Let index (xs : list T) (m : JsMap.t V) : JsMap.t V :=
  fold_left (fun m x => JsMap.set (key x) (val x) m) xs m.

(** A lookup in a map filled from a list finds what the last element
    with that key put there. *)
Lemma get_index (k : string) (xs : list T) :
  forall m,
    JsMap.get k (index xs m) =
    match find (fun x => String.eqb (key x) k) (rev xs) with
    | Some x => Some (val x)
    | None => JsMap.get k m
    end.
Proof.
  unfold index.
  induction xs as [| x xs IH]; intros m; cbn [fold_left rev find];
    [reflexivity |].
  rewrite IH, EngineFacts.find_app.
  destruct (find _ (rev xs)); [reflexivity |].
  cbn [find]. rewrite get_set_cases.
  destruct (String.eqb (key x) k); reflexivity.
Qed.

Lemma in_set k v k' v' (m : JsMap.t V) :
  In (k, v) (JsMap.set k' v' m) -> (k = k' /\ v = v') \/ In (k, v) m.
Proof.
  induction m as [| [k0 v0] m IH]; cbn.
  - intros [[= <- <-] | []]. left. split; reflexivity.
  - destruct (String.eqb k0 k') eqn:E; cbn.
    + apply String.eqb_eq in E. subst k0.
      intros [[= <- <-] | H]; [left; split; reflexivity | right; right; exact H].
    + intros [H | H]; [right; left; exact H |].
      destruct (IH H) as [H' | H']; [left; exact H' | right; right; exact H'].
Qed.

(** Whatever the map holds was put there from the list. *)
Lemma in_index k v (xs : list T) :
  forall m,
    In (k, v) (index xs m) ->
    In (k, v) m \/ exists x, In x xs /\ key x = k /\ val x = v.
Proof.
  unfold index.
  induction xs as [| x xs IH]; intros m; cbn [fold_left]; [left; assumption |].
  intros H. destruct (IH _ H) as [H' | [y [Hy Hkv]]].
  - destruct (in_set _ _ _ _ _ H') as [[-> ->] | H''].
    + right. exists x. repeat split. left. reflexivity.
    + left. exact H''.
  - right. exists y. split; [right; exact Hy | exact Hkv].
Qed.

(** With distinct keys the map lists the elements in their order. *)
Lemma index_distinct (xs : list T) :
  NoDup (map key xs) ->
  forall m,
    (forall x, In x xs -> JsMap.get (key x) m = None) ->
    index xs m = (m ++ map (fun x => (key x, val x)) xs)%list.
Proof.
  unfold index.
  induction xs as [| x xs IH]; intros Hnd m Hm; cbn [fold_left map].
  - rewrite app_nil_r. reflexivity.
  - inversion Hnd as [| ? ? Hx Hnd']; subst.
    rewrite IH; [| exact Hnd' |].
    + rewrite (FleetFacts.set_absent _ _ _ (Hm x (or_introl eq_refl))).
      rewrite <- app_assoc. reflexivity.
    + intros y Hy. rewrite get_set_cases.
      destruct (String.eqb (key x) (key y)) eqn:E.
      * apply String.eqb_eq in E. contradiction Hx. rewrite E.
        apply in_map, Hy.
      * apply Hm. right. exact Hy.
Qed.
End Index.

Lemma get_zone bp zid :
  JsMap.get zid (zones (_index bp)) = option_map index_zone (last_zone bp zid).
Proof.
  unfold _index, last_zone. cbn [zones].
  rewrite (get_index zone_id index_zone zid (layout_zones bp)).
  destruct (find _ (rev (layout_zones bp))); reflexivity.
Qed.

Lemma get_structure z sid :
  JsMap.get sid (index_zone z) = last_structure z sid.
Proof.
  unfold index_zone, last_structure.
  rewrite (get_index id (fun s => s) sid (structures z)).
  destruct (find _ (rev (structures z))); reflexivity.
Qed.

Lemma values_index_zone z s :
  In s (JsMap.values (index_zone z)) -> In s (structures z).
Proof.
  unfold JsMap.values, index_zone. intros H.
  apply in_map_iff in H. destruct H as [[k v] [Hv Hin]]. cbn in Hv. subst v.
  destruct (in_index id (fun s => s) k s (structures z) _ Hin)
    as [[] | [x [Hx [_ Hs]]]].
  subst x. exact Hx.
Qed.

(** X21.  The index of a blueprint answers with the last entry: the
    zone found under an id is the index of the last zone of the
    blueprint with that id, and the structure found under an id in a
    zone is the last structure of the zone with that id.  When the ids
    of the structures of a zone are distinct, the zone lists its
    structures in blueprint order. *)
Theorem index_answers_with_last (bp : Blueprint) (z : Zone) (zid sid : string) :
  JsMap.get zid (zones (_index bp)) = option_map index_zone (last_zone bp zid) /\
  JsMap.get sid (index_zone z) = last_structure z sid /\
  (NoDup (map id (structures z)) ->
   JsMap.values (index_zone z) = structures z).
Proof.
  split; [apply get_zone |]. split; [apply get_structure |].
  intros Hnd. unfold index_zone, JsMap.values.
  rewrite (index_distinct id (fun s => s) (structures z) Hnd).
  - cbn [JsMap.empty app]. rewrite map_map. cbn [snd]. apply map_id.
  - intros x _. reflexivity.
Qed.

(** ** The structures a route is made of *)

(** A structure found in a zone of the index is a structure of a zone
    of the blueprint with that id. *)
Lemma find_in_zone bp zid pred s :
  find_in (JsMap.get zid (zones (_index bp))) pred = Some s ->
  exists z, In z (layout_zones bp) /\ zone_id z = zid /\
            In s (structures z) /\ pred s = true.
Proof.
  intros H. destruct (find_in_some _ _ H) as [zm [Hz [Hin Hp]]].
  rewrite get_zone in Hz. unfold last_zone in Hz.
  destruct (find _ (rev (layout_zones bp))) as [z |] eqn:Hf; [| discriminate].
  injection Hz as <-. apply find_some in Hf. destruct Hf as [Hzin Hzid].
  exists z. split; [apply in_rev, Hzin |].
  split; [apply String.eqb_eq, Hzid |].
  split; [apply values_index_zone, Hin | exact Hp].
Qed.

Lemma find_in_blueprint bp zid pred s :
  find_in (JsMap.get zid (zones (_index bp))) pred = Some s ->
  in_blueprint bp (id s).
Proof.
  intros H. destruct (find_in_zone _ _ _ H) as [z [Hz [_ [Hs _]]]].
  exists z, s. repeat split; assumption.
Qed.

Lemma includes_indexOf (xs : list string) (x : string) :
  includes xs x = true -> (0 <=? indexOf xs x) = true.
Proof.
  unfold includes. induction xs as [| y xs IH]; cbn [existsb indexOf];
    [discriminate |].
  rewrite String.eqb_sym. destruct (String.eqb y x); [reflexivity |].
  cbn [orb]. intros H. specialize (IH H). apply Z.leb_le in IH.
  destruct (indexOf xs x <? 0) eqn:E;
    [apply Z.ltb_lt in E; lia | apply Z.leb_le; lia].
Qed.

(** Step 4 on a refinery that step 3 selected. *)
Lemma refinery_output_selected r resourceType :
  is_refinery_for resourceType r = true ->
  match outputTypes r with
  | None => refinery_output r resourceType = Throw missing_outputTypes
  | Some _ => exists ot, refinery_output r resourceType = Return ot
  end.
Proof.
  unfold is_refinery_for, refinery_output. intros H.
  apply andb_true_iff in H. destruct H as [_ H].
  destruct (inputTypes r) as [ins |]; [| discriminate].
  rewrite (includes_indexOf ins resourceType H).
  destruct (outputTypes r) as [outs |]; [| reflexivity].
  destruct (indexOf ins resourceType <? _); eexists; reflexivity.
Qed.

(** [planRoute] by the stages it finds. *)
Lemma planRoute_stages this resourceType dock :
  intake_dock this = Some dock ->
  let refinery :=
    find_in (JsMap.get "processing-zone" (zones this))
            (is_refinery_for resourceType) in
  (exists sz r,
      JsMap.get "storage-zone" (zones this) = Some sz /\
      refinery = Some r /\ outputTypes r = None /\
      planRoute this resourceType = Throw missing_outputTypes) \/
  (exists store,
      planRoute this resourceType =
      Return {| Result.route :=
                  (stage (Some dock) ++ stage (intake_conveyor this dock)
                     ++ stage refinery ++ stage store
                     ++ stage (outbound_dock this))%list;
                Result.throughput := clamped_throughput this dock |} /\
      (forall s, store = Some s ->
                 exists sz ot,
                   JsMap.get "storage-zone" (zones this) = Some sz /\
                   find (is_store_of ot) (JsMap.values sz) = Some s)).
Proof.
  intros Hd refinery.
  assert (Hthr : forall res, planRoute this resourceType = Return res ->
                             Result.throughput res = clamped_throughput this dock)
    by (intros res; apply planRoute_returned, Hd).
  revert Hthr. unfold planRoute, intake_conveyor, outbound_dock.
  unfold intake_dock in Hd. rewrite Hd. fold refinery.
  set (conveyor := find_in _ (is_conveyor_from dock)).
  set (outDock := find_in (JsMap.get "distribution-zone" _) is_dock).
  clearbody conveyor outDock.
  destruct (JsMap.get "storage-zone" (zones this)) as [sz |] eqn:Hsz.
  - destruct refinery as [r |] eqn:Hr.
    + destruct (find_in_some _ _ Hr) as [_ [_ [_ Hsel]]].
      pose proof (refinery_output_selected r resourceType Hsel) as Hout.
      destruct (outputTypes r) as [outs |] eqn:Ho.
      * destruct Hout as [ot ->]. intros Hthr. right.
        destruct (find (is_store_of ot) (JsMap.values sz)) as [silo |] eqn:Hs.
        -- exists (Some silo). split.
           ++ rewrite <- (Hthr _ eq_refl). cbn [Result.throughput].
              destruct conveyor, outDock; reflexivity.
           ++ intros s [= <-]. exists sz, ot. split; [reflexivity | exact Hs].
        -- exists None. split; [| discriminate].
           rewrite <- (Hthr _ eq_refl). cbn [Result.throughput].
           destruct conveyor, outDock; reflexivity.
      * rewrite Hout. intros _. left. exists sz, r. repeat split. exact Ho.
    + intros Hthr. right.
      destruct (find (is_store_of (Some resourceType)) (JsMap.values sz))
        as [silo |] eqn:Hs.
      * exists (Some silo). split.
        -- rewrite <- (Hthr _ eq_refl). cbn [Result.throughput].
           destruct conveyor, outDock; reflexivity.
        -- intros s [= <-]. exists sz, (Some resourceType).
           split; [reflexivity | exact Hs].
      * exists None. split; [| discriminate].
        rewrite <- (Hthr _ eq_refl). cbn [Result.throughput].
        destruct conveyor, outDock; reflexivity.
  - intros Hthr. right. exists None. split; [| discriminate].
    rewrite <- (Hthr _ eq_refl). cbn [Result.throughput].
    destruct conveyor, refinery, outDock; reflexivity.
Qed.

Lemma planRoute_no_dock this resourceType :
  intake_dock this = None ->
  planRoute this resourceType =
  Return {| Result.route := []; Result.throughput := pos_zero |}.
Proof. unfold intake_dock, planRoute. intros ->. reflexivity. Qed.

(** X22.  [planRoute] throws in one situation only: there is an intake
    dock and a storage zone, and the refinery selected for the resource
    has no [outputTypes]; what it throws is then the TypeError of
    reading [length] of [undefined]. *)
Theorem planRoute_throws_iff
        (this : PlannerController) (resourceType : string) (e : JsError) :
  planRoute this resourceType = Throw e <->
  exists dock sz r,
    intake_dock this = Some dock /\
    JsMap.get "storage-zone" (zones this) = Some sz /\
    find_in (JsMap.get "processing-zone" (zones this))
            (is_refinery_for resourceType) = Some r /\
    outputTypes r = None /\
    e = missing_outputTypes.
Proof.
  split.
  - intros H. destruct (intake_dock this) as [dock |] eqn:Hd.
    + destruct (planRoute_stages this resourceType Hd)
        as [[sz [r [Hsz [Hr [Ho Ht]]]]] | [store [Hret _]]].
      * exists dock, sz, r. rewrite Ht in H. injection H as <-.
        repeat split; assumption.
      * rewrite Hret in H. discriminate.
    + rewrite (planRoute_no_dock this resourceType Hd) in H. discriminate.
  - intros [dock [sz [r [Hd [Hsz [Hr [Ho ->]]]]]]].
    destruct (find_in_some _ _ Hr) as [_ [_ [_ Hsel]]].
    pose proof (refinery_output_selected r resourceType Hsel) as Hout.
    rewrite Ho in Hout.
    unfold planRoute. unfold intake_dock in Hd. rewrite Hd, Hsz, Hr, Hout.
    reflexivity.
Qed.

Lemma length_stage s : (List.length (stage s) <= 1)%nat.
Proof. destruct s; cbn; lia. Qed.

(** X23.  The route [planRoute] returns for a blueprint starts at the
    intake dock, has at most five ids, and every id is that of a
    structure of the blueprint; without an intake dock the route is
    empty and the throughput zero. *)
Theorem planRoute_route_from_blueprint
        (bp : Blueprint) (resourceType : string) (res : Result.t) :
  planRoute (_index bp) resourceType = Return res ->
  (List.length (Result.route res) <= 5)%nat /\
  (forall i, In i (Result.route res) -> in_blueprint bp i) /\
  match intake_dock (_index bp) with
  | Some dock => hd_error (Result.route res) = Some (id dock)
  | None => res = {| Result.route := []; Result.throughput := pos_zero |}
  end.
Proof.
  intros H. destruct (intake_dock (_index bp)) as [dock |] eqn:Hd.
  - destruct (planRoute_stages (_index bp) resourceType Hd)
      as [[sz [r [_ [_ [_ Ht]]]]] | [store [Hret Hstore]]];
      [rewrite Ht in H; discriminate |].
    set (refinery := find_in (JsMap.get "processing-zone" (zones (_index bp)))
                             (is_refinery_for resourceType)) in *.
    assert (Hres : Result.route res =
                   (stage (Some dock) ++ stage (intake_conveyor (_index bp) dock)
                      ++ stage refinery ++ stage store
                      ++ stage (outbound_dock (_index bp)))%list)
      by (rewrite Hret in H; injection H as <-; reflexivity).
    rewrite Hres. clear Hres H Hret.
    split; [| split; [| reflexivity]].
    + rewrite !length_app.
      pose proof (length_stage (intake_conveyor (_index bp) dock)).
      pose proof (length_stage refinery).
      pose proof (length_stage store).
      pose proof (length_stage (outbound_dock (_index bp))).
      cbn [stage List.length]. lia.
    + intros i Hi.
      assert (Hst : forall zid pred,
                 In i (stage (find_in (JsMap.get zid (zones (_index bp))) pred)) ->
                 in_blueprint bp i).
      { intros zid pred Hin.
        destruct (find_in _ pred) as [s |] eqn:Hf; [| contradiction].
        destruct Hin as [<- | []]. apply (find_in_blueprint _ _ _ Hf). }
      unfold refinery, intake_conveyor, outbound_dock in Hi.
      repeat (apply in_app_or in Hi; destruct Hi as [Hi | Hi]).
      * destruct Hi as [<- | []]. apply (find_in_blueprint _ _ _ Hd).
      * apply (Hst _ _ Hi).
      * apply (Hst _ _ Hi).
      * destruct store as [s |]; [| contradiction].
        destruct Hi as [<- | []].
        destruct (Hstore s eq_refl) as [sz [ot [Hsz Hfind]]].
        apply (find_in_blueprint bp "storage-zone" (is_store_of ot)).
        unfold find_in. rewrite Hsz. exact Hfind.
      * apply (Hst _ _ Hi).
  - rewrite (planRoute_no_dock _ resourceType Hd) in H. injection H as <-.
    split; [cbn; lia |]. split; [intros i [] | reflexivity].
Qed.

(** X24.  The throughput of a plan does not depend on the resource:
    two calls of [planRoute] on one controller that return, return the
    same throughput, whatever the two resource types. *)
Theorem throughput_same_for_every_resource
        (this : PlannerController) (resource1 resource2 : string)
        (res1 res2 : Result.t) :
  planRoute this resource1 = Return res1 ->
  planRoute this resource2 = Return res2 ->
  Result.throughput res1 = Result.throughput res2.
Proof.
  intros H1 H2. destruct (intake_dock this) as [dock |] eqn:Hd.
  - rewrite (planRoute_returned this resource1 Hd H1).
    rewrite (planRoute_returned this resource2 Hd H2). reflexivity.
  - rewrite (planRoute_no_dock this resource1 Hd) in H1.
    rewrite (planRoute_no_dock this resource2 Hd) in H2.
    injection H1 as <-. injection H2 as <-. reflexivity.
Qed.

(** ** Clamps that are not numbers *)

Lemma Math_min_NaN_l (x : number) : Math_min NaN x = NaN.
Proof. reflexivity. Qed.

Lemma Math_min_NaN_r (x : number) : Math_min x NaN = NaN.
Proof. destruct x; reflexivity. Qed.

Lemma clamp_all_NaN (cs : list number) : clamp_all NaN cs = NaN.
Proof.
  unfold clamp_all. induction cs as [| c cs IH]; [reflexivity |].
  cbn [fold_left]. rewrite Math_min_NaN_l. exact IH.
Qed.

Lemma clamp_all_with_NaN (cs : list number) :
  In NaN cs -> forall start, clamp_all start cs = NaN.
Proof.
  induction cs as [| c cs IH]; intros Hin start; [contradiction |].
  unfold clamp_all. cbn [fold_left]. destruct Hin as [-> | Hin].
  - rewrite Math_min_NaN_r. apply clamp_all_NaN.
  - apply (IH Hin).
Qed.

(** X25.  One clamp that is not a number spoils the plan: when the
    intake dock or the outbound dock has no [throughput], the conveyor
    no [rate] or a connection no [bandwidth] (or one of them is NaN),
    the throughput [planRoute] returns is NaN. *)
Theorem throughput_NaN_when_a_clamp_is_missing
        (this : PlannerController) (resourceType : string)
        (dock : Structure) (res : Result.t) :
  intake_dock this = Some dock ->
  planRoute this resourceType = Return res ->
  In NaN (clamps this dock) ->
  Result.throughput res = NaN.
Proof.
  intros Hd H Hnan. rewrite (planRoute_returned this resourceType Hd H).
  unfold clamped_throughput. apply clamp_all_with_NaN, Hnan.
Qed.

(** ** The bottleneck *)

(** [SFcompare] on numbers is the lexicographic comparison of their
    keys. *)
Lemma compare_key (x y : number) :
  x <> NaN -> y <> NaN ->
  Floats.SpecFloat.SFcompare x y = Some (key_compare (key x) (key y)).
Proof.
  intros Hx Hy.
  destruct x as [sx | sx | | sx mx ex]; [| | contradiction Hx; reflexivity |];
    (destruct y as [sy | sy | | sy my ey];
     [| | contradiction Hy; reflexivity |]);
    try destruct sx; try destruct sy; try reflexivity;
    unfold key, key_compare, Floats.SpecFloat.SFcompare;
    change (-1 ?= -1) with Eq; cbv iota.
  rewrite Z.compare_opp, (Z.compare_antisym ex ey).
  destruct (ex ?= ey); reflexivity.
Qed.

Lemma key_compare_antisym k1 k2 :
  key_compare k2 k1 = CompOpp (key_compare k1 k2).
Proof.
  destruct k1 as [[a1 b1] c1], k2 as [[a2 b2] c2]. cbn [key_compare].
  rewrite (Z.compare_antisym a1 a2), (Z.compare_antisym b1 b2),
    (Z.compare_antisym c1 c2).
  destruct (a1 ?= a2), (b1 ?= b2), (c1 ?= c2); reflexivity.
Qed.

Lemma key_compare_le k1 k2 :
  key_compare k1 k2 <> Gt <->
  (let '(a1, b1, c1) := k1 in
   let '(a2, b2, c2) := k2 in
   a1 < a2 \/ (a1 = a2 /\ (b1 < b2 \/ (b1 = b2 /\ c1 <= c2)))).
Proof.
  destruct k1 as [[a1 b1] c1], k2 as [[a2 b2] c2]. cbn [key_compare].
  destruct (Z.compare_spec a1 a2), (Z.compare_spec b1 b2),
    (Z.compare_spec c1 c2); split; intros Hle; try lia; try discriminate;
    try (contradiction Hle; reflexivity).
Qed.

Lemma fle_key (x y : number) :
  x <> NaN -> y <> NaN ->
  (fle x y = true <-> key_compare (key x) (key y) <> Gt).
Proof.
  intros Hx Hy. unfold fle, Floats.SpecFloat.SFleb.
  rewrite (compare_key Hx Hy).
  destruct (key_compare (key x) (key y)); split; intros H;
    try reflexivity; try discriminate; contradiction H; reflexivity.
Qed.

Lemma fle_refl (x : number) : x <> NaN -> fle x x = true.
Proof.
  intros Hx. apply (fle_key Hx Hx), key_compare_le.
  destruct (key x) as [[a b] c]. lia.
Qed.

Lemma fle_trans (x y z : number) :
  x <> NaN -> y <> NaN -> z <> NaN ->
  fle x y = true -> fle y z = true -> fle x z = true.
Proof.
  intros Hx Hy Hz Hxy Hyz.
  apply (fle_key Hx Hy), key_compare_le in Hxy.
  apply (fle_key Hy Hz), key_compare_le in Hyz.
  apply (fle_key Hx Hz), key_compare_le.
  destruct (key x) as [[a1 b1] c1], (key y) as [[a2 b2] c2],
    (key z) as [[a3 b3] c3]. lia.
Qed.

(** [Math.min] of two numbers is one of them, and at most both. *)
Lemma Math_min_spec (a b : number) :
  a <> NaN -> b <> NaN ->
  (Math_min a b = a \/ Math_min a b = b) /\
  fle (Math_min a b) a = true /\ fle (Math_min a b) b = true.
Proof.
  intros Ha Hb.
  assert (Hba : fle b a = true <-> key_compare (key a) (key b) <> Lt).
  { rewrite (fle_key Hb Ha), key_compare_antisym.
    destruct (key_compare (key a) (key b)); cbn [CompOpp]; split; intros H;
      try discriminate; try (contradiction H; reflexivity);
      intros H'; discriminate H'. }
  assert (Hab : fle a b = true <-> key_compare (key a) (key b) <> Gt)
    by apply (fle_key Ha Hb).
  unfold Math_min. rewrite (compare_key Ha Hb).
  destruct (key_compare (key a) (key b)) eqn:E.
  - destruct (is_neg_zero a).
    + split; [left; reflexivity |].
      split; [apply fle_refl, Ha | apply Hab; discriminate].
    + split; [right; reflexivity |].
      split; [apply Hba; discriminate | apply fle_refl, Hb].
  - split; [left; reflexivity |].
    split; [apply fle_refl, Ha | apply Hab; discriminate].
  - split; [right; reflexivity |].
    split; [apply Hba; discriminate | apply fle_refl, Hb].
Qed.

Lemma clamp_all_spec (cs : list number) :
  ~ In NaN cs ->
  forall start,
    start <> NaN ->
    let r := clamp_all start cs in
    r <> NaN /\ (r = start \/ In r cs) /\
    fle r start = true /\ forall c, In c cs -> fle r c = true.
Proof.
  unfold clamp_all.
  induction cs as [| c cs IH]; intros Hno start Hstart; cbn [fold_left].
  - split; [exact Hstart |]. split; [left; reflexivity |].
    split; [apply fle_refl, Hstart | intros c []].
  - assert (Hc : c <> NaN) by (intros ->; apply Hno; left; reflexivity).
    assert (Hno' : ~ In NaN cs) by (intros H; apply Hno; right; exact H).
    destruct (Math_min_spec Hstart Hc) as [Hm [Hms Hmc]].
    assert (Hmn : Math_min start c <> NaN)
      by (destruct Hm as [-> | ->]; assumption).
    destruct (IH Hno' (Math_min start c) Hmn) as [Hr [Hin [Hle Hall]]].
    split; [exact Hr |]. split; [| split].
    + destruct Hin as [-> | Hin]; [| right; right; exact Hin].
      destruct Hm as [-> | ->]; [left; reflexivity | right; left; reflexivity].
    + apply (fle_trans Hr Hmn Hstart Hle Hms).
    + intros c' [<- | Hc']; [| apply Hall, Hc'].
      apply (fle_trans Hr Hmn Hc Hle Hmc).
Qed.

(** X26.  The throughput is the bottleneck.  When no clamp is NaN
    (the intake dock and the outbound dock state a throughput, the
    conveyor a rate and every connection a bandwidth), the throughput
    [planRoute] returns is one of these numbers and is at most each of
    them: the smallest. *)
Theorem throughput_is_the_bottleneck
        (this : PlannerController) (resourceType : string)
        (dock : Structure) (res : Result.t) :
  intake_dock this = Some dock ->
  planRoute this resourceType = Return res ->
  ~ In NaN (clamps this dock) ->
  In (Result.throughput res) (clamps this dock) /\
  forall c, In c (clamps this dock) -> fle (Result.throughput res) c = true.
Proof.
  intros Hd H Hno. rewrite (planRoute_returned this resourceType Hd H).
  unfold clamped_throughput. fold (clamps this dock).
  assert (Hinf : Infinity <> NaN) by discriminate.
  destruct (@clamp_all_spec (clamps this dock) Hno Infinity Hinf)
    as [_ [Hin [_ Hall]]].
  split; [| exact Hall].
  destruct Hin as [Hin | Hin]; [| exact Hin].
  rewrite Hin. unfold clamps in *.
  set (c1 := to_number (throughput dock)) in *.
  specialize (Hall c1 (or_introl eq_refl)). rewrite Hin in Hall.
  left. clearbody c1.
  destruct c1 as [s | [|] | | s m e]; try discriminate Hall; reflexivity.
Qed.

(** X27.  A blueprint in which no zone with the id [intake-zone] holds
    a dock has no route: [planRoute] returns the empty route with
    throughput zero for every resource, whatever else the blueprint
    holds. *)
Theorem planRoute_without_intake_dock (bp : Blueprint) (resourceType : string) :
  (forall z s, In z (layout_zones bp) -> zone_id z = "intake-zone" ->
               In s (structures z) -> type s <> "dock") ->
  planRoute (_index bp) resourceType =
  Return {| Result.route := []; Result.throughput := pos_zero |}.
Proof.
  intros Hno. apply planRoute_no_dock.
  unfold intake_dock.
  destruct (find_in _ is_dock) as [s |] eqn:Hf; [| reflexivity].
  destruct (find_in_zone _ _ _ Hf) as [z [Hz [Hzid [Hs Hdock]]]].
  apply String.eqb_eq in Hdock. contradiction (Hno z s Hz Hzid Hs).
Qed.

Lemma planRoute_route_from_blueprint_witness :
  (List.length ["intake-dock-1"; "conveyor-1"; "refinery-primary";
                "silo-refined"; "outbound-dock-1"] <= 5)%nat /\
  forall i,
    In i ["intake-dock-1"; "conveyor-1"; "refinery-primary";
          "silo-refined"; "outbound-dock-1"] ->
    in_blueprint Fixtures.blueprint i.
Proof.
  destruct (@planRoute_route_from_blueprint Fixtures.blueprint "raw-ore"
              {| Result.route := ["intake-dock-1"; "conveyor-1";
                                  "refinery-primary"; "silo-refined";
                                  "outbound-dock-1"];
                 Result.throughput := of_int 60 |})
    as [Hlen [Hids _]].
  - vm_compute. reflexivity.
  - split; [exact Hlen | exact Hids].
Defined.

Lemma throughput_same_for_every_resource_witness :
  Result.throughput
    {| Result.route := ["intake-dock-1"; "conveyor-1"; "refinery-primary";
                        "silo-refined"; "outbound-dock-1"];
       Result.throughput := of_int 60 |} =
  Result.throughput
    {| Result.route := ["intake-dock-1"; "conveyor-1"; "refinery-primary";
                        "vault-crystal"; "outbound-dock-1"];
       Result.throughput := of_int 60 |}.
Proof.
  apply (@throughput_same_for_every_resource (_index Fixtures.blueprint)
           "raw-ore" "crystal-shard");
    vm_compute; reflexivity.
Defined.

Lemma throughput_NaN_when_a_clamp_is_missing_witness :
  Result.throughput
    {| Result.route := ["intake-dock-1"; "conveyor-1"; "refinery-primary";
                        "silo-refined"; "outbound-dock-1"];
       Result.throughput := NaN |} = NaN.
Proof.
  apply (@throughput_NaN_when_a_clamp_is_missing (_index Samples.unmetered)
           "raw-ore" Fixtures.intake_dock_1).
  - vm_compute. reflexivity.
  - vm_compute. reflexivity.
  - vm_compute. tauto.
Defined.

Lemma throughput_is_the_bottleneck_witness :
  In (of_int 60) (clamps (_index Fixtures.blueprint) Fixtures.intake_dock_1) /\
  forall c, In c (clamps (_index Fixtures.blueprint) Fixtures.intake_dock_1) ->
            fle (of_int 60) c = true.
Proof.
  apply (@throughput_is_the_bottleneck (_index Fixtures.blueprint) "raw-ore"
           Fixtures.intake_dock_1
           {| Result.route := ["intake-dock-1"; "conveyor-1";
                               "refinery-primary"; "silo-refined";
                               "outbound-dock-1"];
              Result.throughput := of_int 60 |}).
  - vm_compute. reflexivity.
  - vm_compute. reflexivity.
  - vm_compute. intuition discriminate.
Defined.

Lemma planRoute_without_intake_dock_witness :
  planRoute (_index Samples.outpost) "raw-ore" =
  Return {| Result.route := []; Result.throughput := pos_zero |}.
Proof.
  apply (@planRoute_without_intake_dock Samples.outpost "raw-ore").
  intros z s [<- | [<- | []]] Hid; discriminate Hid.
Defined.
End RouteFacts.

(* ================================================================== *)
(** * Storage capacity *)
(* ================================================================== *)

Module StorageFacts.
Import F64 Storage.

Lemma fold_capacities (ss : list Structure) :
  forall total,
    fold_left (fun total s =>
                 if truthy (maxUnits s)
                 then fadd total (to_number (maxUnits s))
                 else total) ss total =
    fold_left fadd (capacities ss) total.
Proof.
  unfold capacities.
  induction ss as [| s ss IH]; intros total; cbn [fold_left filter];
    [reflexivity |].
  rewrite IH. destruct (truthy (maxUnits s)); reflexivity.
Qed.

(** X28.  [totalStorageCapacity] adds up, from zero and in blueprint
    order, the [maxUnits] of the structures of the last zone of the
    blueprint with the id [storage-zone], when their ids are distinct;
    a structure whose [maxUnits] is absent, zero or NaN is skipped, and
    the type of a structure and the other zones play no part. *)
Theorem totalStorageCapacity_sums_the_storage_zone
        (layout_zones : list Zone) (z : Zone) :
  last_zone layout_zones "storage-zone" = Some z ->
  NoDup (map id (structures z)) ->
  totalStorageCapacity (_index layout_zones) =
  fold_left fadd (capacities (structures z)) pos_zero.
Proof.
  unfold last_zone, totalStorageCapacity, _index. cbn [zones].
  intros Hz Hnd.
  rewrite (RouteFacts.get_index zone_id index_zone "storage-zone" layout_zones).
  rewrite Hz. rewrite fold_capacities. f_equal. f_equal.
  unfold index_zone, JsMap.values.
  rewrite (RouteFacts.index_distinct id (fun s => s) (structures z) Hnd).
  - cbn [JsMap.empty app]. rewrite map_map. cbn [snd]. apply map_id.
  - intros x _. reflexivity.
Qed.

Lemma totalStorageCapacity_sums_the_storage_zone_witness :
  totalStorageCapacity (_index Samples.stores) =
  fold_left fadd [of_int 5000; of_int 2000] pos_zero.
Proof.
  apply (@totalStorageCapacity_sums_the_storage_zone
           Samples.stores Samples.storage_zone).
  - reflexivity.
  - cbn. repeat constructor; cbn; intuition discriminate.
Defined.

(** X29.  Without a zone with the id [storage-zone] the capacity is
    zero. *)
Theorem totalStorageCapacity_without_storage_zone (layout_zones : list Zone) :
  (forall z, In z layout_zones -> zone_id z <> "storage-zone") ->
  totalStorageCapacity (_index layout_zones) = pos_zero.
Proof.
  intros Hno. unfold totalStorageCapacity, _index. cbn [zones].
  rewrite (RouteFacts.get_index zone_id index_zone "storage-zone" layout_zones).
  destruct (find _ (rev layout_zones)) as [z |] eqn:Hf; [| reflexivity].
  apply find_some in Hf. destruct Hf as [Hin Hid].
  apply String.eqb_eq in Hid. apply in_rev in Hin.
  contradiction (Hno z Hin Hid).
Qed.

Lemma totalStorageCapacity_without_storage_zone_witness :
  totalStorageCapacity
    (_index [ {| zone_id := "intake-zone";
                 structures := [ {| id := "intake-dock-1";
                                    maxUnits := Some (of_int 10) |} ] |} ]) =
  pos_zero.
Proof.
  apply totalStorageCapacity_without_storage_zone.
  intros z [<- | []]. discriminate.
Defined.
End StorageFacts.

(* ================================================================== *)
(** * Names outside the registry *)
(* ================================================================== *)

Module RegistryFacts.
Import Engine EngineFacts.

Lemma find_some_exists {T} (f : T -> bool) (xs : list T) :
  (exists x, In x xs /\ f x = true) -> exists y, find f xs = Some y /\ f y = true.
Proof.
  intros [x [Hin Hx]]. induction xs as [| a xs IH]; simpl in *; [contradiction |].
  destruct (f a) eqn:Ha.
  - exists a. split; [reflexivity | exact Ha].
  - destruct Hin as [-> | Hin]; [congruence | apply IH, Hin].
Qed.

(** X30.  When some placed primitive declares a capability name
    outside the registry, [tick] completes by throwing and hands no
    output back: the exception is the one raised at the first such name
    in visiting order, [Error "Unknown capability: <name>"], or the
    [TypeError] of calling a missing [tick] when that name is a member
    of [Object.prototype]; whatever was accumulated before it is
    dropped. *)
Theorem tick_unknown_capability_aborts {A : Arith}
        (prims : list Primitive) (st : SectorState) (seed : Z) :
  (exists p capName,
      In p prims /\ In capName (capabilities p) /\ registered capName = false) ->
  exists capName,
    first_unregistered prims = Some capName /\
    registered capName = false /\
    tick prims st seed = Throw (unknown_capability_failure capName) /\
    forall partial, tick prims st seed <> Return partial.
Proof.
  intros [p [n [Hp [Hn Hreg]]]].
  destruct (@find_some_exists _ (fun n => negb (registered n))
              (flat_map capabilities prims)) as [m [Hfind Hm]].
  - exists n. split.
    + apply in_flat_map. exists p. split; assumption.
    + rewrite Hreg. reflexivity.
  - exists m. fold (first_unregistered prims) in Hfind.
    rewrite tick_spec, Hfind. repeat split.
    + destruct (registered m); [discriminate Hm | reflexivity].
    + intros partial. discriminate.
Qed.

Lemma tick_unknown_capability_aborts_witness :
  exists capName,
    first_unregistered [Fixtures.neon; Fixtures.corrupt; Fixtures.neon]
      = Some capName /\
    registered capName = false /\
    tick [Fixtures.neon; Fixtures.corrupt; Fixtures.neon] Fixtures.sectorState 7
      = Throw (unknown_capability_failure capName) /\
    forall partial,
      tick [Fixtures.neon; Fixtures.corrupt; Fixtures.neon] Fixtures.sectorState 7
      <> Return partial.
Proof.
  apply tick_unknown_capability_aborts.
  exists Fixtures.corrupt, "TELEPORT". simpl. split; [| split].
  - right. left. reflexivity.
  - right. left. reflexivity.
  - reflexivity.
Defined.
End RegistryFacts.
